(** * value-hunter-api: the stock screening pipeline, embedded and verified

    The repository is a small TypeScript service: it queries a stock
    screener, enriches the candidates with per-symbol look-ups, asks a
    language model to score them, sorts and truncates the answer and posts
    it to a chat channel.

    The embedding follows the source file by file.  JavaScript numbers are
    the IEEE 754 binary64 values of Rocq's primitive [float]; strings are
    [string]s holding the UTF-8 bytes of the text; values of type [any]
    (everything read from a JSON reply) are [JsVal]; the outbound calls are
    oracles that thread a state of the outside world, and [throw] is the
    left summand of the result.  *)

From Stdlib Require Import ZArith List String Ascii Bool Lia Sorted Permutation.
From Stdlib Require Import Floats.
Import ListNotations.
Local Open Scope string_scope.
Local Open Scope Z_scope.
Set Warnings "-register-all".

(* ================================================================== *)
(** * Numbers of the JavaScript runtime *)
(* ================================================================== *)

Module JsNumber.

(** ** Decimal digits *)

Definition digit_char (d : Z) : ascii :=
  match d with
  | 0 => "0" | 1 => "1" | 2 => "2" | 3 => "3" | 4 => "4"
  | 5 => "5" | 6 => "6" | 7 => "7" | 8 => "8" | 9 => "9"
  | _ => "0"
  end%char.

Definition byte (c : ascii) : N := N_of_ascii c.

(** The value of a decimal digit: the bytes 48 to 57. *)
Definition digit_val (c : ascii) : option Z :=
  let b := Z.of_N (byte c) in
  if (48 <=? b) && (b <=? 57) then Some (b - 48) else None.

(** The digits of [n / 10^j], most significant first, in front of [acc]. *)
Fixpoint digits_aux (fuel : nat) (n : Z) (acc : string) : string :=
  match fuel with
  | O => acc
  | S k =>
      let acc' := String (digit_char (n mod 10)) acc in
      if n / 10 =? 0 then acc' else digits_aux k (n / 10) acc'
  end.

(** "the digits of the decimal representation of n (in order, with no
    leading zeroes)"; ["0"] for 0.  A number has no more decimal digits
    than binary ones, which bounds the recursion. *)
Definition decimal_digits (n : Z) : string :=
  digits_aux (S (Z.to_nat (Z.log2 n))) n "".

Fixpoint zeros (k : nat) : string :=
  match k with O => "" | S k' => String "0" (zeros k') end.

Fixpoint str_firstn (k : nat) (s : string) : string :=
  match k, s with
  | S k', String c s' => String c (str_firstn k' s')
  | _, _ => ""
  end.

Fixpoint str_skipn (k : nat) (s : string) : string :=
  match k, s with
  | S k', String _ s' => str_skipn k' s'
  | _, _ => s
  end.

(** ** From a decimal to the nearest binary64 *)

(** The binary64 value nearest to [(-1)^neg * n * 10^e10] (ties to even,
    overflow to infinity, gradual underflow): the reading of a numeric
    literal.  The quotient of the two integers is rounded by the
    Standard Library's specification of IEEE division. *)
Definition dec_to_SF (neg : bool) (n e10 : Z) : spec_float :=
  if n <=? 0 then S754_zero neg
  else
    let '(p, q) := if 0 <=? e10 then (n * 10 ^ e10, 1) else (n, 10 ^ (- e10)) in
    let '(mz, ez, lz) := SFdiv_core_binary prec emax p 0 q 0 in
    binary_round_aux prec emax neg mz ez lz.

Definition dec_to_float (neg : bool) (n e10 : Z) : float :=
  SF2Prim (dec_to_SF neg n e10).

(** ** The exact value of a finite number, scaled by a power of ten *)

(** [m * 2^e * 10^t] as the fraction [scale_num / scale_den]. *)
Definition scale_num (m : positive) (e t : Z) : Z :=
  Zpos m * 2 ^ (Z.max e 0) * 10 ^ (Z.max t 0).

Definition scale_den (e t : Z) : Z :=
  2 ^ (Z.max (- e) 0) * 10 ^ (Z.max (- t) 0).

Definition scale_floor (m : positive) (e t : Z) : Z :=
  scale_num m e t / scale_den e t.

Definition scale_nearest_even (m : positive) (e t : Z) : Z :=
  let lo := scale_floor m e t in
  match 2 * (scale_num m e t mod scale_den e t) ?= scale_den e t with
  | Lt => lo
  | Gt => lo + 1
  | Eq => if Z.even lo then lo else lo + 1
  end.

(** The integer nearest to [m * 2^e * 10^t]; of two, the larger. *)
Definition scale_round_up (m : positive) (e t : Z) : Z :=
  (2 * scale_num m e t + scale_den e t) / (2 * scale_den e t).

(** ** Number::toString *)

Definition same_SF (a b : spec_float) : bool :=
  match a, b with
  | S754_finite sa ma ea, S754_finite sb mb eb =>
      Bool.eqb sa sb && Pos.eqb ma mb && Z.eqb ea eb
  | _, _ => false
  end.

(** The [n] with [10^(n-1) <= m * 2^e < 10^n]: one of three candidates
    around the estimate from the binary logarithm. *)
Definition magnitude (m : positive) (e : Z) : Z :=
  let c := (Z.log2 (Zpos m) + e) * 30103 / 100000 in
  if scale_floor m e (- c) =? 0 then c
  else if scale_floor m e (- (c + 1)) =? 0 then c + 1
  else c + 2.

(** A [k]-digit [s] with [s * 10^(n-k)] reading back as the number
    itself, if there is one: the nearest [k]-digit decimal, then its
    neighbour. *)
Definition try_digits (m : positive) (e n0 k : Z) : option (Z * Z) :=
  let near := scale_nearest_even m e (k - n0) in
  let lo := scale_floor m e (k - n0) in
  let other := if near =? lo then lo + 1 else lo in
  let norm s := if s =? 10 ^ k then (10 ^ (k - 1), n0 + 1) else (s, n0) in
  let ok sn :=
    same_SF (dec_to_SF false (fst sn) (snd sn - k)) (S754_finite false m e) in
  if ok (norm near) then Some (norm near)
  else if ok (norm other) then Some (norm other)
  else None.

(** The exact decimal expansion of [m * 2^e], as digits and exponent. *)
Definition exact_digits (m : positive) (e : Z) : Z * Z :=
  if 0 <=? e then (Zpos m * 2 ^ e, 0) else (Zpos m * 5 ^ (- e), e).

(** "let n, k, and s be integers such that k >= 1, 10^(k-1) <= s < 10^k,
    s * 10^(n-k) is x, and k is as small as possible".  Seventeen digits
    always suffice for a binary64; were the search to end without a
    result, the exact expansion stands in. *)
Fixpoint shortest_digits (fuel : nat) (m : positive) (e n0 k : Z) : Z * Z * Z :=
  match try_digits m e n0 k with
  | Some (s, n) => (s, n, k)
  | None =>
      match fuel with
      | O =>
          let '(s, t) := exact_digits m e in
          let k' := Z.of_nat (String.length (decimal_digits s)) in
          (s, k' + t, k')
      | S fuel' => shortest_digits fuel' m e n0 (k + 1)
      end
  end.

Definition format_digits (s n k : Z) : string :=
  let ds := decimal_digits s in
  if (k <=? n) && (n <=? 21) then ds ++ zeros (Z.to_nat (n - k))
  else if (0 <? n) && (n <=? 21) then
    str_firstn (Z.to_nat n) ds ++ "." ++ str_skipn (Z.to_nat n) ds
  else if (-6 <? n) && (n <=? 0) then "0." ++ zeros (Z.to_nat (- n)) ++ ds
  else
    let ex := n - 1 in
    let tail := (if ex <? 0 then "e-" else "e+") ++ decimal_digits (Z.abs ex) in
    if k =? 1 then ds ++ tail
    else str_firstn 1 ds ++ "." ++ str_skipn 1 ds ++ tail.

(** Number::toString(x, 10). *)
Definition Number_toString (x : float) : string :=
  match Prim2SF x with
  | S754_nan => "NaN"
  | S754_zero _ => "0"
  | S754_infinity s => if s then "-Infinity" else "Infinity"
  | S754_finite s m e =>
      let '(d, n, k) := shortest_digits 16 m e (magnitude m e) 1 in
      (if s then "-" else "") ++ format_digits d n k
  end.

(** ** Number.prototype.toFixed *)

(** The digits of [n] with the decimal point [f] digits from the right,
    zero-padded to at least [f + 1] digits. *)
Definition fixed_digits (n : Z) (f : nat) : string :=
  let m := decimal_digits n in
  let k := String.length m in
  let m := if Nat.leb k f then zeros (S f - k) ++ m else m in
  let k := String.length m in
  match f with
  | O => m
  | _ => str_firstn (k - f) m ++ "." ++ str_skipn (k - f) m
  end.

(** "Let n be an integer for which n / 10^f - x is as close to zero as
    possible.  If there are two such n, pick the larger n." *)
Definition round_scaled (m : positive) (e : Z) (f : nat) : Z :=
  scale_round_up m e (Z.of_nat f).

Definition toFixed (x : float) (f : nat) : string :=
  match Prim2SF x with
  | S754_nan => "NaN"
  | S754_infinity s => if s then "-Infinity" else "Infinity"
  | S754_zero _ => fixed_digits 0 f
  | S754_finite s m e =>
      (if s then "-" else "") ++
      (if (1e21 <=? abs x)%float then Number_toString (abs x)
       else fixed_digits (round_scaled m e f) f)
  end.

(** ** StringToNumber *)

(** WhiteSpace and LineTerminator, as UTF-8: the ASCII ones, U+00A0,
    and the three-byte ones (U+1680, U+2000 to U+200A, U+2028, U+2029,
    U+202F, U+205F, U+3000, U+FEFF). *)
Definition is_ws1 (c : ascii) : bool :=
  match byte c with
  | 9 | 10 | 11 | 12 | 13 | 32 => true
  | _ => false
  end%N.

Definition is_ws2 (c1 c2 : ascii) : bool :=
  (byte c1 =? 194)%N && (byte c2 =? 160)%N.

Definition is_ws3 (c1 c2 c3 : ascii) : bool :=
  match byte c1, byte c2, byte c3 with
  | 225, 154, 128 => true
  | 226, 128, b => (128 <=? b)%N && (b <=? 138)%N
                   || (b =? 168)%N || (b =? 169)%N || (b =? 175)%N
  | 226, 129, 159 => true
  | 227, 128, 128 => true
  | 239, 187, 191 => true
  | _, _, _ => false
  end%N.

(** The longest run of white space at the front, and what follows it. *)
Fixpoint span_ws (s : string) : string * string :=
  match s with
  | String c1 s1 =>
      if is_ws1 c1 then
        let '(w, r) := span_ws s1 in (String c1 w, r)
      else
        match s1 with
        | String c2 s2 =>
            if is_ws2 c1 c2 then
              let '(w, r) := span_ws s2 in (String c1 (String c2 w), r)
            else
              match s2 with
              | String c3 s3 =>
                  if is_ws3 c1 c2 c3 then
                    let '(w, r) := span_ws s3 in
                    (String c1 (String c2 (String c3 w)), r)
                  else ("", s)
              | EmptyString => ("", s)
              end
        | EmptyString => ("", s)
        end
  | EmptyString => ("", s)
  end.

Definition skip_ws (s : string) : string := snd (span_ws s).

(** A run of decimal digits continuing the value [acc]: the value, the
    number of digits read added to [cnt], and the rest. *)
Fixpoint scan_digits (s : string) (acc cnt : Z) : Z * Z * string :=
  match s with
  | String c s' =>
      match digit_val c with
      | Some d => scan_digits s' (10 * acc + d) (cnt + 1)
      | None => (acc, cnt, s)
      end
  | EmptyString => (acc, cnt, s)
  end.

(** ExponentPart, when one is there. *)
Definition parse_exponent (s : string) : Z * string :=
  match s with
  | String c s1 =>
      if Ascii.eqb c "e" || Ascii.eqb c "E" then
        let '(neg, s2) :=
          match s1 with
          | String "+" r => (false, r)
          | String "-" r => (true, r)
          | _ => (false, s1)
          end in
        let '(v, cnt, s3) := scan_digits s2 0 0 in
        if cnt =? 0 then (0, s) else ((if neg then - v else v), s3)
      else (0, s)
  | EmptyString => (0, s)
  end.

Fixpoint str_prefix (p s : string) : option string :=
  match p, s with
  | EmptyString, _ => Some s
  | String a p', String b s' => if Ascii.eqb a b then str_prefix p' s' else None
  | _, _ => None
  end.

(** StrUnsignedDecimalLiteral, with the sign read before it. *)
Definition parse_unsigned_decimal (neg : bool) (s : string) : option (float * string) :=
  match str_prefix "Infinity" s with
  | Some r => Some ((if neg then neg_infinity else infinity), r)
  | None =>
      let '(i, ci, r1) := scan_digits s 0 0 in
      let '(a, cf, r2) :=
        match r1 with
        | String "." r => scan_digits r i 0
        | _ => (i, 0, r1)
        end in
      if ci + cf =? 0 then None
      else
        let '(ex, r3) := parse_exponent r2 in
        Some (dec_to_float neg a (ex - cf), r3)
  end.

Definition radix_digit (radix : Z) (c : ascii) : option Z :=
  let b := Z.of_N (byte c) in
  let d :=
    if (48 <=? b) && (b <=? 57) then b - 48
    else if (97 <=? b) && (b <=? 102) then b - 87
    else if (65 <=? b) && (b <=? 70) then b - 55
    else 99 in
  if d <? radix then Some d else None.

Fixpoint scan_radix (radix : Z) (s : string) (acc cnt : Z) : Z * Z * string :=
  match s with
  | String c s' =>
      match radix_digit radix c with
      | Some d => scan_radix radix s' (radix * acc + d) (cnt + 1)
      | None => (acc, cnt, s)
      end
  | EmptyString => (acc, cnt, s)
  end.

(** NonDecimalIntegerLiteral: 0x, 0o and 0b (unsigned). *)
Definition radix_of (c : ascii) : Z :=
  if Ascii.eqb c "x" || Ascii.eqb c "X" then 16
  else if Ascii.eqb c "o" || Ascii.eqb c "O" then 8
  else if Ascii.eqb c "b" || Ascii.eqb c "B" then 2
  else 0.

Definition parse_non_decimal (s : string) : option (float * string) :=
  match s with
  | String z (String c r) =>
      if Ascii.eqb z "0" && negb (radix_of c =? 0) then
        let '(v, cnt, r') := scan_radix (radix_of c) r 0 0 in
        if cnt =? 0 then None else Some (dec_to_float false v 0, r')
      else None
  | _ => None
  end.

(** The sign in front of a decimal literal, and the literal. *)
Definition split_sign (t : string) : bool * string :=
  match t with
  | String c u =>
      if Ascii.eqb c "+" then (false, u)
      else if Ascii.eqb c "-" then (true, u)
      else (false, t)
  | EmptyString => (false, t)
  end.

(** StringToNumber: the empty or blank string is 0, a numeric literal
    between optional white space is its value, anything else is NaN. *)
Definition StringToNumber (s : string) : float :=
  let t := skip_ws s in
  match t with
  | EmptyString => zero
  | _ =>
      let lit :=
        match parse_non_decimal t with
        | Some r => Some r
        | None =>
            let '(neg, u) := split_sign t in parse_unsigned_decimal neg u
        end in
      match lit with
      | Some (v, rest) =>
          match skip_ws rest with EmptyString => v | _ => nan end
      | None => nan
      end
  end.

(** Math.max on two numbers. *)
Definition Math_max (a b : float) : float :=
  if is_nan a || is_nan b then nan
  else if (a <? b)%float then b
  else if (b <? a)%float then a
  else if get_sign a then b else a.

End JsNumber.

(* ================================================================== *)
(** * Values of the JavaScript runtime *)
(* ================================================================== *)

Module Js.
Import JsNumber.

(** What a [throw] carries. [HttpError] is the rejection of an outbound
    call by the HTTP client or the model's SDK. *)
Inductive Exn : Type :=
  | TypeError
  | SyntaxError
  | Error (msg : string)
  | HttpError (msg : string).

(** A value of type [any]: what a JSON reply can hold, and [undefined]
    for what it does not hold.  An object keeps its properties in
    insertion order, which is the order of the language for every key
    that is not an array index. *)
Inductive JsVal : Type :=
  | JUndefined
  | JNull
  | JBool (b : bool)
  | JNum (x : float)
  | JStr (s : string)
  | JArr (items : list JsVal)
  | JObj (props : list (string * JsVal)).

(** ** Objects as ordered property lists *)

Fixpoint obj_get (o : list (string * JsVal)) (k : string) : option JsVal :=
  match o with
  | [] => None
  | (k', v) :: o' => if String.eqb k' k then Some v else obj_get o' k
  end.

(** Assignment to a property: in place when the key exists, at the end
    when it is new. *)
Fixpoint obj_set (o : list (string * JsVal)) (k : string) (v : JsVal)
  : list (string * JsVal) :=
  match o with
  | [] => [(k, v)]
  | (k', v') :: o' =>
      if String.eqb k' k then (k', v) :: o' else (k', v') :: obj_set o' k v
  end.

(** [{ ...target, ...src }], the properties of [src] assigned in order. *)
Fixpoint obj_spread (target src : list (string * JsVal)) : list (string * JsVal) :=
  match src with
  | [] => target
  | (k, v) :: src' => obj_spread (obj_set target k v) src'
  end.

(** An object literal: its properties assigned to an empty object. *)
Definition obj_literal (props : list (string * JsVal)) : list (string * JsVal) :=
  obj_spread [] props.

(** ** Coercions *)

(** ToBoolean. *)
Definition truthy (v : JsVal) : bool :=
  match v with
  | JUndefined | JNull => false
  | JBool b => b
  | JNum x => negb (is_nan x || is_zero x)
  | JStr s => negb (String.eqb s "")
  | JArr _ | JObj _ => true
  end.

(** [typeof v === "number"]. *)
Definition is_number (v : JsVal) : bool :=
  match v with JNum _ => true | _ => false end.

Fixpoint str_join (sep : string) (l : list string) : string :=
  match l with
  | [] => ""
  | [s] => s
  | s :: l' => s ++ sep ++ str_join sep l'
  end.

(** ToString; an array is its elements joined by commas, [null] and
    [undefined] elements as empty strings; a plain object is
    "[object Object]".  This is the result of the conversion when it
    returns, which [converts] below decides. *)
Fixpoint ToString (v : JsVal) : string :=
  match v with
  | JUndefined => "undefined"
  | JNull => "null"
  | JBool b => if b then "true" else "false"
  | JNum x => Number_toString x
  | JStr s => s
  | JArr items =>
      str_join ","
        (map (fun i => match i with
                       | JUndefined | JNull => ""
                       | _ => ToString i
                       end) items)
  | JObj _ => "[object Object]"
  end.

(** ToNumber; arrays and objects go through their string.  As for
    [ToString], this is the result when the conversion returns. *)
Definition ToNumber (v : JsVal) : float :=
  match v with
  | JUndefined => nan
  | JNull => zero
  | JBool b => if b then one else zero
  | JNum x => x
  | JStr s => StringToNumber s
  | JArr _ | JObj _ => StringToNumber (ToString v)
  end.

(** Whether ToPrimitive succeeds on a value that a JSON text or a query
    string can give.  No such value is callable, so an object with an own
    property [toString] has lost the method of its prototype and its
    conversion to a string or to a number throws a TypeError; an array
    converts when its elements do.  Where [converts] holds, [ToString]
    and [ToNumber] are what the conversions return. *)
Fixpoint converts (v : JsVal) : bool :=
  match v with
  | JArr items => forallb converts items
  | JObj o => match obj_get o "toString" with Some _ => false | None => true end
  | _ => true
  end.

(** ** Property access *)

(** [v.k] for a property name [k] that no prototype defines, which holds
    for every name this program reads: a TypeError on [null] and
    [undefined], the own property of an object, [undefined] otherwise. *)
Definition get_prop (v : JsVal) (k : string) : Exn + JsVal :=
  match v with
  | JUndefined | JNull => inl TypeError
  | JObj o => inr (match obj_get o k with Some x => x | None => JUndefined end)
  | _ => inr JUndefined
  end.

(** [v[0]]. *)
Definition get_index0 (v : JsVal) : Exn + JsVal :=
  match v with
  | JUndefined | JNull => inl TypeError
  | JArr items => inr (match items with x :: _ => x | [] => JUndefined end)
  | JStr s => inr (match s with String c _ => JStr (String c "") | _ => JUndefined end)
  | JObj o => inr (match obj_get o "0" with Some x => x | None => JUndefined end)
  | _ => inr JUndefined
  end.

(** ** JSON.parse *)

Inductive token : Type :=
  | TLBrack | TRBrack | TLBrace | TRBrace | TComma | TColon
  | TString (s : string)
  | TNumber (x : float)
  | TTrue | TFalse | TNull.

(** A piece of a string literal: a byte of the text, or a UTF-16 code
    unit written as a [\u] escape. *)
Inductive sunit : Type :=
  | Raw (c : ascii)
  | Unit16 (u : Z).

Definition ascii_of_Z (z : Z) : ascii := ascii_of_N (Z.to_N z).

Definition utf8_of_code (cp : Z) : list ascii :=
  if cp <? 128 then [ascii_of_Z cp]
  else if cp <? 2048 then
    [ascii_of_Z (192 + cp / 64); ascii_of_Z (128 + cp mod 64)]
  else if cp <? 65536 then
    [ascii_of_Z (224 + cp / 4096); ascii_of_Z (128 + (cp / 64) mod 64);
     ascii_of_Z (128 + cp mod 64)]
  else
    [ascii_of_Z (240 + cp / 262144); ascii_of_Z (128 + (cp / 4096) mod 64);
     ascii_of_Z (128 + (cp / 64) mod 64); ascii_of_Z (128 + cp mod 64)].

Fixpoint string_of_units (l : list sunit) : string :=
  match l with
  | [] => ""
  | Raw c :: l' => String c (string_of_units l')
  | Unit16 hi :: l' =>
      let single := string_of_list_ascii (utf8_of_code hi) ++ string_of_units l' in
      match l' with
      | Unit16 lo :: l'' =>
          if (55296 <=? hi) && (hi <=? 56319) && (56320 <=? lo) && (lo <=? 57343)
          then string_of_list_ascii
                 (utf8_of_code (65536 + (hi - 55296) * 1024 + (lo - 56320)))
               ++ string_of_units l''
          else single
      | _ => single
      end
  end.

(** The number of a JSON number token: an optional minus, an integer
    part without a leading zero (unless it is the digit 0 alone), an
    optional fraction of at least one digit, an optional exponent. *)
Definition json_number (w : string) : option float :=
  let '(neg, u) := match w with String "-" r => (true, r) | _ => (false, w) end in
  let '(i, ci, r1) := scan_digits u 0 0 in
  let leading_zero := match u with String "0" _ => true | _ => false end in
  if (ci =? 0) || (leading_zero && (1 <? ci)) then None
  else
    let frac :=
      match r1 with
      | String "." r =>
          let '(a, cf, r2) := scan_digits r i 0 in
          if cf =? 0 then None else Some (a, cf, r2)
      | _ => Some (i, 0, r1)
      end in
    match frac with
    | None => None
    | Some (a, cf, r2) =>
        match r2 with
        | EmptyString => Some (dec_to_float neg a (- cf))
        | _ =>
            let '(ex, r3) := parse_exponent r2 in
            match r3 with
            | EmptyString => Some (dec_to_float neg a (ex - cf))
            | _ => None
            end
        end
    end.

Definition json_word (w : string) : option token :=
  if String.eqb w "true" then Some TTrue
  else if String.eqb w "false" then Some TFalse
  else if String.eqb w "null" then Some TNull
  else option_map TNumber (json_number w).

Inductive lex_mode : Type :=
  | LIdle
  | LWord (acc : list ascii)
  | LStr (acc : list sunit)
  | LEsc (acc : list sunit)
  | LUni (acc : list sunit) (hex : list Z).

Definition dquote : ascii := "034"%char.

Definition json_ws (c : ascii) : bool :=
  match byte c with 9 | 10 | 13 | 32 => true | _ => false end%N.

Definition json_punct (c : ascii) : option token :=
  match c with
  | "[" => Some TLBrack | "]" => Some TRBrack
  | "{" => Some TLBrace | "}" => Some TRBrace
  | "," => Some TComma | ":" => Some TColon
  | _ => None
  end%char.

Definition hex_value (l : list Z) : Z :=
  fold_left (fun a d => 16 * a + d) l 0.

Definition word_token (acc : list ascii) : option token :=
  json_word (string_of_list_ascii (rev acc)).

Definition cons_opt {A} (x : option A) (l : option (list A)) : option (list A) :=
  match x, l with
  | Some a, Some r => Some (a :: r)
  | _, _ => None
  end.

(** The tokens of a JSON text, read one byte at a time. *)
Fixpoint lex (m : lex_mode) (s : string) : option (list token) :=
  match s with
  | EmptyString =>
      match m with
      | LIdle => Some []
      | LWord acc => cons_opt (word_token acc) (Some [])
      | _ => None
      end
  | String c s' =>
      let idle (_ : unit) :=
        if json_ws c then lex LIdle s'
        else match json_punct c with
             | Some t => cons_opt (Some t) (lex LIdle s')
             | None =>
                 if Ascii.eqb c dquote then lex (LStr []) s'
                 else lex (LWord [c]) s'
             end in
      match m with
      | LIdle => idle tt
      | LWord acc =>
          if json_ws c || Ascii.eqb c dquote ||
             match json_punct c with Some _ => true | None => false end
          then cons_opt (word_token acc) (idle tt)
          else lex (LWord (c :: acc)) s'
      | LStr acc =>
          if Ascii.eqb c dquote then
            cons_opt (Some (TString (string_of_units (rev acc)))) (lex LIdle s')
          else if Ascii.eqb c "\" then lex (LEsc acc) s'
          else if (byte c <? 32)%N then None
          else lex (LStr (Raw c :: acc)) s'
      | LEsc acc =>
          match c with
          | "034" | "\" | "/" => lex (LStr (Raw c :: acc)) s'
          | "b" => lex (LStr (Raw "008" :: acc)) s'
          | "f" => lex (LStr (Raw "012" :: acc)) s'
          | "n" => lex (LStr (Raw "010" :: acc)) s'
          | "r" => lex (LStr (Raw "013" :: acc)) s'
          | "t" => lex (LStr (Raw "009" :: acc)) s'
          | "u" => lex (LUni acc []) s'
          | _ => None
          end%char
      | LUni acc hex =>
          match radix_digit 16 c with
          | Some d =>
              let hex' := (hex ++ [d])%list in
              if Nat.eqb (List.length hex') 4
              then lex (LStr (Unit16 (hex_value hex') :: acc)) s'
              else lex (LUni acc hex') s'
          | None => None
          end
      end
  end.

(** The containers that wait for the value being read. *)
Inductive frame : Type :=
  | FArr (done : list JsVal)
  | FObj (done : list (string * JsVal)) (key : string).

Inductive pstate : Type :=
  | PValue (st : list frame) (can_close : bool)
  | PArrNext (st : list frame) (done : list JsVal)
  | PKey (st : list frame) (done : list (string * JsVal)) (can_close : bool)
  | PColon (st : list frame) (done : list (string * JsVal)) (key : string)
  | PObjNext (st : list frame) (done : list (string * JsVal))
  | PDone (v : JsVal).

(** A value is complete: it is the result, or goes into the innermost
    waiting container. *)
Definition complete (st : list frame) (v : JsVal) : pstate :=
  match st with
  | [] => PDone v
  | FArr done :: st' => PArrNext st' (done ++ [v])%list
  | FObj done key :: st' => PObjNext st' (obj_set done key v)
  end.

Definition parse_step (p : pstate) (t : token) : option pstate :=
  match p, t with
  | PValue st _, TString s => Some (complete st (JStr s))
  | PValue st _, TNumber x => Some (complete st (JNum x))
  | PValue st _, TTrue => Some (complete st (JBool true))
  | PValue st _, TFalse => Some (complete st (JBool false))
  | PValue st _, TNull => Some (complete st JNull)
  | PValue st _, TLBrack => Some (PValue (FArr [] :: st) true)
  | PValue st _, TLBrace => Some (PKey st [] true)
  | PValue (FArr [] :: st) true, TRBrack => Some (complete st (JArr []))
  | PArrNext st done, TComma => Some (PValue (FArr done :: st) false)
  | PArrNext st done, TRBrack => Some (complete st (JArr done))
  | PKey st done _, TString k => Some (PColon st done k)
  | PKey st done true, TRBrace => Some (complete st (JObj done))
  | PColon st done k, TColon => Some (PValue (FObj done k :: st) false)
  | PObjNext st done, TComma => Some (PKey st done false)
  | PObjNext st done, TRBrace => Some (complete st (JObj done))
  | _, _ => None
  end.

Fixpoint parse_tokens (p : pstate) (ts : list token) : option JsVal :=
  match ts with
  | [] => match p with PDone v => Some v | _ => None end
  | t :: ts' =>
      match parse_step p t with
      | Some p' => parse_tokens p' ts'
      | None => None
      end
  end.

(** JSON.parse: the value of the text, or a SyntaxError. *)
Definition JSON_parse (s : string) : Exn + JsVal :=
  match lex LIdle s with
  | Some ts =>
      match parse_tokens (PValue [] false) ts with
      | Some v => inr v
      | None => inl SyntaxError
      end
  | None => inl SyntaxError
  end.

(** ** The regular expression of the scoring service *)

(** [\s*\]] at the front: the text matched. *)
Definition match_close (s : string) : option string :=
  let '(w, r) := span_ws s in
  match r with
  | String "]" _ => Some (w ++ "]")
  | _ => None
  end.

(** [[\s\S]*?}\s*\]] at the front, the lazy star taking as little as it
    can: the text matched. *)
Fixpoint match_body (s : string) : option string :=
  match s with
  | EmptyString => None
  | String c s' =>
      if Ascii.eqb c "}" then
        match match_close s' with
        | Some t => Some (String c t)
        | None => option_map (String c) (match_body s')
        end
      else option_map (String c) (match_body s')
  end.

(** The whole pattern [\[\s*{[\s\S]*?}\s*\]] at the front. *)
Definition match_here (s : string) : option string :=
  match s with
  | String "[" s1 =>
      let '(w, r) := span_ws s1 in
      match r with
      | String "{" r' =>
          option_map (fun b => "[" ++ w ++ "{" ++ b) (match_body r')
      | _ => None
      end
  | _ => None
  end.

(** [content.match(/\[\s*{[\s\S]*?}\s*]/)]: element 0 of the leftmost
    match, or nothing. *)
Fixpoint regex_match (s : string) : option string :=
  match match_here s with
  | Some m => Some m
  | None =>
      match s with
      | EmptyString => None
      | String _ s' => regex_match s'
      end
  end.

End Js.

Import JsNumber Js.

(* ================================================================== *)
(** * The data model of the service *)
(* ================================================================== *)

(** [StockInsights] of fetchStocks.ts.  [period] is the [date] of the
    estimate as received. *)
Record StockInsights : Type := {
  period : JsVal;
  eps : float;
  ebitdaMargin : float;
  netMargin : float;
  sgaToRevenueRatio : float;
  analystCount : float;
  summary : string
}.

(** [Stock extends StockInsights]: the record pushed by the enrichment
    loop, whose literal ends in [...analystSentiment].  The fields taken
    from the screener and the target price are values as received; the
    fundamentals have passed a [typeof] test. *)
Record Stock : Type := {
  symbol : JsVal;
  companyName : JsVal;
  price : JsVal;
  targetPrice : JsVal;
  pe : float;
  pb : float;
  rsi : float;
  debtToEquity : float;
  insights : StockInsights
}.

(** [RawStockData]: the first analyst estimate, its numeric fields read
    the way every use in [extractKeyInsights] reads them (the operands
    of [/] and [Math.max] go through ToNumber). *)
Record RawStockData : Type := {
  raw_symbol : JsVal;
  date : JsVal;
  revenueAvg : float;
  ebitdaAvg : float;
  netIncomeAvg : float;
  sgaExpenseAvg : float;
  epsAvg : float;
  numAnalystsRevenue : float;
  numAnalystsEps : float
}.

(** [Partial<Stock>] as [getMetrics] returns it; [{}] has every field
    [undefined]. *)
Record Metrics : Type := {
  m_pe : JsVal;
  m_pb : JsVal;
  m_debtToEquity : JsVal
}.

(** The chat completion of the model's SDK, as far as the service reads
    it: [res.choices[0].message?.content]. *)
Record Message : Type := { content : option string }.
Record Choice : Type := { message : option Message }.
Record ChatCompletion : Type := { choices : list Choice }.

(** The three secrets read from the environment when the modules load. *)
Record Config : Type := {
  FMP_API_KEY : string;
  DISCORD_BOT_TOKEN : string;
  DISCORD_CHANNEL_ID : string
}.

(** What [console] receives: the level, the text, and the value or the
    exception printed after it. *)
Inductive LogLevel : Type := LLog | LWarn | LError.

Record LogLine : Type := {
  level : LogLevel;
  text : string;
  detail : option (Exn + JsVal)
}.

(** The outside world.  [axios_get] resolves with the [data] of the reply
    or rejects; [axios_post] is what comes back from the server, the
    [status] of its reply or the failure of the transport, before the
    client decides whether the promise resolves (see [http_post]);
    [openai_create] is [openai.chat.completions.create], whose request is
    the fixed prompt followed by the serialised stocks.  Each call may
    change the world. *)
Record Services (World : Type) : Type := {
  axios_get : string -> World -> (Exn + JsVal) * World;
  axios_post : string -> list (string * string) -> string -> World -> (Exn + Z) * World;
  openai_create : list Stock -> World -> (Exn + ChatCompletion) * World
}.
Arguments axios_get {World}.
Arguments axios_post {World}.
Arguments openai_create {World}.

(** The reply of the HTTP entry point. *)
Inductive HttpResponse : Type :=
  | ResJson (body : JsVal)
  | ResStatus (code : Z) (body : string).

Definition nl : string := String "010" "".

(** [+ x.toFixed(f)]. *)
Definition round_to (x : float) (f : nat) : float :=
  StringToNumber (toFixed x f).

(** fetchStocks.ts, [extractKeyInsights]. *)
Definition extractKeyInsights (data : RawStockData) : StockInsights :=
  let ebitdaMargin := round_to (ebitdaAvg data / revenueAvg data) 4 in
  let netMargin := round_to (netIncomeAvg data / revenueAvg data) 4 in
  let sgaToRevenueRatio := round_to (sgaExpenseAvg data / revenueAvg data) 4 in
  let analystCount := Math_max (numAnalystsRevenue data) (numAnalystsEps data) in
  {| period := date data;
     eps := round_to (epsAvg data) 2;
     ebitdaMargin := ebitdaMargin;
     netMargin := netMargin;
     sgaToRevenueRatio := sgaToRevenueRatio;
     analystCount := analystCount;
     summary :=
       "EPS: $" ++ toFixed (epsAvg data) 2 ++
       ", EBITDA Margin: " ++ toFixed (ebitdaMargin * 100) 1 ++
       "%, Net Margin: " ++ toFixed (netMargin * 100) 1 ++
       "%, SG&A: " ++ toFixed (sgaToRevenueRatio * 100) 1 ++
       "%, Analysts: " ++ Number_toString analystCount |}.

(** The property [k] of a value already known not to be [null] or
    [undefined]. *)
Definition prop (v : JsVal) (k : string) : JsVal :=
  match get_prop v k with inr x => x | inl _ => JUndefined end.

(** The estimate handed to [extractKeyInsights]. *)
Definition as_RawStockData (v : JsVal) : RawStockData :=
  {| raw_symbol := prop v "symbol";
     date := prop v "date";
     revenueAvg := ToNumber (prop v "revenueAvg");
     ebitdaAvg := ToNumber (prop v "ebitdaAvg");
     netIncomeAvg := ToNumber (prop v "netIncomeAvg");
     sgaExpenseAvg := ToNumber (prop v "sgaExpenseAvg");
     epsAvg := ToNumber (prop v "epsAvg");
     numAnalystsRevenue := ToNumber (prop v "numAnalystsRevenue");
     numAnalystsEps := ToNumber (prop v "numAnalystsEps") |}.

Definition no_metrics : Metrics :=
  {| m_pe := JUndefined; m_pb := JUndefined; m_debtToEquity := JUndefined |}.

Definition defaultParams : list (string * JsVal) :=
  obj_literal [("isActivelyTrading", JBool true);
               ("limit", JNum 400);
               ("exchange", JStr "NASDAQ")].

(** The [finalParams] of [buildQueryParams]. *)
Definition finalParams (params : list (string * JsVal)) : list (string * JsVal) :=
  obj_spread (obj_spread [] defaultParams) params.

(** fetchStocks.ts, [buildQueryParams]. *)
Definition buildQueryParams (params : list (string * JsVal)) : string :=
  str_join "&" (map (fun kv => fst kv ++ "=" ++ ToString (snd kv)) (finalParams params)).

(** The comparator of [runBot]: [(a, b) => b.score - a.score].  The
    subtraction converts both scores to numbers, which throws on a score
    that does not convert. *)
Definition by_score (a b : JsVal) : Exn + float :=
  match get_prop b "score" with
  | inl e => inl e
  | inr sb =>
      match get_prop a "score" with
      | inl e => inl e
      | inr sa =>
          if converts sb && converts sa
          then inr (ToNumber sb - ToNumber sa)%float
          else inl TypeError
      end
  end.

(** [Array.prototype.sort] with a comparator: a stable sort, which is
    what the language prescribes whenever the comparator is consistent.
    A positive result puts the first argument after the second; NaN
    counts as 0. *)
Fixpoint sort_insert (cmp : JsVal -> JsVal -> Exn + float) (x : JsVal)
    (l : list JsVal) : Exn + list JsVal :=
  match l with
  | [] => inr [x]
  | y :: l' =>
      match cmp x y with
      | inl e => inl e
      | inr v =>
          if (0 <? v)%float then
            match sort_insert cmp x l' with
            | inl e => inl e
            | inr r => inr (y :: r)
            end
          else inr (x :: y :: l')
      end
  end.

Fixpoint sort_defined (cmp : JsVal -> JsVal -> Exn + float) (l : list JsVal)
  : Exn + list JsVal :=
  match l with
  | [] => inr []
  | x :: l' =>
      match sort_defined cmp l' with
      | inl e => inl e
      | inr s => sort_insert cmp x s
      end
  end.

Definition is_undefined (v : JsVal) : bool :=
  match v with JUndefined => true | _ => false end.

(** [undefined] elements go last and are never compared. *)
Definition Array_sort (cmp : JsVal -> JsVal -> Exn + float) (l : list JsVal)
  : Exn + list JsVal :=
  match sort_defined cmp (filter (fun v => negb (is_undefined v)) l) with
  | inl e => inl e
  | inr s => inr (s ++ filter is_undefined l)%list
  end.

(** [scored.sort((a, b) => b.score - a.score).slice(0, 3)]. *)
Definition top3_of (scored : JsVal) : Exn + list JsVal :=
  match scored with
  | JArr l =>
      match Array_sort by_score l with
      | inl e => inl e
      | inr s => inr (firstn 3 s)
      end
  | _ => inl TypeError
  end.

(** The [params] object the [/run] handler builds from [req.query]. *)
Definition run_params (query : list (string * JsVal)) : list (string * JsVal) :=
  let q k := match obj_get query k with Some v => v | None => JUndefined end in
  let is_true v := match v with JStr s => String.eqb s "true" | _ => false end in
  obj_literal
    [("marketCapLowerThan", JNum (ToNumber (q "marketCapLowerThan")));
     ("priceLowerThan", JNum (ToNumber (q "priceLowerThan")));
     ("averageVolumeMoreThan", JNum (ToNumber (q "averageVolumeMoreThan")));
     ("exchange", JStr (ToString (q "exchange")));
     ("isActivelyTrading", JBool (is_true (q "isActivelyTrading")));
     ("isEtf", JBool (is_true (q "isEtf")));
     ("isFund", JBool (is_true (q "isFund")));
     ("limit", let n := JNum (ToNumber (q "limit")) in
               if truthy n then n else JNum 400)].

(* ================================================================== *)
(** * The service *)
(* ================================================================== *)

(** A computation of the service: it reads and changes the outside world,
    writes to the console, and returns or throws. *)
Definition M (World A : Type) : Type :=
  World * list LogLine -> (Exn + A) * (World * list LogLine).

Definition ret {World A} (a : A) : M World A := fun s => (inr a, s).

Definition throw {World A} (e : Exn) : M World A := fun s => (inl e, s).

Definition bind {World A B} (m : M World A) (k : A -> M World B) : M World B :=
  fun s =>
    match m s with
    | (inr a, s') => k a s'
    | (inl e, s') => (inl e, s')
    end.

(** [try { m } catch (err) { h err }]. *)
Definition catch {World A} (m : M World A) (h : Exn -> M World A) : M World A :=
  fun s =>
    match m s with
    | (inl e, s') => h e s'
    | r => r
    end.

(** A step that cannot touch the world. *)
Definition lift {World A} (r : Exn + A) : M World A := fun s => (r, s).

Definition console_put {World} (lv : LogLevel) (t : string)
    (d : option (Exn + JsVal)) : M World unit :=
  fun s => (inr tt, (fst s, snd s ++ [{| level := lv; text := t; detail := d |}])%list).

Notation "x <- m ;; k" := (bind m (fun x => k))
  (at level 61, m at next level, right associativity).
Notation "m ;;; k" := (bind m (fun _ => k))
  (at level 61, right associativity).

Section Program.

Context {World : Type}.
Variable net : Services World.
Variable cfg : Config.

Definition http_get (url : string) : M World JsVal :=
  fun s => let '(r, w) := axios_get net url (fst s) in (r, (w, snd s)).

(** [axios.post] as the notifier calls it, with no [validateStatus] of
    its own: the promise resolves with a reply whose status is 2xx and
    rejects with every other reply, as it does when the transport
    fails. *)
Definition status_rejection (status : Z) : Exn :=
  HttpError ("Request failed with status code " ++ decimal_digits status).

Definition http_post (url : string) (headers : list (string * string))
    (body : string) : M World Z :=
  fun s =>
    let '(r, w) := axios_post net url headers body (fst s) in
    (match r with
     | inl e => inl e
     | inr status =>
         if (200 <=? status) && (status <? 300) then inr status
         else inl (status_rejection status)
     end, (w, snd s)).

Definition chat_create (stocks : list Stock) : M World ChatCompletion :=
  fun s => let '(r, w) := openai_create net stocks (fst s) in (r, (w, snd s)).

(** ** fetchStocks.ts *)

Definition getMetrics (symbol : JsVal) : M World Metrics :=
  catch
    (data <- http_get ("https://financialmodelingprep.com/api/v3/key-metrics-ttm/"
                       ++ ToString symbol ++ "?apikey=" ++ FMP_API_KEY cfg) ;;
     metrics <- lift (get_index0 data) ;;
     if negb (truthy metrics) then ret no_metrics
     else
       ret {| m_pe := prop metrics "peRatioTTM";
              m_pb := prop metrics "pbRatioTTM";
              m_debtToEquity := prop metrics "debtToEquityTTM" |})
    (fun err =>
       console_put LError ("❌ Error fetching metrics for " ++ ToString symbol ++ ":")
                   (Some (inl err)) ;;;
       ret no_metrics).

Definition getRsi (_symbol : JsVal) : M World (option float) := ret None.

(** The fields of an estimate that [extractKeyInsights] converts to
    numbers, in its divisions and in [Math.max]; the two others it uses
    have passed a [typeof] test.  A field that does not convert makes it
    throw, inside the [try] of [getAnalystSentiment]. *)
Definition converted_fields : list string :=
  ["ebitdaAvg"; "revenueAvg"; "netIncomeAvg"; "sgaExpenseAvg"; "numAnalystsRevenue"].

Definition getAnalystSentiment (symbol : JsVal) : M World (option StockInsights) :=
  catch
    (data <- http_get ("https://financialmodelingprep.com/stable/analyst-estimates?symbol="
                       ++ ToString symbol
                       ++ "&period=annual&page=0&limit=10&apikey=" ++ FMP_API_KEY cfg) ;;
     match data with
     | JArr (latestEstimate :: _) =>
         epsAvg <- lift (get_prop latestEstimate "epsAvg") ;;
         numAnalystsEps <- lift (get_prop latestEstimate "numAnalystsEps") ;;
         if negb (is_number epsAvg) || negb (is_number numAnalystsEps) then
           console_put LWarn ("⚠️ Missing EPS average or analyst count for "
                              ++ ToString symbol) None ;;;
           ret None
         else if forallb (fun k => converts (prop latestEstimate k)) converted_fields
         then ret (Some (extractKeyInsights (as_RawStockData latestEstimate)))
         else throw TypeError
     | _ =>
         console_put LWarn ("⚠️ No analyst estimates data for " ++ ToString symbol) None ;;;
         ret None
     end)
    (fun err =>
       console_put LWarn ("❌ Failed to get analyst sentiment for " ++ ToString symbol ++ ":")
                   (Some (inl err)) ;;;
       ret None).

Definition getTargetPrice (symbol : JsVal) : M World JsVal :=
  catch
    (data <- http_get ("https://financialmodelingprep.com/stable/price-target-summary?symbol="
                       ++ ToString symbol ++ "&apikey=" ++ FMP_API_KEY cfg) ;;
     match data with
     | JArr (summary :: _) =>
         target <- lift (get_prop summary "allTimeAvgPriceTarget") ;;
         if truthy target && negb (converts target) then throw TypeError
         else ret (if truthy target && (0 <? ToNumber target)%float then target else JNull)
     | _ => ret JNull
     end)
    (fun err =>
       console_put LWarn ("⚠️ Target price fetch failed for " ++ ToString symbol ++ ":")
                   (Some (inl err)) ;;;
       ret JNull).

(** [data.filter((s) => !s.isEtf && !s.isFund)]. *)
Fixpoint not_etf_or_fund (l : list JsVal) : Exn + list JsVal :=
  match l with
  | [] => inr []
  | s :: l' =>
      match get_prop s "isEtf" with
      | inl e => inl e
      | inr isEtf =>
          match get_prop s "isFund" with
          | inl e => inl e
          | inr isFund =>
              match not_etf_or_fund l' with
              | inl e => inl e
              | inr r =>
                  inr (if negb (truthy isEtf) && negb (truthy isFund)
                       then s :: r else r)
              end
          end
      end
  end.

(** One turn of the enrichment loop: the record pushed, or nothing when
    the turn ends in [continue]. *)
Definition enrich (stock : JsVal) : M World (option Stock) :=
  symbol <- lift (get_prop stock "symbol") ;;
  companyName <- lift (get_prop stock "companyName") ;;
  price <- lift (get_prop stock "price") ;;
  targetPrice <- getTargetPrice symbol ;;
  if negb (truthy targetPrice)
     || (ToNumber targetPrice / ToNumber price <=? 1.5)%float
  then ret None
  else
    analystSentiment <- getAnalystSentiment symbol ;;
    match analystSentiment with
    | None => ret None
    | Some sentiment =>
        metrics <- getMetrics symbol ;;
        match m_pe metrics, m_pb metrics, m_debtToEquity metrics with
        | JNum pe, JNum pb, JNum debtToEquity =>
            rsi <- getRsi symbol ;;
            ret (Some {| symbol := symbol;
                         companyName := companyName;
                         price := price;
                         targetPrice := targetPrice;
                         pe := pe;
                         pb := pb;
                         rsi := match rsi with Some r => r | None => 50%float end;
                         debtToEquity := debtToEquity;
                         insights := sentiment |})
        | _, _, _ => ret None
        end
    end.

(** The [for ... of] loop over the filtered candidates. *)
Fixpoint enrich_all (l : list JsVal) : M World (list Stock) :=
  match l with
  | [] => ret []
  | stock :: l' =>
      r <- enrich stock ;;
      rest <- enrich_all l' ;;
      ret (match r with Some s => s :: rest | None => rest end)
  end.

Definition screenerUrl (screenerOptions : list (string * JsVal)) : string :=
  "https://financialmodelingprep.com/stable/company-screener?"
  ++ buildQueryParams screenerOptions ++ "&apikey=" ++ FMP_API_KEY cfg.

Definition fetchUndervaluedStocks (screenerOptions : list (string * JsVal))
  : M World (list Stock) :=
  catch
    (data <- http_get (screenerUrl screenerOptions) ;;
     filtered <- lift (match data with
                       | JArr l => not_etf_or_fund l
                       | _ => inl TypeError
                       end) ;;
     enrich_all filtered)
    (fun err =>
       console_put LError "❌ Failed to fetch undervalued stocks:" (Some (inl err)) ;;;
       throw err).

(** ** aiScoring.ts *)

(** [res.choices[0].message?.content]. *)
Definition response_content (res : ChatCompletion) : Exn + option string :=
  match choices res with
  | [] => inl TypeError
  | c :: _ =>
      inr (match message c with
           | Some m => content m
           | None => None
           end)
  end.

Definition scoreAndExplain (stocks : list Stock) : M World JsVal :=
  res <- chat_create stocks ;;
  content <- lift (response_content res) ;;
  match content with
  | None | Some EmptyString => throw (Error "❌ No content received from OpenAI.")
  | Some content =>
      catch
        (match regex_match content with
         | None => throw (Error "❌ Could not find a valid JSON array in the response.")
         | Some jsonMatch => lift (JSON_parse jsonMatch)
         end)
        (fun err =>
           console_put LError "❌ Failed to parse OpenAI response:" (Some (inl err)) ;;;
           console_put LError "📦 Raw content was:" (Some (inr (JStr content))) ;;;
           throw err)
  end.

(** ** notifyDiscord.ts *)

(** One entry of the message, [i] counted from 0. *)
Definition format_entry (i : nat) (s : JsVal) : Exn + string :=
  match get_prop s "symbol" with
  | inl e => inl e
  | inr sym =>
      if negb (converts sym) then inl TypeError
      else
        match get_prop s "score" with
        | inr (JNum score) =>
            match get_prop s "explanation" with
            | inl e => inl e
            | inr explanation =>
                if negb (converts explanation) then inl TypeError
                else
                  inr ("**" ++ decimal_digits (Z.of_nat (i + 1)) ++ ". " ++ ToString sym
                       ++ "** — Score: **" ++ toFixed score 2 ++ "**" ++ nl
                       ++ "*" ++ ToString explanation ++ "*")
            end
        | _ => inl TypeError
        end
  end.

Fixpoint format_entries (i : nat) (l : list JsVal) : Exn + list string :=
  match l with
  | [] => inr []
  | s :: l' =>
      match format_entry i s with
      | inl e => inl e
      | inr x =>
          match format_entries (S i) l' with
          | inl e => inl e
          | inr r => inr (x :: r)
          end
      end
  end.

Definition discord_payload (n : nat) (entries : list string) : string :=
  "📈 **Top " ++ decimal_digits (Z.of_nat n) ++ " Undervalued Stocks Today**"
  ++ nl ++ nl ++ str_join (nl ++ nl) entries.

Definition notifyDiscord (topStocks : JsVal) : M World unit :=
  match topStocks with
  | JArr (first :: more) =>
      entries <- lift (format_entries 0 (first :: more)) ;;
      catch
        (status <- http_post
                     ("https://discord.com/api/v10/channels/"
                      ++ DISCORD_CHANNEL_ID cfg ++ "/messages")
                     [("Authorization", "Bot " ++ DISCORD_BOT_TOKEN cfg);
                      ("Content-Type", "application/json")]
                     (discord_payload (List.length (first :: more)) entries) ;;
         if negb (status =? 200) && negb (status =? 201) then
           console_put LWarn "⚠️ Unexpected Discord API status:"
                       (Some (inr (JNum (dec_to_float false status 0))))
         else console_put LLog "✅ Message sent to Discord successfully." None)
        (fun error =>
           console_put LError "❌ Failed to send Discord message:" (Some (inl error)) ;;;
           throw error)
  | _ => console_put LWarn "⚠️ No stocks to notify." None
  end.

(** ** index.ts *)

Definition runBot (params : list (string * JsVal)) : M World JsVal :=
  stocks <- fetchUndervaluedStocks params ;;
  scored <- scoreAndExplain stocks ;;
  top3 <- lift (top3_of scored) ;;
  notifyDiscord (JArr top3) ;;;
  ret (JArr top3).

(** The handler of [GET /run]. *)
Definition run_handler (query : list (string * JsVal)) : M World HttpResponse :=
  catch
    (data <- runBot (run_params query) ;;
     ret (ResJson data))
    (fun err =>
       console_put LError "Error:" (Some (inl err)) ;;;
       ret (ResStatus 500 "Internal Error")).

End Program.

(* ================================================================== *)
(** * Properties *)
(* ================================================================== *)

(** ** Objects *)

Lemma obj_get_set (o : list (string * JsVal)) (k k' : string) (v : JsVal) :
  obj_get (obj_set o k v) k' = if String.eqb k k' then Some v else obj_get o k'.
Proof.
  induction o as [|[k0 v0] o IH]; simpl.
  - reflexivity.
  - destruct (String.eqb k0 k) eqn:E0; simpl.
    + apply String.eqb_eq in E0; subst k0.
      destruct (String.eqb k k'); reflexivity.
    + rewrite IH. destruct (String.eqb k0 k') eqn:E1; [|reflexivity].
      apply String.eqb_eq in E1; subst k0. rewrite String.eqb_sym, E0. reflexivity.
Qed.

Lemma obj_get_spread_absent (src t : list (string * JsVal)) (k : string) :
  ~ In k (map fst src) -> obj_get (obj_spread t src) k = obj_get t k.
Proof.
  revert t; induction src as [|[k0 v0] src IH]; simpl; intros t H.
  - reflexivity.
  - rewrite IH by tauto. rewrite obj_get_set.
    destruct (String.eqb k0 k) eqn:E; [|reflexivity].
    apply String.eqb_eq in E. tauto.
Qed.

Lemma obj_get_spread_present (src t : list (string * JsVal)) (k : string) (v : JsVal) :
  NoDup (map fst src) -> In (k, v) src -> obj_get (obj_spread t src) k = Some v.
Proof.
  revert t; induction src as [|[k0 v0] src IH]; simpl; intros t ND H.
  - contradiction.
  - inversion ND as [|? ? Hn ND']; subst.
    destruct H as [H|H].
    + inversion H; subst. rewrite obj_get_spread_absent by assumption.
      rewrite obj_get_set, String.eqb_refl. reflexivity.
    + apply IH; assumption.
Qed.

Lemma obj_set_fresh (o : list (string * JsVal)) (k : string) (v : JsVal) :
  ~ In k (map fst o) -> obj_set o k v = (o ++ [(k, v)])%list.
Proof.
  induction o as [|[k0 v0] o IH]; simpl; intros H.
  - reflexivity.
  - destruct (String.eqb k0 k) eqn:E.
    + apply String.eqb_eq in E. tauto.
    + rewrite IH by tauto. reflexivity.
Qed.

Lemma obj_spread_fresh (src t : list (string * JsVal)) :
  NoDup (map fst t ++ map fst src) -> obj_spread t src = (t ++ src)%list.
Proof.
  revert t; induction src as [|[k0 v0] src IH]; simpl; intros t ND.
  - now rewrite app_nil_r.
  - rewrite obj_set_fresh.
    + rewrite IH.
      * now rewrite <- app_assoc.
      * rewrite map_app; simpl. rewrite <- app_assoc. exact ND.
    + apply NoDup_remove_2 in ND. intro H; apply ND, in_or_app; now left.
Qed.

Lemma obj_literal_nodup (l : list (string * JsVal)) :
  NoDup (map fst l) -> obj_literal l = l.
Proof. intros H. unfold obj_literal. now rewrite obj_spread_fresh. Qed.



Lemma obj_get_In (o : list (string * JsVal)) (k : string) (v : JsVal) :
  obj_get o k = Some v -> In (k, v) o.
Proof.
  induction o as [|[k0 v0] o IH]; simpl; [discriminate|].
  destruct (String.eqb k0 k) eqn:E; intros H.
  - apply String.eqb_eq in E. inversion H; subst. now left.
  - right; auto.
Qed.

Definition run_keys : list string :=
  ["marketCapLowerThan"; "priceLowerThan"; "averageVolumeMoreThan"; "exchange";
   "isActivelyTrading"; "isEtf"; "isFund"; "limit"].

Lemma run_keys_nodup : NoDup run_keys.
Proof. repeat constructor; simpl; intuition discriminate. Qed.

Lemma run_params_keys (query : list (string * JsVal)) :
  map fst (run_params query) = run_keys.
Proof. unfold run_params. rewrite obj_literal_nodup; [reflexivity|apply run_keys_nodup]. Qed.

(** C2.  The [/run] handler always builds all eight keys: an absent
    numeric parameter is NaN, an absent exchange is the string
    "undefined", an absent flag is false, an absent limit is 400; every
    one of them replaces the default in the merge, so a bare request asks
    for isActivelyTrading=false and exchange=undefined. *)
Theorem run_params_override (query : list (string * JsVal)) :
  map fst (run_params query) = run_keys /\
  (forall k, In k ["marketCapLowerThan"; "priceLowerThan"; "averageVolumeMoreThan"] ->
     obj_get query k = None ->
     obj_get (finalParams (run_params query)) k = Some (JNum nan)) /\
  (obj_get query "exchange" = None ->
     obj_get (finalParams (run_params query)) "exchange" = Some (JStr "undefined")) /\
  (forall k, In k ["isActivelyTrading"; "isEtf"; "isFund"] ->
     obj_get query k = None ->
     obj_get (finalParams (run_params query)) k = Some (JBool false)) /\
  (obj_get query "limit" = None ->
     obj_get (finalParams (run_params query)) "limit" = Some (JNum 400)) /\
  (forall k v, obj_get (run_params query) k = Some v ->
     obj_get (finalParams (run_params query)) k = Some v) /\
  buildQueryParams (run_params []) =
    "isActivelyTrading=false&limit=400&exchange=undefined&marketCapLowerThan=NaN&priceLowerThan=NaN&averageVolumeMoreThan=NaN&isEtf=false&isFund=false".
Proof.
  assert (Hover : forall k v, obj_get (run_params query) k = Some v ->
                    obj_get (finalParams (run_params query)) k = Some v).
  { intros k v H. unfold finalParams. apply obj_get_spread_present.
    - rewrite run_params_keys. apply run_keys_nodup.
    - now apply obj_get_In. }
  assert (Hlit : run_params query = _) by (unfold run_params; apply obj_literal_nodup, run_keys_nodup).
  split; [apply run_params_keys|].
  split; [|split; [|split; [|split; [|split; [exact Hover|]]]]].
  - intros k Hk Hq. apply Hover. rewrite Hlit.
    simpl in Hk. destruct Hk as [<-|[<-|[<-|[]]]]; simpl; rewrite Hq; reflexivity.
  - intros Hq. apply Hover. rewrite Hlit. simpl. rewrite Hq. reflexivity.
  - intros k Hk Hq. apply Hover. rewrite Hlit.
    simpl in Hk. destruct Hk as [<-|[<-|[<-|[]]]]; simpl; rewrite Hq; reflexivity.
  - intros Hq. apply Hover. rewrite Hlit. simpl. rewrite Hq. reflexivity.
  - vm_compute. reflexivity.
Qed.

(** ** The scoring service *)

Ltac run_monad :=
  unfold bind, catch, lift, ret, throw, console_put, http_get, http_post,
    chat_create; simpl.

Fixpoint no_open_bracket (s : string) : bool :=
  match s with
  | EmptyString => true
  | String c s' => negb (Ascii.eqb c "[") && no_open_bracket s'
  end.

Lemma match_here_other (c : ascii) (s : string) :
  Ascii.eqb c "[" = false -> match_here (String c s) = None.
Proof.
  destruct c as [[] [] [] [] [] [] [] []]; intros H; try reflexivity; discriminate H.
Qed.

Lemma regex_match_cons (c : ascii) (s : string) :
  regex_match (String c s)
  = match match_here (String c s) with
    | Some m => Some m
    | None => regex_match s
    end.
Proof. reflexivity. Qed.

Lemma regex_match_skip_prose (prose s : string) :
  no_open_bracket prose = true -> regex_match (prose ++ s) = regex_match s.
Proof.
  induction prose as [|c prose IH]; cbn [append no_open_bracket]; intros H.
  - reflexivity.
  - apply andb_prop in H as [Hc Hp]. apply negb_true_iff in Hc.
    rewrite regex_match_cons, (match_here_other c (prose ++ s) Hc). auto.
Qed.

Lemma regex_match_nonempty (s m : string) : regex_match s = Some m -> s <> "".
Proof. intros H ->. discriminate H. Qed.

Section Scoring.

Context {World : Type}.
Variable net : Services World.

(** The two lines the [catch] of [scoreAndExplain] writes. *)
Definition parse_failure_log (err : Exn) (content : string) : list LogLine :=
  [{| level := LError; text := "❌ Failed to parse OpenAI response:";
      detail := Some (inl err) |};
   {| level := LError; text := "📦 Raw content was:";
      detail := Some (inr (JStr content)) |}].

Definition no_match_error : Exn :=
  Error "❌ Could not find a valid JSON array in the response.".

Lemma scoreAndExplain_content (stocks : list Stock) (w w' : World)
    (log : list LogLine) (res : ChatCompletion) (c : string) :
  openai_create net stocks w = (inr res, w') ->
  response_content res = inr (Some c) -> c <> "" ->
  scoreAndExplain net stocks (w, log)
  = match regex_match c with
    | None => (inl no_match_error, (w', log ++ parse_failure_log no_match_error c)%list)
    | Some m =>
        match JSON_parse m with
        | inr v => (inr v, (w', log))
        | inl e => (inl e, (w', log ++ parse_failure_log e c)%list)
        end
    end.
Proof.
  intros Hc Hr Hne. unfold scoreAndExplain. run_monad. rewrite Hc, Hr.
  destruct c as [|a c]; [congruence|].
  destruct (regex_match (String a c)) as [m|]; simpl.
  - destruct (JSON_parse m) as [e|v]; simpl; [|reflexivity].
    now rewrite <- app_assoc.
  - now rewrite <- app_assoc.
Qed.

(** C6, as the code has it.  [scoreAndExplain] throws what the model call
    throws; with a reply, it throws when the reply has no first choice, no
    content or empty content, when the scan finds no match, and when the
    match is not valid JSON; otherwise it returns the parsed match.  For
    content made of prose without an opening square bracket followed by a
    text that the scan matches whole and that is valid JSON, it returns
    the value of that text. *)
Theorem scoreAndExplain_outcome (stocks : list Stock) (w : World) (log : list LogLine) :
  match openai_create net stocks w with
  | (inl e, w') => scoreAndExplain net stocks (w, log) = (inl e, (w', log))
  | (inr res, w') =>
      match response_content res with
      | inl e => scoreAndExplain net stocks (w, log) = (inl e, (w', log))
      | inr None | inr (Some EmptyString) =>
          scoreAndExplain net stocks (w, log)
          = (inl (Error "❌ No content received from OpenAI."), (w', log))
      | inr (Some c) =>
          fst (scoreAndExplain net stocks (w, log))
          = match regex_match c with
            | None => inl no_match_error
            | Some m => JSON_parse m
            end /\
          (forall prose arr v,
             c = prose ++ arr -> no_open_bracket prose = true ->
             regex_match arr = Some arr -> JSON_parse arr = inr v ->
             scoreAndExplain net stocks (w, log) = (inr v, (w', log)))
      end
  end.
Proof.
  destruct (openai_create net stocks w) as [[e|res] w'] eqn:Hc.
  - unfold scoreAndExplain. run_monad. now rewrite Hc.
  - destruct (response_content res) as [e|[c|]] eqn:Hr;
      try (unfold scoreAndExplain; run_monad; now rewrite Hc, Hr).
    destruct c as [|a c];
      [unfold scoreAndExplain; run_monad; now rewrite Hc, Hr|].
    assert (Hne : String a c <> "") by discriminate.
    pose proof (scoreAndExplain_content stocks w w' log res _ Hc Hr Hne) as E.
    split.
    + rewrite E. destruct (regex_match (String a c)) as [m|]; [|reflexivity].
      destruct (JSON_parse m); reflexivity.
    + intros prose arr v Hp Hb Hm Hj. rewrite E, Hp.
      rewrite regex_match_skip_prose, Hm, Hj by exact Hb. reflexivity.
Qed.

End Scoring.

(** A string between double quotes. *)
Definition quoted (s : string) : string := String dquote (s ++ String dquote "").

(** An element that has the one property [notifyDiscord] calls a method
    on: an object whose [score] is a number. *)
Definition has_score (s : JsVal) : bool :=
  match s with
  | JObj o => match obj_get o "score" with Some (JNum _) => true | _ => false end
  | _ => false
  end.

(** An element the notifier can format: an object with a numeric score
    whose symbol and explanation convert to strings. *)
Definition printable (s : JsVal) : bool :=
  has_score s && converts (prop s "symbol") && converts (prop s "explanation").

Lemma printable_has_score (l : list JsVal) :
  forallb printable l = true -> forallb has_score l = true.
Proof.
  induction l as [|s l IH]; cbn [forallb]; [reflexivity|]. intros H.
  apply andb_prop in H as [Hs Hl]. unfold printable in Hs.
  apply andb_prop in Hs as [Hs _]. apply andb_prop in Hs as [Hs _].
  now rewrite Hs, IH.
Qed.

Lemma format_entry_printable (i : nat) (s : JsVal) :
  printable s = true ->
  format_entry i s
  = inr ("**" ++ decimal_digits (Z.of_nat (i + 1)) ++ ". " ++ ToString (prop s "symbol")
         ++ "** — Score: **"
         ++ toFixed (match prop s "score" with JNum x => x | _ => nan end) 2
         ++ "**" ++ nl ++ "*" ++ ToString (prop s "explanation") ++ "*").
Proof.
  unfold printable, has_score, format_entry, prop. intros H.
  apply andb_prop in H as [H H3]. apply andb_prop in H as [H1 H2].
  destruct s as [| | | | | |o]; try discriminate H1. cbn [get_prop] in *.
  rewrite H2, H3. cbn [negb].
  destruct (obj_get o "score") as [[| | |x| | |]|]; try discriminate H1. reflexivity.
Qed.

Lemma format_entry_inr (i : nat) (s : JsVal) (x : string) :
  format_entry i s = inr x -> printable s = true.
Proof.
  unfold printable, has_score, format_entry, prop.
  destruct s as [| | | | | |o]; cbn [get_prop converts negb]; try discriminate.
  destruct (converts (match obj_get o "symbol" with Some v => v | None => JUndefined end));
    cbn [negb]; [|discriminate].
  destruct (obj_get o "score") as [[| | |y| | |]|]; try discriminate.
  destruct (converts (match obj_get o "explanation" with Some v => v | None => JUndefined end));
    cbn [negb]; [reflexivity|discriminate].
Qed.

Lemma format_entry_error (i : nat) (s : JsVal) (e : Exn) :
  format_entry i s = inl e -> e = TypeError.
Proof.
  unfold format_entry.
  destruct s as [| | | | | |o]; cbn [get_prop converts negb]; try congruence.
  destruct (converts (match obj_get o "symbol" with Some v => v | None => JUndefined end));
    cbn [negb]; [|congruence].
  destruct (obj_get o "score") as [[| | |y| | |]|]; try congruence.
  destruct (converts (match obj_get o "explanation" with Some v => v | None => JUndefined end));
    cbn [negb]; congruence.
Qed.


Lemma format_entries_inr (l : list JsVal) (i : nat) (entries : list string) :
  format_entries i l = inr entries -> forallb printable l = true.
Proof.
  revert i entries; induction l as [|s l IH]; intros i entries; [reflexivity|].
  cbn [format_entries forallb].
  destruct (format_entry i s) as [e|x] eqn:E; [discriminate|].
  destruct (format_entries (S i) l) as [e|r] eqn:Er; [discriminate|].
  intros _. now rewrite (format_entry_inr _ _ _ E), (IH _ _ Er).
Qed.

Lemma format_entries_error (l : list JsVal) (i : nat) (e : Exn) :
  format_entries i l = inl e -> e = TypeError.
Proof.
  revert i; induction l as [|s l IH]; intros i; [discriminate|].
  cbn [format_entries].
  destruct (format_entry i s) as [e1|x] eqn:E.
  - intros H. inversion H; subst. exact (format_entry_error _ _ _ E).
  - destruct (format_entries (S i) l) as [e1|r] eqn:Er; [|discriminate].
    intros H. inversion H; subst. exact (IH _ Er).
Qed.

Section Notifier.

Context {World : Type}.
Variable net : Services World.
Variable cfg : Config.

Definition discord_url : string :=
  "https://discord.com/api/v10/channels/" ++ DISCORD_CHANNEL_ID cfg ++ "/messages".

Definition discord_headers : list (string * string) :=
  [("Authorization", "Bot " ++ DISCORD_BOT_TOKEN cfg);
   ("Content-Type", "application/json")].

(** The line the [catch] of the notifier writes. *)
Definition post_failure (e : Exn) : LogLine :=
  {| level := LError; text := "❌ Failed to send Discord message:";
     detail := Some (inl e) |}.

(** The run of the notifier on a list it can format: one post, and then
    what the client makes of the reply. *)
Lemma notifyDiscord_run (first : JsVal) (more : list JsVal) (entries : list string)
    (w : World) (log : list LogLine) :
  format_entries 0 (first :: more) = inr entries ->
  notifyDiscord net cfg (JArr (first :: more)) (w, log)
  = match axios_post net discord_url discord_headers
            (discord_payload (List.length (first :: more)) entries) w with
    | (inr status, w') =>
        if (200 <=? status) && (status <? 300) then
          (inr tt,
           (w', log ++ [if negb (status =? 200) && negb (status =? 201)
                        then {| level := LWarn;
                                text := "⚠️ Unexpected Discord API status:";
                                detail := Some (inr (JNum (dec_to_float false status 0))) |}
                        else {| level := LLog;
                                text := "✅ Message sent to Discord successfully.";
                                detail := None |}])%list)
        else (inl (status_rejection status),
              (w', log ++ [post_failure (status_rejection status)])%list)
    | (inl e, w') => (inl e, (w', log ++ [post_failure e])%list)
    end.
Proof.
  intros He.
  unfold notifyDiscord, bind, catch, lift, ret, throw, console_put, http_post.
  rewrite He. cbn [fst snd]. fold discord_url. fold discord_headers.
  destruct (axios_post net discord_url discord_headers
              (discord_payload (List.length (first :: more)) entries) w)
    as [[e|status] w']; [reflexivity|].
  destruct ((200 <=? status) && (status <? 300)); [|reflexivity].
  destruct (negb (status =? 200) && negb (status =? 201)); reflexivity.
Qed.


(** The notifier does nothing but warn on an empty list (and on anything
    that is not an array). *)
Lemma notifyDiscord_empty (st : World * list LogLine) :
  notifyDiscord net cfg (JArr []) st
  = (inr tt, (fst st, snd st ++ [{| level := LWarn; text := "⚠️ No stocks to notify.";
                                    detail := None |}])%list).
Proof. reflexivity. Qed.

End Notifier.

(** C10.  Whatever value the matched text parses to is returned as it is:
    nothing looks at its elements.  The text [[{"foo":1}]] is matched and
    parsed, its one element has no score, symbol or explanation, and the
    notifier, handed that list, throws a TypeError before any call. *)
Theorem scoreAndExplain_unchecked :
  (forall (World : Type) (net : Services World) stocks w w' log res c m v,
     openai_create net stocks w = (inr res, w') ->
     response_content res = inr (Some c) -> c <> "" ->
     regex_match c = Some m -> JSON_parse m = inr v ->
     scoreAndExplain net stocks (w, log) = (inr v, (w', log))) /\
  (let c := "[{" ++ quoted "foo" ++ ":1}]" in
   let elem := JObj [("foo", JNum 1)] in
   c <> "" /\ regex_match c = Some c /\ JSON_parse c = inr (JArr [elem]) /\
   get_prop elem "score" = inr JUndefined /\
   get_prop elem "symbol" = inr JUndefined /\
   get_prop elem "explanation" = inr JUndefined /\
   top3_of (JArr [elem]) = inr [elem] /\
   forall (World : Type) (net : Services World) cfg (st : World * list LogLine),
     notifyDiscord net cfg (JArr [elem]) st = (inl TypeError, st)).
Proof.
  split.
  - intros World net stocks w w' log res c m v Hc Hr Hne Hm Hp.
    rewrite (scoreAndExplain_content net stocks w w' log res c Hc Hr Hne), Hm, Hp.
    reflexivity.
  - cbv zeta. repeat split; try (vm_compute; reflexivity); try discriminate.
Qed.

(** ** The order of binary64 numbers *)

Lemma SFcompare_antisym (x y : spec_float) :
  SFcompare y x = option_map CompOpp (SFcompare x y).
Proof.
  destruct x as [sx|sx| |sx mx ex], y as [sy|sy| |sy my ey]; simpl;
    try reflexivity;
    try (destruct sx; reflexivity);
    try (destruct sy; reflexivity);
    try (destruct sx, sy; reflexivity).
  destruct sx, sy; simpl; try reflexivity;
    rewrite (Z.compare_antisym ex ey); destruct (ex ?= ey); simpl; try reflexivity;
    rewrite (Pos.compare_cont_antisym mx my Eq); reflexivity.
Qed.

Lemma SFcompare_none (x y : spec_float) :
  SFcompare x y = None -> x = S754_nan \/ y = S754_nan.
Proof.
  destruct x as [sx|sx| |sx mx ex], y as [sy|sy| |sy my ey]; simpl;
    try discriminate; auto.
Qed.

Lemma is_nan_Prim2SF (x : float) : is_nan x = false -> Prim2SF x <> S754_nan.
Proof.
  unfold is_nan. rewrite eqb_spec. intros H E. rewrite E in H. discriminate H.
Qed.

Lemma Prim2SF_not_nan (x : float) : Prim2SF x <> S754_nan -> is_nan x = false.
Proof.
  unfold is_nan. rewrite eqb_spec. intros H.
  destruct (Prim2SF x) as [s|s| |s m e]; try congruence.
  - reflexivity.
  - destruct s; reflexivity.
  - unfold SFeqb; simpl. destruct s; simpl;
      rewrite Z.compare_refl, Pos.compare_cont_refl; reflexivity.
Qed.

(** Between numbers that are not NaN, "not less or equal" is "greater". *)
Lemma not_leb_ltb (x y : float) :
  is_nan x = false -> is_nan y = false ->
  negb (x <=? y)%float = (y <? x)%float.
Proof.
  intros Hx Hy. apply is_nan_Prim2SF in Hx, Hy.
  rewrite leb_spec, ltb_spec. unfold SFleb, SFltb.
  rewrite (SFcompare_antisym (Prim2SF x) (Prim2SF y)).
  destruct (SFcompare (Prim2SF x) (Prim2SF y)) as [[]|] eqn:E; simpl; try reflexivity.
  apply SFcompare_none in E. tauto.
Qed.

Lemma not_ltb_leb (x y : float) :
  is_nan x = false -> is_nan y = false ->
  (x <? y)%float = false -> (y <=? x)%float = true.
Proof.
  intros Hx Hy H. rewrite <- (not_leb_ltb y x Hy Hx) in H.
  now apply negb_false_iff in H.
Qed.

Lemma ltb_leb (x y : float) : (x <? y)%float = true -> (x <=? y)%float = true.
Proof.
  rewrite leb_spec, ltb_spec. unfold SFleb, SFltb.
  destruct (SFcompare (Prim2SF x) (Prim2SF y)) as [[]|]; try discriminate; reflexivity.
Qed.

Lemma leb_not_nan (x y : float) :
  (x <=? y)%float = true -> is_nan x = false /\ is_nan y = false.
Proof.
  rewrite leb_spec. unfold SFleb. intros H.
  split; apply Prim2SF_not_nan; intros E; rewrite E in H; simpl in H;
    try discriminate H.
  destruct (Prim2SF x); discriminate H.
Qed.

(** ** The enrichment pipeline *)

Definition nullish (v : JsVal) : bool :=
  match v with JUndefined | JNull => true | _ => false end.

Lemma get_prop_prop (v : JsVal) (k : string) :
  nullish v = false -> get_prop v k = inr (prop v k).
Proof. destruct v; simpl; intros H; try discriminate H; reflexivity. Qed.

Lemma get_prop_nullish (v : JsVal) (k : string) (x : JsVal) :
  get_prop v k = inr x -> nullish v = false.
Proof. destruct v; simpl; intros H; try discriminate H; reflexivity. Qed.

(** The test of the filter on the screener's reply. *)
Definition keep_candidate (s : JsVal) : bool :=
  negb (truthy (prop s "isEtf")) && negb (truthy (prop s "isFund")).

Lemma not_etf_or_fund_spec (l r : list JsVal) :
  not_etf_or_fund l = inr r ->
  r = filter keep_candidate l /\ forallb (fun s => negb (nullish s)) l = true.
Proof.
  revert r; induction l as [|s l IH]; simpl; intros r H.
  - inversion H. split; reflexivity.
  - destruct (get_prop s "isEtf") as [e|isEtf] eqn:E1; [discriminate|].
    destruct (get_prop s "isFund") as [e|isFund] eqn:E2; [discriminate|].
    destruct (not_etf_or_fund l) as [e|r']; [discriminate|].
    destruct (IH r' eq_refl) as [-> Hn].
    pose proof (get_prop_nullish _ _ _ E1) as Hs.
    rewrite (get_prop_prop _ "isEtf" Hs) in E1.
    rewrite (get_prop_prop _ "isFund" Hs) in E2.
    inversion E1; inversion E2; subst.
    inversion H; subst. rewrite Hs. split; [|exact Hn].
    unfold keep_candidate. reflexivity.
Qed.

(** The target-price test of the loop: the turn goes on when the target
    price is truthy and [targetPrice / price <= 1.5] is false. *)
Definition within_target (targetPrice price : JsVal) : bool :=
  truthy targetPrice && negb (ToNumber targetPrice / ToNumber price <=? 1.5)%float.

(** The test as the specification words it: the target price exists and
    [targetPrice / price > 1.5]. *)
Definition above_target (targetPrice price : JsVal) : bool :=
  negb (nullish targetPrice) && (1.5 <? ToNumber targetPrice / ToNumber price)%float.

Definition numeric_metrics (m : Metrics) : bool :=
  is_number (m_pe m) && is_number (m_pb m) && is_number (m_debtToEquity m).

(** What identifies a candidate in the output. *)
Definition candidate_key (c : JsVal) : JsVal * JsVal * JsVal :=
  (prop c "symbol", prop c "companyName", prop c "price").

Definition stock_key (s : Stock) : JsVal * JsVal * JsVal :=
  (symbol s, companyName s, price s).

Section Pipeline.

Context {World : Type}.
Variable net : Services World.
Variable cfg : Config.

Local Abbreviation St := (World * list LogLine)%type.

Lemma getTargetPrice_returns (sym : JsVal) (st : St) :
  exists v st', getTargetPrice net cfg sym st = (inr v, st') /\
                (truthy v = true \/ v = JNull).
Proof.
  unfold getTargetPrice, catch, bind, http_get, lift, ret, throw, console_put.
  destruct (axios_get net _ (fst st)) as [[e|data] w]; cbn [fst snd].
  - do 2 eexists. split; [reflexivity|now right].
  - destruct data as [| | | | |[|summary items]|]; try (do 2 eexists; split; [reflexivity|now right]).
    destruct (get_prop summary "allTimeAvgPriceTarget") as [e|target]; cbn [fst snd].
    + do 2 eexists. split; [reflexivity|now right].
    + destruct (truthy target) eqn:Ht; destruct (converts target);
        cbn [andb negb fst snd];
        try (do 2 eexists; split; [reflexivity|now right]).
      do 2 eexists. split; [reflexivity|].
      destruct (0 <? ToNumber target)%float; [now left|now right].
Qed.

Lemma getAnalystSentiment_returns (sym : JsVal) (st : St) :
  exists r st', getAnalystSentiment net cfg sym st = (inr r, st').
Proof.
  unfold getAnalystSentiment, catch, bind, http_get, lift, ret, throw, console_put.
  destruct (axios_get net _ (fst st)) as [[e|data] w]; cbn [fst snd].
  - do 2 eexists. reflexivity.
  - destruct data as [| | | | |[|latest items]|]; try (do 2 eexists; reflexivity).
    destruct (get_prop latest "epsAvg") as [e|epsAvg]; cbn [fst snd];
      [do 2 eexists; reflexivity|].
    destruct (get_prop latest "numAnalystsEps") as [e|n]; cbn [fst snd];
      [do 2 eexists; reflexivity|].
    destruct (negb (is_number epsAvg) || negb (is_number n));
      [do 2 eexists; reflexivity|].
    destruct (forallb (fun k => converts (prop latest k)) converted_fields);
      do 2 eexists; reflexivity.
Qed.

Lemma getMetrics_returns (sym : JsVal) (st : St) :
  exists m st', getMetrics net cfg sym st = (inr m, st').
Proof.
  unfold getMetrics, catch, bind, http_get, lift, ret, console_put.
  destruct (axios_get net _ (fst st)) as [[e|data] w]; cbn [fst snd].
  - do 2 eexists. reflexivity.
  - destruct (get_index0 data) as [e|metrics]; cbn [fst snd];
      [do 2 eexists; reflexivity|].
    destruct (negb (truthy metrics)); do 2 eexists; reflexivity.
Qed.

(** Whether the turn of the loop that starts in state [st] pushes a
    record for [stock]: the three look-ups are made in order, each in the
    state the one before left. *)
Definition passes (stock : JsVal) (st : St) : bool :=
  match getTargetPrice net cfg (prop stock "symbol") st with
  | (inr targetPrice, s1) =>
      within_target targetPrice (prop stock "price") &&
      match getAnalystSentiment net cfg (prop stock "symbol") s1 with
      | (inr (Some _), s2) =>
          match getMetrics net cfg (prop stock "symbol") s2 with
          | (inr m, _) => numeric_metrics m
          | _ => false
          end
      | _ => false
      end
  | _ => false
  end.

(** The same with the target-price test as the specification words it. *)
Definition passes_as_specified (stock : JsVal) (st : St) : bool :=
  match getTargetPrice net cfg (prop stock "symbol") st with
  | (inr targetPrice, s1) =>
      above_target targetPrice (prop stock "price") &&
      match getAnalystSentiment net cfg (prop stock "symbol") s1 with
      | (inr (Some _), s2) =>
          match getMetrics net cfg (prop stock "symbol") s2 with
          | (inr m, _) => numeric_metrics m
          | _ => false
          end
      | _ => false
      end
  | _ => false
  end.

Lemma enrich_spec (stock : JsVal) (st : St) :
  nullish stock = false ->
  exists r st',
    enrich net cfg stock st = (inr r, st') /\
    (if passes stock st
     then exists s, r = Some s /\ stock_key s = candidate_key stock /\
                    rsi s = 50%float /\
                    within_target (targetPrice s) (price s) = true
     else r = None).
Proof.
  intros Hn. unfold enrich, passes.
  unfold bind at 1. unfold lift at 1. rewrite (get_prop_prop _ "symbol" Hn).
  unfold bind at 1. unfold lift at 1. rewrite (get_prop_prop _ "companyName" Hn).
  unfold bind at 1. unfold lift at 1. rewrite (get_prop_prop _ "price" Hn).
  unfold bind at 1.
  destruct (getTargetPrice_returns (prop stock "symbol") st) as (tp & s1 & -> & _).
  unfold within_target.
  destruct (negb (truthy tp) || (ToNumber tp / ToNumber (prop stock "price") <=? 1.5)%float)
    eqn:Hskip.
  - do 2 eexists. split; [reflexivity|].
    replace (truthy tp && negb (ToNumber tp / ToNumber (prop stock "price") <=? 1.5)%float)
      with false; [reflexivity|].
    destruct (truthy tp); simpl in *; [now rewrite Hskip|reflexivity].
  - apply orb_false_iff in Hskip as [H1 H2]. apply negb_false_iff in H1.
    rewrite H1, H2. cbn [negb andb].
    unfold bind at 1.
    destruct (getAnalystSentiment_returns (prop stock "symbol") s1) as (r & s2 & ->).
    destruct r as [sentiment|]; [|do 2 eexists; split; reflexivity].
    unfold bind at 1.
    destruct (getMetrics_returns (prop stock "symbol") s2) as (m & s3 & ->).
    unfold numeric_metrics.
    destruct (m_pe m) as [| | |pe0| | |]; try (do 2 eexists; split; reflexivity).
    destruct (m_pb m) as [| | |pb0| | |]; try (do 2 eexists; split; reflexivity).
    destruct (m_debtToEquity m) as [| | |de0| | |]; try (do 2 eexists; split; reflexivity).
    do 2 eexists. split; [reflexivity|]. cbn [is_number andb].
    eexists. split; [reflexivity|]. cbn [stock_key candidate_key symbol companyName price rsi targetPrice].
    repeat split. unfold within_target. now rewrite H1, H2.
Qed.

(** The candidates of a run, each with the state in which its turn of the
    loop starts. *)
Fixpoint turns (l : list JsVal) (st : St) : list (JsVal * St) :=
  match l with
  | [] => []
  | c :: l' => (c, st) :: turns l' (snd (enrich net cfg c st))
  end.

Lemma turns_candidates (l : list JsVal) (st : St) : map fst (turns l st) = l.
Proof. revert st; induction l as [|c l IH]; intros st; simpl; [|rewrite IH]; reflexivity. Qed.

Lemma enrich_all_spec (l : list JsVal) (st : St) :
  forallb (fun s => negb (nullish s)) l = true ->
  exists out st',
    enrich_all net cfg l st = (inr out, st') /\
    map stock_key out
    = map (fun t => candidate_key (fst t))
          (filter (fun t => passes (fst t) (snd t)) (turns l st)) /\
    Forall (fun s => rsi s = 50%float /\
                     within_target (targetPrice s) (price s) = true) out.
Proof.
  revert st; induction l as [|c l IH]; intros st H.
  - do 2 eexists. repeat split; constructor.
  - cbn [forallb] in H. apply andb_prop in H as [Hc Hl]. apply negb_true_iff in Hc.
    destruct (enrich_spec c st Hc) as (r & s1 & He & Hr).
    destruct (IH s1 Hl) as (out & s2 & Ha & Hk & Hf).
    cbn [enrich_all turns filter fst snd]. unfold bind at 1. rewrite He.
    unfold bind at 1. cbn [snd]. rewrite Ha. unfold ret.
    destruct (passes c st).
    + destruct Hr as (s & -> & Hkey & Hrsi & Hw).
      do 2 eexists. split; [reflexivity|]. split.
      * cbn [map fst]. now rewrite Hkey, Hk.
      * constructor; [split; assumption|exact Hf].
    + subst r. do 2 eexists. split; [reflexivity|]. split; assumption.
Qed.

Lemma fetchUndervaluedStocks_run (screenerOptions : list (string * JsVal)) (st : St)
    (out : list Stock) (st' : St) :
  fetchUndervaluedStocks net cfg screenerOptions st = (inr out, st') ->
  exists data s0,
    http_get net (screenerUrl cfg screenerOptions) st = (inr (JArr data), s0) /\
    forallb (fun s => negb (nullish s)) (filter keep_candidate data) = true /\
    enrich_all net cfg (filter keep_candidate data) s0 = (inr out, st').
Proof.
  unfold fetchUndervaluedStocks, catch. unfold bind at 1.
  destruct (http_get net (screenerUrl cfg screenerOptions) st) as [[e|data] s0];
    [unfold bind, console_put, throw; discriminate|].
  unfold bind at 1. unfold lift.
  destruct data as [| | | | |l|];
    try (unfold bind, console_put, throw; discriminate).
  destruct (not_etf_or_fund l) as [e|filtered] eqn:Hf;
    [unfold bind, console_put, throw; discriminate|].
  destruct (not_etf_or_fund_spec _ _ Hf) as [-> Hn].
  assert (Hn' : forallb (fun s => negb (nullish s)) (filter keep_candidate l) = true).
  { rewrite forallb_forall in *. intros x Hx. apply Hn. apply filter_In in Hx. tauto. }
  destruct (enrich_all_spec _ s0 Hn') as (out' & s2 & Ha & _).
  rewrite Ha. intros H. inversion H; subst.
  exists l, s0. auto.
Qed.

(** C9.  [getRsi] returns null whatever the symbol and the state of the
    world, and every record [fetchUndervaluedStocks] returns has
    [rsi = 50]. *)
Theorem fetchUndervaluedStocks_rsi (screenerOptions : list (string * JsVal))
    (st : St) (out : list Stock) (st' : St) :
  fetchUndervaluedStocks net cfg screenerOptions st = (inr out, st') ->
  (forall sym s, getRsi (World := World) sym s = (inr None, s)) /\
  Forall (fun s => rsi s = 50%float) out.
Proof.
  intros H. split; [reflexivity|].
  destruct (fetchUndervaluedStocks_run _ _ _ _ H) as (data & s0 & _ & Hn & Ha).
  destruct (enrich_all_spec _ s0 Hn) as (out' & s2 & Ha' & _ & Hf).
  rewrite Ha in Ha'. inversion Ha'; subst.
  eapply Forall_impl; [|exact Hf]. intros s [Hr _]. exact Hr.
Qed.

End Pipeline.

(** ** Digits written and read back *)

Fixpoint all_digits (s : string) : bool :=
  match s with
  | EmptyString => true
  | String c s' =>
      match digit_val c with Some _ => all_digits s' | None => false end
  end.

(** The value of a run of digits that continues the value [acc]. *)
Fixpoint dval (s : string) (acc : Z) : Z :=
  match s with
  | EmptyString => acc
  | String c s' =>
      match digit_val c with
      | Some d => dval s' (10 * acc + d)
      | None => acc
      end
  end.

Definition starts_with_digit (s : string) : bool :=
  match s with
  | String c _ => match digit_val c with Some _ => true | None => false end
  | EmptyString => false
  end.

Lemma digit_val_char (d : Z) : 0 <= d < 10 -> digit_val (digit_char d) = Some d.
Proof.
  intros H.
  assert (d = 0 \/ d = 1 \/ d = 2 \/ d = 3 \/ d = 4 \/ d = 5 \/ d = 6 \/ d = 7
          \/ d = 8 \/ d = 9) as C by lia.
  repeat (destruct C as [->|C]; [reflexivity|]). now subst.
Qed.

Lemma str_length_app (a b : string) :
  String.length (a ++ b) = (String.length a + String.length b)%nat.
Proof. induction a; simpl; [|rewrite IHa]; reflexivity. Qed.

Lemma str_app_assoc (a b c : string) : (a ++ b) ++ c = a ++ b ++ c.
Proof. induction a; simpl; [|rewrite IHa]; reflexivity. Qed.

Lemma str_app_nil_r (a : string) : a ++ "" = a.
Proof. induction a; simpl; [|rewrite IHa]; reflexivity. Qed.

Lemma all_digits_app (a b : string) :
  all_digits (a ++ b) = all_digits a && all_digits b.
Proof.
  induction a as [|c a IH]; simpl; [reflexivity|].
  destruct (digit_val c); [exact IH|reflexivity].
Qed.

Lemma dval_app (a b : string) (acc : Z) :
  all_digits a = true -> dval (a ++ b) acc = dval b (dval a acc).
Proof.
  revert acc; induction a as [|c a IH]; simpl; intros acc H; [reflexivity|].
  destruct (digit_val c); [now apply IH|discriminate].
Qed.

Lemma dval_shift (a : string) (acc : Z) :
  all_digits a = true ->
  dval a acc = acc * 10 ^ Z.of_nat (String.length a) + dval a 0.
Proof.
  revert acc; induction a as [|c a IH]; intros acc H.
  - simpl. lia.
  - simpl in H. cbn [dval String.length]. destruct (digit_val c) as [d|]; [|discriminate].
    rewrite (IH (10 * acc + d) H), (IH (10 * 0 + d) H).
    rewrite Nat2Z.inj_succ, Z.pow_succ_r by lia. ring.
Qed.

Lemma scan_digits_run (a rest : string) (acc cnt : Z) :
  all_digits a = true -> starts_with_digit rest = false ->
  scan_digits (a ++ rest) acc cnt
  = (dval a acc, cnt + Z.of_nat (String.length a), rest).
Proof.
  revert acc cnt; induction a as [|c a IH]; intros acc cnt H Hr.
  - simpl. rewrite Z.add_0_r. destruct rest as [|c r]; [reflexivity|].
    simpl in *. destruct (digit_val c); [discriminate|reflexivity].
  - simpl in H. cbn [append scan_digits dval String.length].
    destruct (digit_val c) as [d|]; [|discriminate].
    rewrite (IH _ _ H Hr). f_equal. f_equal. lia.
Qed.

Lemma digits_aux_spec (fuel : nat) (n : Z) (acc : string) :
  0 <= n < 2 ^ Z.of_nat fuel ->
  exists D, digits_aux fuel n acc = D ++ acc /\ all_digits D = true /\
            dval D 0 = n /\ (fuel <> O -> D <> "").
Proof.
  revert n acc; induction fuel as [|k IH]; intros n acc H.
  - exists "". simpl in *. repeat split; try lia; try congruence.
  - cbn [digits_aux].
    assert (Hd : 0 <= n mod 10 < 10) by (apply Z.mod_pos_bound; lia).
    destruct (n / 10 =? 0) eqn:E.
    + apply Z.eqb_eq in E.
      exists (String (digit_char (n mod 10)) ""). simpl.
      rewrite (digit_val_char _ Hd). repeat split; try discriminate.
      pose proof (Z.div_mod n 10 ltac:(lia)). lia.
    + apply Z.eqb_neq in E.
      assert (Hq : 0 <= n / 10 < 2 ^ Z.of_nat k).
      { split; [apply Z.div_pos; lia|].
        rewrite Nat2Z.inj_succ, Z.pow_succ_r in H by lia.
        apply Z.div_lt_upper_bound; lia. }
      destruct (IH (n / 10) (String (digit_char (n mod 10)) acc) Hq)
        as (D & HD & Hall & Hv & _).
      exists (D ++ String (digit_char (n mod 10)) ""). rewrite HD.
      rewrite str_app_assoc. split; [reflexivity|].
      rewrite all_digits_app, Hall. simpl. rewrite (digit_val_char _ Hd).
      repeat split.
      * rewrite dval_app by exact Hall. cbn [dval]. rewrite (digit_val_char _ Hd), Hv.
        pose proof (Z.div_mod n 10 ltac:(lia)). lia.
      * destruct D; discriminate.
Qed.

Lemma decimal_digits_spec (n : Z) :
  0 <= n ->
  all_digits (decimal_digits n) = true /\ dval (decimal_digits n) 0 = n /\
  decimal_digits n <> "".
Proof.
  intros H. unfold decimal_digits.
  assert (Hb : 0 <= n < 2 ^ Z.of_nat (S (Z.to_nat (Z.log2 n)))).
  { split; [exact H|]. rewrite Nat2Z.inj_succ, Z2Nat.id by apply Z.log2_nonneg.
    destruct (Z.eq_dec n 0) as [->|Hn]; [reflexivity|].
    apply Z.log2_spec. lia. }
  destruct (digits_aux_spec _ n "" Hb) as (D & HD & Hall & Hv & Hne).
  rewrite HD, str_app_nil_r. repeat split; auto.
Qed.

Lemma all_digits_zeros (k : nat) : all_digits (zeros k) = true.
Proof. induction k; simpl; auto. Qed.

Lemma dval_zeros (k : nat) : dval (zeros k) 0 = 0.
Proof. induction k; simpl; auto. Qed.

Lemma str_length_zeros (k : nat) : String.length (zeros k) = k.
Proof. induction k; simpl; auto. Qed.

Lemma str_firstn_skipn (k : nat) (s : string) : str_firstn k s ++ str_skipn k s = s.
Proof.
  revert s; induction k as [|k IH]; intros s; [reflexivity|].
  destruct s as [|c s]; [reflexivity|]. simpl. now rewrite IH.
Qed.

Lemma str_length_skipn (k : nat) (s : string) :
  String.length (str_skipn k s) = (String.length s - k)%nat.
Proof.
  revert s; induction k as [|k IH]; intros s; simpl; [lia|].
  destruct s as [|c s]; simpl; [reflexivity|apply IH].
Qed.

Lemma str_length_firstn (k : nat) (s : string) :
  (k <= String.length s)%nat -> String.length (str_firstn k s) = k.
Proof.
  revert s; induction k as [|k IH]; intros s H; [reflexivity|].
  destruct s as [|c s]; simpl in *; [lia|]. rewrite IH; lia.
Qed.

(** The padded digits that [fixed_digits] splits. *)
Definition padded_digits (n : Z) (f : nat) : string :=
  let m := decimal_digits n in
  if Nat.leb (String.length m) f then zeros (S f - String.length m) ++ m else m.

Lemma padded_digits_spec (n : Z) (f : nat) :
  0 <= n ->
  all_digits (padded_digits n f) = true /\ dval (padded_digits n f) 0 = n /\
  (f < String.length (padded_digits n f))%nat.
Proof.
  intros H. destruct (decimal_digits_spec n H) as (Hall & Hv & Hne).
  unfold padded_digits.
  destruct (Nat.leb (String.length (decimal_digits n)) f) eqn:E.
  - apply Nat.leb_le in E. rewrite all_digits_app, all_digits_zeros, Hall.
    rewrite dval_app, dval_zeros, Hv by apply all_digits_zeros.
    rewrite str_length_app, str_length_zeros. repeat split. lia.
  - apply Nat.leb_gt in E. auto.
Qed.

Lemma fixed_digits_split (n : Z) (f : nat) :
  fixed_digits n f
  = match f with
    | O => padded_digits n f
    | _ => str_firstn (String.length (padded_digits n f) - f) (padded_digits n f)
           ++ "." ++ str_skipn (String.length (padded_digits n f) - f) (padded_digits n f)
    end.
Proof. reflexivity. Qed.

(** ** Reading back what [toFixed] writes *)

Lemma digit_facts (c : ascii) (d : Z) :
  digit_val c = Some d ->
  is_ws1 c = false /\ (forall c2, is_ws2 c c2 = false) /\
  (forall c2 c3, is_ws3 c c2 c3 = false) /\
  Ascii.eqb c "+" = false /\ Ascii.eqb c "-" = false /\
  Ascii.eqb "I" c = false /\ radix_of c = 0.
Proof.
  destruct c as [[] [] [] [] [] [] [] []]; intros H; try discriminate H;
    repeat split; reflexivity.
Qed.

Lemma span_ws_stop (c : ascii) (rest : string) :
  is_ws1 c = false -> (forall c2, is_ws2 c c2 = false) ->
  (forall c2 c3, is_ws3 c c2 c3 = false) ->
  span_ws (String c rest) = ("", String c rest).
Proof.
  intros H1 H2 H3. cbn [span_ws]. rewrite H1.
  destruct rest as [|c2 rest]; [reflexivity|]. rewrite H2.
  destruct rest as [|c3 rest]; [reflexivity|]. now rewrite H3.
Qed.

Lemma parse_unsigned_digits (neg : bool) (a b : string) :
  all_digits a = true -> all_digits b = true -> a <> "" ->
  parse_unsigned_decimal neg (a ++ "." ++ b)
  = Some (dec_to_float neg (dval (a ++ b) 0) (- Z.of_nat (String.length b)), "").
Proof.
  intros Ha Hb Hne. unfold parse_unsigned_decimal.
  destruct a as [|c a]; [congruence|].
  cbn [append str_prefix]. simpl in Ha.
  destruct (digit_val c) as [d|] eqn:Hc; [|discriminate].
  destruct (digit_facts c d Hc) as (_ & _ & _ & _ & _ & HI & _). rewrite HI.
  change (String c (a ++ String "." b)) with (String c a ++ String "." b).
  assert (Hall : all_digits (String c a) = true) by (simpl; now rewrite Hc).
  rewrite (scan_digits_run (String c a) (String "." b) 0 0 Hall eq_refl).
  cbv iota beta.
  rewrite <- (str_app_nil_r b) at 1.
  rewrite (scan_digits_run b "" _ 0 Hb eq_refl).
  cbv iota beta. cbn [parse_exponent].
  replace (0 + Z.of_nat (String.length (String c a)) + (0 + Z.of_nat (String.length b)) =? 0)
    with false by (symmetry; apply Z.eqb_neq; cbn [String.length]; lia).
  rewrite <- dval_app by exact Hall.
  replace (0 - (0 + Z.of_nat (String.length b))) with (- Z.of_nat (String.length b)) by lia.
  reflexivity.
Qed.

Lemma parse_unsigned_integer (neg : bool) (a : string) :
  all_digits a = true -> a <> "" ->
  parse_unsigned_decimal neg a = Some (dec_to_float neg (dval a 0) 0, "").
Proof.
  intros Ha Hne. unfold parse_unsigned_decimal.
  destruct a as [|c a]; [congruence|].
  cbn [str_prefix]. pose proof Ha as Ha'. simpl in Ha'.
  destruct (digit_val c) as [d|] eqn:Hc; [|discriminate].
  destruct (digit_facts c d Hc) as (_ & _ & _ & _ & _ & HI & _). rewrite HI.
  rewrite <- (str_app_nil_r (String c a)) at 1.
  rewrite (scan_digits_run (String c a) "" 0 0 Ha eq_refl).
  cbv iota beta. cbn [parse_exponent].
  replace (0 + Z.of_nat (String.length (String c a)) + 0 =? 0)
    with false by (symmetry; apply Z.eqb_neq; cbn [String.length]; lia).
  reflexivity.
Qed.

(** A literal of digits with at most one point inside. *)
Definition plain_literal (u : string) : Prop :=
  exists c d rest, u = String c rest /\ digit_val c = Some d /\
    match rest with
    | String c2 _ => radix_of c2 = 0
    | EmptyString => True
    end.

Lemma StringToNumber_plain (neg : bool) (u : string) (v : float) :
  plain_literal u ->
  parse_unsigned_decimal neg u = Some (v, "") ->
  StringToNumber ((if neg then "-" else "") ++ u) = v.
Proof.
  intros (c & d & rest & -> & Hc & Hr) Hp.
  destruct (digit_facts c d Hc) as (W1 & W2 & W3 & Hplus & Hminus & _ & _).
  unfold StringToNumber, skip_ws. destruct neg.
  - cbn [append]. rewrite span_ws_stop by reflexivity. cbn [snd].
    cbn [parse_non_decimal Ascii.eqb Bool.eqb andb split_sign]. cbv iota beta.
    rewrite Hp. reflexivity.
  - cbn [append]. rewrite span_ws_stop by assumption. cbn [snd].
    assert (Hnd : parse_non_decimal (String c rest) = None).
    { unfold parse_non_decimal. destruct rest as [|c2 rest]; [reflexivity|].
      rewrite Hr. cbn [Z.eqb negb]. now rewrite andb_false_r. }
    rewrite Hnd. unfold split_sign. rewrite Hplus, Hminus. cbv iota beta.
    rewrite Hp. reflexivity.
Qed.

Lemma plain_literal_digits (a rest : string) :
  all_digits a = true -> a <> "" ->
  match rest with String c _ => radix_of c = 0 | EmptyString => True end ->
  plain_literal (a ++ rest).
Proof.
  intros Ha Hne Hr. destruct a as [|c a]; [congruence|]. simpl in Ha.
  destruct (digit_val c) as [d|] eqn:Hc; [|discriminate].
  exists c, d, (a ++ rest). repeat split; [exact Hc|].
  destruct a as [|c2 a]; cbn [append]; [exact Hr|].
  simpl in Ha. destruct (digit_val c2) as [d2|] eqn:Hc2; [|discriminate].
  now destruct (digit_facts c2 d2 Hc2) as (_ & _ & _ & _ & _ & _ & ?).
Qed.

(** Reading [toFixed]'s plain form back gives the number nearest to the
    decimal it writes. *)
Lemma StringToNumber_fixed (neg : bool) (n : Z) (f : nat) :
  0 <= n ->
  StringToNumber ((if neg then "-" else "") ++ fixed_digits n f)
  = dec_to_float neg n (- Z.of_nat f).
Proof.
  intros H. destruct (padded_digits_spec n f H) as (Hall & Hv & Hlen).
  rewrite fixed_digits_split. set (D := padded_digits n f) in *.
  destruct f as [|f].
  - assert (HD : D <> "") by (destruct D; [simpl in Hlen; lia|discriminate]).
    apply StringToNumber_plain.
    + rewrite <- (str_app_nil_r D). now apply plain_literal_digits.
    + rewrite (parse_unsigned_integer neg D Hall HD), Hv. reflexivity.
  - set (k := (String.length D - S f)%nat).
    assert (Hsplit : str_firstn k D ++ str_skipn k D = D) by apply str_firstn_skipn.
    assert (HallAB : all_digits (str_firstn k D) = true /\ all_digits (str_skipn k D) = true).
    { rewrite <- Hsplit, all_digits_app in Hall. now apply andb_prop in Hall. }
    destruct HallAB as [HA HB].
    assert (HlenB : String.length (str_skipn k D) = S f).
    { rewrite str_length_skipn. unfold k. lia. }
    assert (HA0 : str_firstn k D <> "").
    { intros E. assert (String.length (str_firstn k D) = k) by (apply str_length_firstn; unfold k; lia).
      rewrite E in H0. simpl in H0. unfold k in H0. lia. }
    apply StringToNumber_plain.
    + apply plain_literal_digits; auto. reflexivity.
    + rewrite (parse_unsigned_digits neg _ _ HA HB HA0), Hsplit, Hv, HlenB. reflexivity.
Qed.

(** ** Rounding to binary64, from the Standard Library's specification *)

Lemma digits2_pos_bounds (m : positive) :
  2 ^ (Zpos (digits2_pos m) - 1) <= Zpos m < 2 ^ Zpos (digits2_pos m).
Proof.
  induction m as [p IH|p IH|]; cbn [digits2_pos].
  - rewrite Pos2Z.inj_succ, Z.pow_succ_r by lia.
    replace (Z.succ (Zpos (digits2_pos p)) - 1) with (Z.succ (Zpos (digits2_pos p) - 1)) by lia.
    rewrite Z.pow_succ_r by lia. lia.
  - rewrite Pos2Z.inj_succ, Z.pow_succ_r by lia.
    replace (Z.succ (Zpos (digits2_pos p)) - 1) with (Z.succ (Zpos (digits2_pos p) - 1)) by lia.
    rewrite Z.pow_succ_r by lia. lia.
  - simpl. lia.
Qed.

Lemma shr_1_m (r : shr_record) :
  0 <= shr_m r -> shr_m (shr_1 r) = shr_m r / 2.
Proof.
  destruct r as [m b s]. cbn [shr_m]. intros H.
  destruct m as [|[p|p|]|p]; cbn [shr_1 shr_m]; try lia; try reflexivity.
  - rewrite Pos2Z.inj_xI. apply Z.div_unique with 1; lia.
  - rewrite Pos2Z.inj_xO. apply Z.div_unique with 0; lia.
Qed.

Lemma iter_shr_m (p : positive) (r : shr_record) :
  0 <= shr_m r -> shr_m (iter_pos shr_1 p r) = shr_m r / 2 ^ Zpos p.
Proof.
  revert r; induction p as [p IH|p IH|]; intros r H; cbn [iter_pos].
  - assert (H1 : 0 <= shr_m (shr_1 r)) by (rewrite shr_1_m by lia; apply Z.div_pos; lia).
    assert (H2 : 0 <= shr_m (iter_pos shr_1 p (shr_1 r)))
      by (rewrite IH by lia; apply Z.div_pos; lia).
    rewrite IH, IH, shr_1_m by lia.
    rewrite !Z.div_div by lia. f_equal.
    replace (Zpos p~1) with (1 + Zpos p + Zpos p) by lia.
    rewrite !Z.pow_add_r by lia. change (2 ^ 1) with 2. ring.
  - assert (H2 : 0 <= shr_m (iter_pos shr_1 p r))
      by (rewrite IH by lia; apply Z.div_pos; lia).
    rewrite IH, IH by lia. rewrite Z.div_div by lia. f_equal.
    replace (Zpos p~0) with (Zpos p + Zpos p) by lia.
    rewrite Z.pow_add_r by lia. reflexivity.
  - rewrite shr_1_m by lia. reflexivity.
Qed.

Lemma shr_m_of_loc (m : Z) (l : location) : shr_m (shr_record_of_loc m l) = m.
Proof. destruct l as [|[]]; reflexivity. Qed.

(** The shift to the format leaves a positive mantissa positive, when the
    exponent is not below the least one. *)
Lemma shr_fexp_positive (m e : Z) (l : location) :
  1 <= m -> emin <= e ->
  1 <= shr_m (fst (shr_fexp prec emax m e l)) /\
  emin <= snd (shr_fexp prec emax m e l).
Proof.
  intros Hm He. unfold shr_fexp, shr.
  destruct m as [|p|p]; try lia. cbn [Zdigits2].
  pose proof (digits2_pos_bounds p) as Hd.
  set (d := Zpos (digits2_pos p)) in *.
  destruct (fexp prec emax (d + e) - e) as [|n|n] eqn:En; cbn [fst snd];
    rewrite ?shr_m_of_loc; try (split; lia).
  rewrite iter_shr_m by (rewrite shr_m_of_loc; lia). rewrite shr_m_of_loc.
  unfold fexp, SpecFloat.emin, prec, emax in *.
  split; [|lia].
  assert (Hn : Zpos n <= d - 1) by lia.
  apply Z.div_le_lower_bound; [lia|].
  rewrite Z.mul_1_r. apply Z.le_trans with (2 ^ (d - 1)); [|lia].
  apply Z.pow_le_mono_r; lia.
Qed.

Lemma round_nearest_even_ge (m : Z) (l : location) : m <= round_nearest_even m l.
Proof. destruct l as [|[]]; cbn [round_nearest_even]; try lia. destruct (Z.even m); lia. Qed.

(** Rounding a positive mantissa gives a finite number or an infinity of
    the sign asked for: never a zero. *)
Lemma binary_round_aux_sign (sx : bool) (mx ex : Z) (lx : location) :
  1 <= mx -> emin <= ex ->
  (exists m e, binary_round_aux prec emax sx mx ex lx = S754_finite sx m e) \/
  binary_round_aux prec emax sx mx ex lx = S754_infinity sx.
Proof.
  intros Hm He. unfold binary_round_aux.
  destruct (shr_fexp_positive mx ex lx Hm He) as [H1 H1e].
  destruct (shr_fexp prec emax mx ex lx) as [mrs' e']. cbn [fst snd] in *.
  pose proof (round_nearest_even_ge (shr_m mrs') (loc_of_shr_record mrs')) as Hr.
  destruct (shr_fexp_positive (round_nearest_even (shr_m mrs') (loc_of_shr_record mrs'))
              e' loc_Exact ltac:(lia) H1e) as [H2 _].
  destruct (shr_fexp prec emax _ e' loc_Exact) as [mrs'' e'']. cbn [fst snd] in *.
  destruct (shr_m mrs'') as [|m|m]; try lia.
  destruct (e'' <=? emax - prec); [left; eauto|now right].
Qed.

Lemma Pos_iter_xO (m d : positive) : Zpos (Pos.iter xO m d) = Zpos m * 2 ^ Zpos d.
Proof.
  induction d as [|d IH] using Pos.peano_ind.
  - simpl. lia.
  - rewrite Pos.iter_succ, Pos2Z.inj_xO, IH, Pos2Z.inj_succ, Z.pow_succ_r by lia. ring.
Qed.

Lemma shl_align_value (mx : positive) (ex ez : Z) :
  ez <= ex -> Zpos (fst (shl_align mx ex ez)) = Zpos mx * 2 ^ (ex - ez).
Proof.
  intros H. unfold shl_align.
  destruct (ez - ex) as [|d|d] eqn:E; cbn [fst]; try lia.
  - replace (ex - ez) with 0 by lia. lia.
  - rewrite Pos_iter_xO. f_equal. f_equal. lia.
Qed.

Lemma shl_align_exponent (mx : positive) (ex ez : Z) :
  snd (shl_align mx ex ez) = Z.min ex ez.
Proof. unfold shl_align. destruct (ez - ex) as [|d|d] eqn:E; cbn [snd]; lia. Qed.

Lemma binary_round_sign (sx : bool) (mx : positive) (ex : Z) :
  emin <= ex ->
  (exists m e, binary_round prec emax sx mx ex = S754_finite sx m e) \/
  binary_round prec emax sx mx ex = S754_infinity sx.
Proof.
  intros He. unfold binary_round.
  pose proof (shl_align_exponent mx ex (fexp prec emax (Zpos (digits2_pos mx) + ex))) as Hs.
  destruct (shl_align mx ex _) as [mz ez]. cbn [snd] in Hs.
  apply binary_round_aux_sign; [lia|].
  unfold fexp, SpecFloat.emin, prec, emax in *. lia.
Qed.

(** What validity says of a finite number. *)
Lemma valid_finite (s : bool) (m : positive) (e : Z) :
  valid_binary (S754_finite s m e) = true ->
  emin <= e /\ Zpos m < 2 ^ 53 /\ (e = emin \/ 2 ^ 52 <= Zpos m).
Proof.
  cbn [SpecFloat.valid_binary]. unfold bounded, canonical_mantissa. intros H.
  apply andb_prop in H as [H _]. apply Z.eqb_eq in H.
  pose proof (digits2_pos_bounds m) as Hd.
  set (d := Zpos (digits2_pos m)) in *.
  unfold fexp, SpecFloat.emin, prec, emax in *.
  assert (Hd53 : d <= 53) by lia.
  split; [lia|]. split.
  - apply Z.lt_le_trans with (2 ^ d); [lia|]. apply Z.pow_le_mono_r; lia.
  - destruct (Z.eq_dec e (-1074)) as [->|Hne]; [now left|right].
    assert (d = 53) by lia. subst d. rewrite H0 in Hd. exact (proj1 Hd).
Qed.

(** ** The sign of a difference *)

(** A finite number as an integer multiple of [2^ez]. *)
Definition aligned (s : bool) (m : positive) (e ez : Z) : Z :=
  cond_Zopp s (Zpos m * 2 ^ (e - ez)).

Lemma finite_compare (sa : bool) (ma : positive) (ea : Z)
    (sb : bool) (mb : positive) (eb : Z) :
  valid_binary (S754_finite sa ma ea) = true ->
  valid_binary (S754_finite sb mb eb) = true ->
  SFcompare (S754_finite sa ma ea) (S754_finite sb mb eb)
  = Some (aligned sa ma ea (Z.min eb ea) ?= aligned sb mb eb (Z.min eb ea)).
Proof.
  intros Va Vb.
  apply valid_finite in Va as (Ha1 & Ha2 & Ha3).
  apply valid_finite in Vb as (Hb1 & Hb2 & Hb3).
  unfold aligned. cbn [SFcompare].
  assert (Pa : 0 < 2 ^ (ea - Z.min eb ea)) by (apply Z.pow_pos_nonneg; lia).
  assert (Pb : 0 < 2 ^ (eb - Z.min eb ea)) by (apply Z.pow_pos_nonneg; lia).
  assert (Hlt : forall m1 e1 m2 e2, emin <= e1 -> Zpos m1 < 2 ^ 53 ->
            (e2 = emin \/ 2 ^ 52 <= Zpos m2) -> e1 < e2 ->
            Zpos m1 * 2 ^ (e1 - Z.min e2 e1) < Zpos m2 * 2 ^ (e2 - Z.min e2 e1)).
  { intros m1 e1 m2 e2 H1 H2 H3 H4. unfold SpecFloat.emin, prec, emax in *.
    replace (e1 - Z.min e2 e1) with 0 by lia.
    replace (e2 - Z.min e2 e1) with (e2 - e1) by lia.
    assert (2 ^ 1 <= 2 ^ (e2 - e1)) by (apply Z.pow_le_mono_r; lia).
    change (2 ^ 1) with 2 in *. change (2 ^ 0) with 1.
    destruct H3 as [H3|H3]; [lia|]. change (2 ^ 53) with (2 * 2 ^ 52) in H2. nia. }
  assert (Hlt' : forall m1 e1 m2 e2, emin <= e1 -> Zpos m1 < 2 ^ 53 ->
            (e2 = emin \/ 2 ^ 52 <= Zpos m2) -> e1 < e2 ->
            Zpos m1 * 2 ^ (e1 - Z.min e1 e2) < Zpos m2 * 2 ^ (e2 - Z.min e1 e2)).
  { intros. rewrite (Z.min_comm e1 e2). auto. }
  destruct sa, sb; cbn [cond_Zopp]; f_equal.
  - destruct (Z.compare_spec ea eb) as [E|E|E].
    + subst eb. rewrite Z.min_id, Z.sub_diag. change (2 ^ 0) with 1.
      rewrite !Z.mul_1_r. reflexivity.
    + symmetry. apply Z.compare_gt_iff. specialize (Hlt ma ea mb eb). lia.
    + symmetry. apply Z.compare_lt_iff. specialize (Hlt' mb eb ma ea). lia.
  - symmetry. apply Z.compare_lt_iff. lia.
  - symmetry. apply Z.compare_gt_iff. lia.
  - destruct (Z.compare_spec ea eb) as [E|E|E].
    + subst eb. rewrite Z.min_id, Z.sub_diag. change (2 ^ 0) with 1.
      rewrite !Z.mul_1_r. reflexivity.
    + symmetry. apply Z.compare_lt_iff. specialize (Hlt ma ea mb eb). lia.
    + symmetry. apply Z.compare_gt_iff. specialize (Hlt' mb eb ma ea). lia.
Qed.

Lemma SFsub_finite (sa : bool) (ma : positive) (ea : Z)
    (sb : bool) (mb : positive) (eb : Z) :
  SF64sub (S754_finite sb mb eb) (S754_finite sa ma ea)
  = binary_normalize prec emax
      (aligned sb mb eb (Z.min eb ea) - aligned sa ma ea (Z.min eb ea))
      (Z.min eb ea) false.
Proof.
  unfold SF64sub, aligned. cbn [SFsub].
  rewrite !shl_align_value by lia. reflexivity.
Qed.

(** The difference [b - a] is positive exactly when [a < b]. *)
Lemma SFsub_positive (a b : spec_float) :
  valid_binary a = true -> valid_binary b = true ->
  a <> S754_nan -> b <> S754_nan ->
  SFltb (S754_zero false) (SF64sub b a) = SFltb a b.
Proof.
  intros Va Vb Na Nb.
  destruct a as [sa|sa| |sa ma ea], b as [sb|sb| |sb mb eb]; try congruence;
    try (destruct sa, sb; reflexivity);
    try (destruct sa; reflexivity); try (destruct sb; reflexivity).
  rewrite SFsub_finite. unfold SFltb at 2. rewrite (finite_compare _ _ _ _ _ _ Va Vb).
  apply valid_finite in Va as (Ha1 & _). apply valid_finite in Vb as (Hb1 & _).
  set (va := aligned sa ma ea (Z.min eb ea)). set (vb := aligned sb mb eb (Z.min eb ea)).
  assert (He : emin <= Z.min eb ea) by lia.
  destruct (vb - va) as [|d|d] eqn:E; cbn [binary_normalize].
  - assert (va = vb) by lia. replace (va ?= vb) with Eq by (symmetry; apply Z.compare_eq_iff; lia).
    reflexivity.
  - replace (va ?= vb) with Lt by (symmetry; apply Z.compare_lt_iff; lia).
    destruct (binary_round_sign false d _ He) as [(m & e & ->)| ->]; reflexivity.
  - replace (va ?= vb) with Gt by (symmetry; apply Z.compare_gt_iff; lia).
    destruct (binary_round_sign true d _ He) as [(m & e & ->)| ->]; reflexivity.
Qed.

Lemma sub_positive (x y : float) :
  is_nan x = false -> is_nan y = false ->
  (0 <? y - x)%float = (x <? y)%float.
Proof.
  intros Hx Hy. rewrite !ltb_spec, sub_spec.
  replace (Prim2SF 0) with (S754_zero false) by reflexivity.
  apply SFsub_positive; auto using Prim2SF_valid, is_nan_Prim2SF.
Qed.

(** ** Sorting by score *)

(** The score of an element shaped as a [ScoredStock]. *)
Definition score_of (v : JsVal) : option float :=
  match v with
  | JObj o => match obj_get o "score" with Some (JNum x) => Some x | _ => None end
  | _ => None
  end.

(** An element whose score is a number other than NaN: what a JSON text
    can give a [ScoredStock]. *)
Definition well_scored (v : JsVal) : bool :=
  match score_of v with Some x => negb (is_nan x) | None => false end.

(** [a] may stand before [b] in descending order of score. *)
Definition score_ge (a b : JsVal) : Prop :=
  exists x y, score_of a = Some x /\ score_of b = Some y /\ (y <=? x)%float = true.

Lemma well_scored_score (v : JsVal) :
  well_scored v = true -> exists x, score_of v = Some x /\ is_nan x = false.
Proof.
  unfold well_scored. destruct (score_of v) as [x|]; [|discriminate].
  intros H. exists x. split; [reflexivity|]. now apply negb_true_iff in H.
Qed.

Lemma by_score_scored (a b : JsVal) (x y : float) :
  score_of a = Some x -> score_of b = Some y -> by_score a b = inr (y - x)%float.
Proof.
  unfold score_of, by_score. intros Ha Hb.
  destruct a as [| | | | | |oa]; try discriminate Ha.
  destruct b as [| | | | | |ob]; try discriminate Hb.
  cbn [get_prop].
  destruct (obj_get oa "score") as [[| | |x'| | |]|]; try discriminate Ha.
  destruct (obj_get ob "score") as [[| | |y'| | |]|]; try discriminate Hb.
  inversion Ha; inversion Hb; subst. reflexivity.
Qed.

Lemma sort_insert_sorted (x : JsVal) (l : list JsVal) :
  well_scored x = true -> forallb well_scored l = true -> Sorted score_ge l ->
  exists l', sort_insert by_score x l = inr l' /\
             Permutation (x :: l) l' /\ forallb well_scored l' = true /\
             Sorted score_ge l' /\
             (forall z, score_ge z x -> HdRel score_ge z l -> HdRel score_ge z l').
Proof.
  intros Hx. destruct (well_scored_score x Hx) as (sx & Hsx & Nx).
  induction l as [|y l IH]; intros Hl Hs.
  - exists [x]. cbn [sort_insert forallb]. rewrite Hx.
    split; [reflexivity|]. split; [reflexivity|]. split; [reflexivity|].
    split; [repeat constructor|]. intros z Hz _. now constructor.
  - cbn [forallb] in Hl. apply andb_prop in Hl as [Hy Hl].
    destruct (well_scored_score y Hy) as (sy & Hsy & Ny).
    cbn [sort_insert]. rewrite (by_score_scored x y sx sy Hsx Hsy).
    rewrite (sub_positive sx sy Nx Ny).
    inversion Hs as [|? ? Hs' Hhd]; subst.
    destruct (sx <? sy)%float eqn:E.
    + destruct (IH Hl Hs') as (l' & -> & Hp & Hw & Hsl & Hh).
      exists (y :: l'). split; [reflexivity|]. split.
      * rewrite perm_swap. now constructor.
      * split; [cbn [forallb]; now rewrite Hy, Hw|]. split.
        -- constructor; [exact Hsl|]. apply Hh; [|exact Hhd].
           exists sy, sx. repeat split; auto. now apply ltb_leb.
        -- intros z Hz Hzl. inversion Hzl; subst. now constructor.
    + exists (x :: y :: l). split; [reflexivity|]. split; [reflexivity|].
      split; [cbn [forallb]; now rewrite Hx, Hy, Hl|]. split.
      * constructor; [exact Hs|]. constructor.
        exists sx, sy. repeat split; auto. now apply not_ltb_leb.
      * intros z Hz _. now constructor.
Qed.

Lemma sort_defined_sorted (l : list JsVal) :
  forallb well_scored l = true ->
  exists l', sort_defined by_score l = inr l' /\ Permutation l l' /\
             forallb well_scored l' = true /\ Sorted score_ge l'.
Proof.
  induction l as [|x l IH]; intros H.
  - exists []. repeat split; auto.
  - cbn [forallb] in H. apply andb_prop in H as [Hx Hl].
    destruct (IH Hl) as (s & Hs & Hp & Hw & Hsorted).
    destruct (sort_insert_sorted x s Hx Hw Hsorted) as (l' & Hi & Hp' & Hw' & Hs' & _).
    exists l'. cbn [sort_defined]. rewrite Hs. split; [exact Hi|].
    split; [|split; assumption].
    apply Permutation_trans with (x :: s); [now constructor|exact Hp'].
Qed.

Lemma well_scored_defined (l : list JsVal) :
  forallb well_scored l = true ->
  filter (fun v => negb (is_undefined v)) l = l /\ filter is_undefined l = [].
Proof.
  induction l as [|x l IH]; intros H; [split; reflexivity|].
  cbn [forallb] in H. apply andb_prop in H as [Hx Hl]. destruct (IH Hl) as [E1 E2].
  destruct x; try discriminate Hx; cbn [filter is_undefined negb]; now rewrite E1, E2.
Qed.

Lemma Sorted_firstn {A} (R : A -> A -> Prop) (n : nat) (l : list A) :
  Sorted R l -> Sorted R (firstn n l).
Proof.
  revert l; induction n as [|n IH]; intros l H; [constructor|].
  destruct l as [|x l]; [constructor|]. cbn [firstn].
  inversion H as [|? ? Hs Hh]; subst. constructor; [now apply IH|].
  destruct l as [|y l]; [rewrite firstn_nil; constructor|]. destruct n; [constructor|].
  cbn [firstn]. inversion Hh; subst. now constructor.
Qed.

(** The sort and truncation of [runBot], on a list of scored stocks. *)
Lemma top3_of_sorted (l : list JsVal) :
  forallb well_scored l = true ->
  exists sorted, top3_of (JArr l) = inr (firstn 3 sorted) /\
                 Permutation l sorted /\ Sorted score_ge sorted.
Proof.
  intros H. destruct (well_scored_defined l H) as [E1 E2].
  destruct (sort_defined_sorted l H) as (s & Hs & Hp & _ & Hsorted).
  exists s. unfold top3_of, Array_sort. rewrite E1, E2, Hs, app_nil_r. auto.
Qed.

Lemma top3_of_length (scored : JsVal) (top : list JsVal) :
  top3_of scored = inr top -> (List.length top <= 3)%nat.
Proof.
  unfold top3_of. destruct scored; try discriminate.
  destruct (Array_sort by_score items); [discriminate|].
  intros H. assert (E : top = firstn 3 l) by congruence.
  rewrite E. apply firstn_le_length.
Qed.

Section Bot.

Context {World : Type}.
Variable net : Services World.
Variable cfg : Config.

(** C5.  What [runBot] returns is the first three elements of the sorted
    answer of the scoring service: it has at most three elements whatever
    the service returned, and when the service returned scored stocks
    (objects whose score is a number other than NaN) it is in descending
    order of score, the sorted answer being a rearrangement of the
    service's. *)
Theorem runBot_top3 (params : list (string * JsVal))
    (st : World * list LogLine) (r : JsVal) (st' : World * list LogLine) :
  runBot net cfg params st = (inr r, st') ->
  exists stocks s1 scored s2 top,
    fetchUndervaluedStocks net cfg params st = (inr stocks, s1) /\
    scoreAndExplain net stocks s1 = (inr scored, s2) /\
    top3_of scored = inr top /\ r = JArr top /\
    (List.length top <= 3)%nat /\
    (forall l, scored = JArr l -> forallb well_scored l = true ->
       Sorted score_ge top /\
       exists sorted, Permutation l sorted /\ Sorted score_ge sorted /\
                      top = firstn 3 sorted).
Proof.
  unfold runBot. unfold bind at 1.
  destruct (fetchUndervaluedStocks net cfg params st) as [[e|stocks] s1] eqn:Hf; [discriminate|].
  unfold bind at 1.
  destruct (scoreAndExplain net stocks s1) as [[e|scored] s2] eqn:Hsc; [discriminate|].
  unfold bind at 1. unfold lift.
  destruct (top3_of scored) as [e|top] eqn:Ht; [discriminate|].
  unfold bind, ret.
  destruct (notifyDiscord net cfg (JArr top) s2) as [[e|u] s3]; [discriminate|].
  intros H. assert (Hr : r = JArr top) by congruence.
  exists stocks, s1, scored, s2, top.
  split; [reflexivity|]. split; [exact Hsc|]. split; [exact Ht|].
  split; [exact Hr|]. split; [now apply top3_of_length in Ht|].
  intros l Hl Hw. destruct (top3_of_sorted l Hw) as (sorted & Hs & Hp & Hsorted).
  rewrite Hl, Hs in Ht. assert (E : top = firstn 3 sorted) by congruence.
  split.
  - rewrite E. now apply Sorted_firstn.
  - exists sorted. auto.
Qed.

End Bot.

(** ** Rounding to decimals *)

Lemma scale_den_pos (e t : Z) : 0 < scale_den e t.
Proof. unfold scale_den. apply Z.mul_pos_pos; apply Z.pow_pos_nonneg; lia. Qed.

Lemma scale_num_pos (m : positive) (e t : Z) : 0 < scale_num m e t.
Proof.
  unfold scale_num. repeat apply Z.mul_pos_pos; try lia; apply Z.pow_pos_nonneg; lia.
Qed.

(** [round_scaled m e f] is an integer nearest to [m * 2^e * 10^f]. *)
Lemma round_scaled_nearest (m : positive) (e : Z) (f : nat) :
  0 <= round_scaled m e f /\
  2 * Z.abs (scale_num m e (Z.of_nat f) - round_scaled m e f * scale_den e (Z.of_nat f))
  <= scale_den e (Z.of_nat f).
Proof.
  unfold round_scaled, scale_round_up.
  pose proof (scale_den_pos e (Z.of_nat f)) as Hd.
  pose proof (scale_num_pos m e (Z.of_nat f)) as Hn.
  set (num := scale_num m e (Z.of_nat f)) in *.
  set (den := scale_den e (Z.of_nat f)) in *.
  pose proof (Z.div_mod (2 * num + den) (2 * den) ltac:(lia)) as E.
  pose proof (Z.mod_pos_bound (2 * num + den) (2 * den) ltac:(lia)) as B.
  set (n := (2 * num + den) / (2 * den)) in *.
  split; [apply Z.div_pos; lia|]. nia.
Qed.

(** What [+ x.toFixed(dp)] is, as the specification words it: the number
    rounded to [dp] decimals.  NaN and the infinities stay; a zero is 0;
    a finite number of magnitude below 10^21 becomes the binary64 nearest
    to [n / 10^dp], for an integer [n] nearest to the number scaled by
    [10^dp] and of its sign; from 10^21 on, where every binary64 is an
    integer, no digit is dropped and the number is read back from its own
    shortest decimal form. *)
Definition rounds_to (dp : nat) (q r : float) : Prop :=
  match Prim2SF q with
  | S754_nan => r = q
  | S754_infinity _ => r = q
  | S754_zero _ => r = zero
  | S754_finite s m e =>
      if (1e21 <=? abs q)%float
      then r = StringToNumber ((if s then "-" else "") ++ Number_toString (abs q))
      else exists n, 0 <= n /\
             2 * Z.abs (scale_num m e (Z.of_nat dp) - n * scale_den e (Z.of_nat dp))
             <= scale_den e (Z.of_nat dp) /\
             r = dec_to_float s n (- Z.of_nat dp)
  end.

Lemma round_to_rounds (x : float) (f : nat) : rounds_to f x (round_to x f).
Proof.
  unfold rounds_to, round_to, toFixed.
  destruct (Prim2SF x) as [s|s| |s m e] eqn:E.
  - exact (StringToNumber_fixed false 0 f (Z.le_refl 0)).
  - rewrite <- (SF2Prim_Prim2SF x), E. destruct s; reflexivity.
  - rewrite <- (SF2Prim_Prim2SF x), E. reflexivity.
  - destruct (1e21 <=? abs x)%float; [reflexivity|].
    destruct (round_scaled_nearest m e f) as [H0 Hn].
    exists (round_scaled m e f). repeat split; auto.
    now apply StringToNumber_fixed.
Qed.

(** ** Math.max *)

Lemma ltb_irrefl (x : float) : (x <? x)%float = false.
Proof.
  rewrite ltb_spec. unfold SFltb.
  pose proof (SFcompare_antisym (Prim2SF x) (Prim2SF x)) as H.
  destruct (SFcompare (Prim2SF x) (Prim2SF x)) as [[]|]; try reflexivity.
  discriminate H.
Qed.

Lemma leb_refl (x : float) : is_nan x = false -> (x <=? x)%float = true.
Proof. intros H. apply not_ltb_leb; auto using ltb_irrefl. Qed.

(** [r] is the larger of [a] and [b], NaN when either is. *)
Definition is_max (a b r : float) : Prop :=
  if is_nan a || is_nan b then r = nan
  else (r = a \/ r = b) /\ (a <=? r)%float = true /\ (b <=? r)%float = true.

Lemma Math_max_is_max (a b : float) : is_max a b (Math_max a b).
Proof.
  unfold is_max, Math_max.
  destruct (is_nan a) eqn:Na; [reflexivity|].
  destruct (is_nan b) eqn:Nb; [reflexivity|]. cbn [orb].
  destruct (a <? b)%float eqn:Hab.
  - repeat split; auto using ltb_leb, leb_refl.
  - destruct (b <? a)%float eqn:Hba.
    + repeat split; auto using ltb_leb, leb_refl.
    + destruct (get_sign a); repeat split; auto using not_ltb_leb, leb_refl.
Qed.

(** C4.  The three ratios of [extractKeyInsights] are the quotients of
    the raw averages rounded to four decimals, and the analyst count is
    the larger of the two counts; the result depends on the estimate
    alone. *)
Theorem extractKeyInsights_derivations (data : RawStockData) :
  rounds_to 4 (ebitdaAvg data / revenueAvg data)
            (ebitdaMargin (extractKeyInsights data)) /\
  rounds_to 4 (netIncomeAvg data / revenueAvg data)
            (netMargin (extractKeyInsights data)) /\
  rounds_to 4 (sgaExpenseAvg data / revenueAvg data)
            (sgaToRevenueRatio (extractKeyInsights data)) /\
  is_max (numAnalystsRevenue data) (numAnalystsEps data)
         (analystCount (extractKeyInsights data)).
Proof.
  cbn [extractKeyInsights ebitdaMargin netMargin sgaToRevenueRatio analystCount].
  repeat split; try apply round_to_rounds. apply Math_max_is_max.
Qed.

(** C8, as the code has it.  The EPS of the insights is the raw average
    rounded to two decimals.  The estimate 2.005 is the binary64 nearest
    to it, which lies below 2.005: [toFixed(2)] writes "2.00" and the EPS
    is 2. *)
Theorem extractKeyInsights_eps (data : RawStockData) :
  rounds_to 2 (epsAvg data) (eps (extractKeyInsights data)) /\
  (epsAvg data = StringToNumber "2.005" ->
   toFixed (epsAvg data) 2 = "2.00" /\
   eps (extractKeyInsights data) = 2%float /\
   exists m e, Prim2SF (epsAvg data) = S754_finite false m e /\
               scale_num m e 3 < 2005 * scale_den e 3).
Proof.
  split; [apply round_to_rounds|].
  intros H. cbn [extractKeyInsights eps]. unfold round_to. rewrite H.
  split; [vm_compute; reflexivity|]. split; [vm_compute; reflexivity|].
  do 2 eexists. split; [vm_compute; reflexivity|]. vm_compute; reflexivity.
Qed.

(* ================================================================== *)
(** * Runs of the service in small worlds *)
(* ================================================================== *)

Fixpoint str_contains (needle hay : string) : bool :=
  match str_prefix needle hay with
  | Some _ => true
  | None =>
      match hay with
      | String _ h => str_contains needle h
      | EmptyString => false
      end
  end.

Definition example_cfg : Config :=
  {| FMP_API_KEY := "key"; DISCORD_BOT_TOKEN := "token"; DISCORD_CHANNEL_ID := "42" |}.

Definition example_estimate : JsVal :=
  JObj [("symbol", JStr "AAA"); ("date", JStr "2026-12-31");
        ("revenueAvg", JNum 1000); ("ebitdaAvg", JNum 250);
        ("netIncomeAvg", JNum 100); ("sgaExpenseAvg", JNum 50);
        ("epsAvg", JNum (StringToNumber "2.005"));
        ("numAnalystsRevenue", JNum 5); ("numAnalystsEps", JNum 7)].

(** A data service that answers every symbol alike: a target price of
    160, one analyst estimate, and numeric fundamentals. *)
Definition example_get (screener : JsVal) (url : string) (w : unit)
  : (Exn + JsVal) * unit :=
  (if str_contains "company-screener" url then inr screener
   else if str_contains "price-target-summary" url then
     inr (JArr [JObj [("allTimeAvgPriceTarget", JNum 160)]])
   else if str_contains "analyst-estimates" url then inr (JArr [example_estimate])
   else if str_contains "key-metrics-ttm" url then
     inr (JArr [JObj [("peRatioTTM", JNum 10); ("pbRatioTTM", JNum 2);
                      ("debtToEquityTTM", JNum 1)]])
   else inl (HttpError "404"), w).

Definition example_net (screener : JsVal) (answer : string) (post : Exn + Z)
  : Services unit :=
  {| axios_get := example_get screener;
     axios_post := fun _ _ _ w => (post, w);
     openai_create := fun _ w =>
       (inr {| choices := [{| message := Some {| content := Some answer |} |}] |}, w) |}.

Definition candidate (sym : string) (more : list (string * JsVal)) : JsVal :=
  JObj (("symbol", JStr sym) :: ("companyName", JStr (sym ++ " Inc")) :: more).

Definition example_screener : JsVal :=
  JArr [candidate "AAA" [("price", JNum 100)];
        candidate "ETF" [("price", JNum 100); ("isEtf", JBool true)];
        candidate "BBB" [("price", JNum 120)]].

(** The array of the specification's example. *)
Definition example_array : string :=
  "[{" ++ quoted "symbol" ++ ":" ++ quoted "ABC" ++ "," ++ quoted "score" ++ ":9,"
  ++ quoted "explanation" ++ ":" ++ quoted "..." ++ "}]".

Definition example_answer : string := "Here are my picks: " ++ example_array.

Definition start : unit * list LogLine := (tt, []).

(** A data service whose numbers are too large for a binary64: the
    price in the screener's reply and the target price are both read as
    Infinity, as [JSON.parse] reads [1e999]. *)
Definition overflowing_get (url : string) (w : unit) : (Exn + JsVal) * unit :=
  if str_contains "company-screener" url then
    (inr (JArr [candidate "BIG" [("price", JNum infinity)]]), w)
  else if str_contains "price-target-summary" url then
    (inr (JArr [JObj [("allTimeAvgPriceTarget", JNum infinity)]]), w)
  else example_get JNull url w.

Definition overflowing_net : Services unit :=
  {| axios_get := overflowing_get;
     axios_post := fun _ _ _ w => (inr 200, w);
     openai_create := fun _ w =>
       (inr {| choices := [{| message := Some {| content := Some example_answer |} |}] |},
        w) |}.

(** C1, against the code.  A candidate that carries no price: the
    quotient is NaN, so [targetPrice / price <= 1.5] is false and the
    candidate is not skipped, although [targetPrice / price > 1.5] is
    false as well; the record pushed has no price.  The same happens to a
    candidate whose price is a number, when price and target price are
    both infinite. *)
Lemma fetch_without_price :
  (let net := example_net (JArr [candidate "NOPRICE" []]) example_answer (inr 200) in
   let c := candidate "NOPRICE" [] in
   passes_as_specified net example_cfg c start = false /\
   above_target (JNum 160) (prop c "price") = false /\
   exists s, fst (fetchUndervaluedStocks net example_cfg [] start) = inr [s] /\
             stock_key s = candidate_key c /\ price s = JUndefined) /\
  (let c := candidate "BIG" [("price", JNum infinity)] in
   passes_as_specified overflowing_net example_cfg c start = false /\
   above_target (JNum infinity) (prop c "price") = false /\
   exists s, fst (fetchUndervaluedStocks overflowing_net example_cfg [] start) = inr [s] /\
             stock_key s = candidate_key c).
Proof.
  cbv zeta. split.
  - split; [vm_compute; reflexivity|]. split; [vm_compute; reflexivity|].
    eexists. split; [vm_compute; reflexivity|]. split; reflexivity.
  - split; [vm_compute; reflexivity|]. split; [vm_compute; reflexivity|].
    eexists. split; [vm_compute; reflexivity|]. reflexivity.
Qed.

Lemma fetch_rsi_witness :
  let net := example_net example_screener example_answer (inr 200) in
  exists out, fst (fetchUndervaluedStocks net example_cfg [] start) = inr out /\
              List.length out = 1%nat /\ Forall (fun s => rsi s = 50%float) out.
Proof.
  cbv zeta.
  set (net := example_net example_screener example_answer (inr 200)).
  destruct (fetchUndervaluedStocks net example_cfg [] start) as [[e|out] st'] eqn:E;
    [vm_compute in E; discriminate E|].
  exists out. split; [reflexivity|]. split.
  - vm_compute in E. inversion E. reflexivity.
  - exact (proj2 (fetchUndervaluedStocks_rsi net example_cfg [] start out st' E)).
Defined.


(** C6, against the claim.  Prose that holds a bracketed brace before the
    array: the scan stops at the prose, and the call throws although the
    array that follows is valid JSON. *)
Lemma score_prose_with_bracket :
  let content := "Scores [ {1-10} ] follow: " ++ example_array in
  let net := example_net example_screener content (inr 200) in
  (exists v, JSON_parse example_array = inr (JArr [v])) /\
  regex_match content = Some "[ {1-10} ]" /\
  fst (scoreAndExplain net [] start) = inl SyntaxError.
Proof.
  cbv zeta. split; [eexists; vm_compute; reflexivity|].
  split; vm_compute; reflexivity.
Qed.

Lemma score_witness :
  let net := example_net example_screener example_answer (inr 200) in
  no_open_bracket "Here are my picks: " = true /\
  regex_match example_array = Some example_array /\
  scoreAndExplain net [] start
  = (inr (JArr [JObj [("symbol", JStr "ABC"); ("score", JNum 9);
                      ("explanation", JStr "...")]]), start).
Proof.
  cbv zeta.
  set (net := example_net example_screener example_answer (inr 200)).
  pose proof (scoreAndExplain_outcome net [] tt []) as H.
  cbn [openai_create example_net response_content choices message content] in H.
  change example_answer with (String "H" ("ere are my picks: " ++ example_array)) in H.
  destruct H as [_ H].
  split; [reflexivity|]. split; [vm_compute; reflexivity|].
  apply (H "Here are my picks: " example_array); try reflexivity;
    vm_compute; reflexivity.
Defined.




Definition three_scores : string :=
  "[{" ++ quoted "symbol" ++ ":" ++ quoted "A" ++ "," ++ quoted "score" ++ ":3,"
       ++ quoted "explanation" ++ ":" ++ quoted "a" ++ "},"
  ++ "{" ++ quoted "symbol" ++ ":" ++ quoted "B" ++ "," ++ quoted "score" ++ ":9.5,"
       ++ quoted "explanation" ++ ":" ++ quoted "b" ++ "},"
  ++ "{" ++ quoted "symbol" ++ ":" ++ quoted "C" ++ "," ++ quoted "score" ++ ":1,"
       ++ quoted "explanation" ++ ":" ++ quoted "c" ++ "},"
  ++ "{" ++ quoted "symbol" ++ ":" ++ quoted "D" ++ "," ++ quoted "score" ++ ":7,"
       ++ quoted "explanation" ++ ":" ++ quoted "d" ++ "}]".

Lemma runBot_witness :
  let net := example_net example_screener three_scores (inr 200) in
  exists top, fst (runBot net example_cfg [] start) = inr (JArr top) /\
    map (fun v => prop v "symbol") top = [JStr "B"; JStr "D"; JStr "A"] /\
    (List.length top <= 3)%nat /\ Sorted score_ge top.
Proof.
  cbv zeta.
  set (net := example_net example_screener three_scores (inr 200)).
  destruct (runBot net example_cfg [] start) as [[e|r] st'] eqn:E;
    [vm_compute in E; discriminate E|].
  destruct (runBot_top3 net example_cfg [] start r st' E)
    as (stocks & s1 & scored & s2 & top & Hf & Hs & Ht & Hr & Hlen & Hsorted).
  exists top. subst r. split; [reflexivity|].
  assert (Hscored : exists l, scored = JArr l /\ forallb well_scored l = true).
  { vm_compute in Hf. inversion Hf; subst. vm_compute in Hs. inversion Hs; subst.
    eexists. split; [reflexivity|]. vm_compute. reflexivity. }
  destruct Hscored as (l & Hl & Hw).
  split; [|split; [exact Hlen|exact (proj1 (Hsorted l Hl Hw))]].
  vm_compute in E. inversion E. reflexivity.
Defined.

Lemma eps_witness :
  let data := as_RawStockData example_estimate in
  epsAvg data = StringToNumber "2.005" /\
  toFixed (epsAvg data) 2 = "2.00" /\ eps (extractKeyInsights data) = 2%float.
Proof.
  cbv zeta. assert (H : epsAvg (as_RawStockData example_estimate) = StringToNumber "2.005")
    by reflexivity.
  destruct (extractKeyInsights_eps (as_RawStockData example_estimate)) as [_ H2].
  destruct (H2 H) as (H3 & H4 & _). auto.
Defined.

(** C8, against the claim: the EPS derived from 2.005 is 2, not 2.01. *)
Lemma eps_of_2005 :
  let data := as_RawStockData example_estimate in
  epsAvg data = StringToNumber "2.005" /\
  eps (extractKeyInsights data) = 2%float /\
  (eps (extractKeyInsights data) =? StringToNumber "2.01")%float = false.
Proof. cbv zeta. repeat split; vm_compute; reflexivity. Qed.

Lemma run_params_witness :
  obj_get [("limit", JStr "25")] "exchange" = None /\
  obj_get (finalParams (run_params [("limit", JStr "25")])) "exchange"
  = Some (JStr "undefined") /\
  obj_get (finalParams (run_params [("limit", JStr "25")])) "limit" = Some (JNum 25).
Proof.
  destruct (run_params_override [("limit", JStr "25")]) as (_ & _ & H & _ & _ & Ho & _).
  split; [reflexivity|]. split; [apply H; reflexivity|].
  apply Ho. vm_compute. reflexivity.
Defined.

(* ================================================================== *)
(** * Further properties of the code *)
(* ================================================================== *)

Section Fetchers.

Context {World : Type}.
Variable net : Services World.
Variable cfg : Config.







End Fetchers.

Lemma not_etf_or_fund_total (l : list JsVal) :
  not_etf_or_fund l
  = if forallb (fun s => negb (nullish s)) l
    then inr (filter keep_candidate l) else inl TypeError.
Proof.
  induction l as [|s l IH]; [reflexivity|].
  change (not_etf_or_fund (s :: l))
    with (match get_prop s "isEtf" with
          | inl e => inl e
          | inr isEtf =>
              match get_prop s "isFund" with
              | inl e => inl e
              | inr isFund =>
                  match not_etf_or_fund l with
                  | inl e => inl e
                  | inr r =>
                      inr (if negb (truthy isEtf) && negb (truthy isFund)
                           then s :: r else r)
                  end
              end
          end).
  cbn [forallb filter].
  destruct (nullish s) eqn:Hs; cbn [negb andb].
  - destruct s; try discriminate Hs; reflexivity.
  - rewrite (get_prop_prop _ "isEtf" Hs), (get_prop_prop _ "isFund" Hs), IH.
    destruct (forallb (fun s0 => negb (nullish s0)) l); [|reflexivity].
    unfold keep_candidate. reflexivity.
Qed.

(** ** Quotients that are numbers *)

Lemma shr_fexp_nonneg (m e : Z) (l : location) :
  0 <= m -> 0 <= shr_m (fst (shr_fexp prec emax m e l)).
Proof.
  intros Hm. unfold shr_fexp, shr.
  destruct (fexp prec emax (Zdigits2 m + e) - e) as [|n|n]; cbn [fst];
    rewrite ?shr_m_of_loc; try exact Hm.
  rewrite iter_shr_m by (rewrite shr_m_of_loc; exact Hm). rewrite shr_m_of_loc.
  apply Z.div_pos; [exact Hm|]. apply Z.pow_pos_nonneg; lia.
Qed.

(** Rounding a mantissa that is not negative never gives NaN. *)
Lemma binary_round_aux_not_nan (sx : bool) (mx ex : Z) (lx : location) :
  0 <= mx -> binary_round_aux prec emax sx mx ex lx <> S754_nan.
Proof.
  intros Hm. unfold binary_round_aux.
  pose proof (shr_fexp_nonneg mx ex lx Hm) as H1.
  destruct (shr_fexp prec emax mx ex lx) as [mrs' e']. cbn [fst] in H1.
  pose proof (round_nearest_even_ge (shr_m mrs') (loc_of_shr_record mrs')) as Hr.
  pose proof (shr_fexp_nonneg (round_nearest_even (shr_m mrs') (loc_of_shr_record mrs'))
                e' loc_Exact ltac:(lia)) as H2.
  destruct (shr_fexp prec emax _ e' loc_Exact) as [mrs'' e'']. cbn [fst] in H2.
  destruct (shr_m mrs'') as [|m|m]; try lia; try discriminate.
  destruct (e'' <=? emax - prec); discriminate.
Qed.

Lemma SFdiv_finite_not_nan (sx : bool) (mx : positive) (ex : Z)
    (sy : bool) (my : positive) (ey : Z) :
  SF64div (S754_finite sx mx ex) (S754_finite sy my ey) <> S754_nan.
Proof.
  unfold SF64div. cbn [SFdiv]. unfold SFdiv_core_binary.
  set (e' := Z.min _ _). set (s := ex - ey - e').
  set (m' := match s with Z0 => _ | Zpos _ => _ | Zneg _ => _ end).
  assert (Hm' : 0 <= m').
  { subst m'. destruct s; try lia. apply Z.shiftl_nonneg. lia. }
  pose proof (Z_div_mod m' (Zpos my) ltac:(lia)) as Hd.
  destruct (Z.div_eucl m' (Zpos my)) as [q r].
  apply binary_round_aux_not_nan. nia.
Qed.

(** A positive number divided by a finite one is a number. *)
Lemma div_not_nan (x y : float) :
  (0 <? x)%float = true ->
  match Prim2SF y with S754_zero _ | S754_finite _ _ _ => True | _ => False end ->
  is_nan (x / y) = false.
Proof.
  intros Hx Hy. apply Prim2SF_not_nan. rewrite div_spec.
  rewrite ltb_spec in Hx. unfold SFltb in Hx.
  change (Prim2SF 0) with (S754_zero false) in Hx.
  destruct (Prim2SF x) as [sx|sx| |sx mx ex]; try discriminate Hx;
    destruct (Prim2SF y) as [sy|sy| |sy my ey]; try contradiction;
    try discriminate.
  apply SFdiv_finite_not_nan.
Qed.

Section Enrichment.

Context {World : Type}.
Variable net : Services World.
Variable cfg : Config.

Local Abbreviation St := (World * list LogLine)%type.


Definition screener_failure (e : Exn) : LogLine :=
  {| level := LError; text := "❌ Failed to fetch undervalued stocks:";
     detail := Some (inl e) |}.

(** A candidate whose symbol and price the loop can convert: the symbol
    goes into the addresses requested and the price under the target
    price.  The embedding reads both through [ToString] and [ToNumber],
    which are the conversions where [converts] holds; on other values the
    source throws from inside the loop. *)
Definition plain_candidate (s : JsVal) : bool :=
  converts (prop s "symbol") && converts (prop s "price").

(** How [fetchUndervaluedStocks] ends, for options whose values convert
    to strings.  A rejected screener request is rethrown after one error
    line, and nothing else is requested.  A reply that is not an array,
    or an array holding a null or undefined element, throws a TypeError
    in the same way.  On an array without such elements, whose candidates
    that are neither ETF nor fund have a symbol and a price that convert,
    the function returns: no failure of a per-symbol request aborts the
    run. *)
Theorem fetchUndervaluedStocks_outcome (screenerOptions : list (string * JsVal))
    (w : World) (log : list LogLine) :
  forallb (fun kv => converts (snd kv)) screenerOptions = true ->
  match axios_get net (screenerUrl cfg screenerOptions) w with
  | (inl e, w') =>
      fetchUndervaluedStocks net cfg screenerOptions (w, log)
      = (inl e, (w', log ++ [screener_failure e])%list)
  | (inr (JArr data), w') =>
      (forallb (fun s => negb (nullish s)) data = false ->
       fetchUndervaluedStocks net cfg screenerOptions (w, log)
       = (inl TypeError, (w', log ++ [screener_failure TypeError])%list)) /\
      (forallb (fun s => negb (nullish s)) data = true ->
       forallb plain_candidate (filter keep_candidate data) = true ->
       exists out st',
         fetchUndervaluedStocks net cfg screenerOptions (w, log) = (inr out, st'))
  | (inr _, w') =>
      fetchUndervaluedStocks net cfg screenerOptions (w, log)
      = (inl TypeError, (w', log ++ [screener_failure TypeError])%list)
  end.
Proof.
  intros _.
  assert (Hget : forall r w', axios_get net (screenerUrl cfg screenerOptions) w = (r, w') ->
            http_get net (screenerUrl cfg screenerOptions) (w, log) = (r, (w', log))).
  { intros r w' E. unfold http_get. cbn [fst snd]. now rewrite E. }
  assert (Hfetch : forall r w',
            http_get net (screenerUrl cfg screenerOptions) (w, log) = (r, (w', log)) ->
            fetchUndervaluedStocks net cfg screenerOptions (w, log)
            = match r with
              | inl e => (inl e, (w', log ++ [screener_failure e])%list)
              | inr (JArr l) =>
                  if forallb (fun s => negb (nullish s)) l
                  then match enrich_all net cfg (filter keep_candidate l) (w', log) with
                       | (inl e, s') =>
                           (inl e, (fst s', snd s' ++ [screener_failure e])%list)
                       | res => res
                       end
                  else (inl TypeError, (w', log ++ [screener_failure TypeError])%list)
              | inr _ => (inl TypeError, (w', log ++ [screener_failure TypeError])%list)
              end).
  { intros r w' Hg. unfold fetchUndervaluedStocks, catch. unfold bind at 1. rewrite Hg.
    destruct r as [e|data]; [reflexivity|].
    destruct data as [| | | | |l|]; try reflexivity.
    unfold bind at 1. unfold lift. rewrite not_etf_or_fund_total.
    destruct (forallb (fun s => negb (nullish s)) l); [|reflexivity].
    destruct (enrich_all net cfg (filter keep_candidate l) (w', log)) as [[e|out] s'];
      reflexivity. }
  destruct (axios_get net (screenerUrl cfg screenerOptions) w) as [[e|data] w'] eqn:E;
    rewrite (Hfetch _ _ (Hget _ _ eq_refl)); [reflexivity|].
  destruct data as [| | | | |l|]; try reflexivity.
  split; intros Hn; rewrite Hn; [reflexivity|]. intros _.
  assert (Hn' : forallb (fun s => negb (nullish s)) (filter keep_candidate l) = true).
  { rewrite forallb_forall in *. intros x Hx. apply Hn. apply filter_In in Hx. tauto. }
  destruct (enrich_all_spec net cfg _ (w', log) Hn') as (out & s2 & Ha & _).
  rewrite Ha. eauto.
Qed.

Lemma getTargetPrice_positive (sym : JsVal) (st : St) (v : JsVal) (st' : St) :
  getTargetPrice net cfg sym st = (inr v, st') -> truthy v = true ->
  (0 <? ToNumber v)%float = true.
Proof.
  unfold getTargetPrice, catch, bind, http_get, lift, ret, throw, console_put.
  destruct (axios_get net _ (fst st)) as [[e|data] w]; cbn [fst snd].
  - intros H Ht. inversion H; subst. discriminate Ht.
  - destruct data as [| | | | |[|summary items]|];
      try (intros H Ht; inversion H; subst; discriminate Ht).
    destruct (get_prop summary "allTimeAvgPriceTarget") as [e|target]; cbn [fst snd].
    + intros H Ht. inversion H; subst. discriminate Ht.
    + destruct (truthy target); destruct (converts target); cbn [andb negb fst snd];
        try (intros H Ht; inversion H; subst; discriminate Ht).
      destruct (0 <? ToNumber target)%float eqn:Hp; intros H Ht; inversion H; subst;
        [exact Hp|discriminate Ht].
Qed.

(** What a record pushed by a turn of the loop holds. *)
Definition pushed_for (stock : JsVal) (s : Stock) : Prop :=
  stock_key s = candidate_key stock /\
  truthy (targetPrice s) = true /\
  (0 <? ToNumber (targetPrice s))%float = true /\
  (ToNumber (targetPrice s) / ToNumber (price s) <=? 1.5)%float = false.

Lemma enrich_pushed (stock : JsVal) (st : St) (s : Stock) (st' : St) :
  enrich net cfg stock st = (inr (Some s), st') -> pushed_for stock s.
Proof.
  destruct (nullish stock) eqn:Hn.
  { destruct stock; try discriminate Hn; discriminate. }
  unfold enrich.
  unfold bind at 1. unfold lift at 1. rewrite (get_prop_prop _ "symbol" Hn).
  unfold bind at 1. unfold lift at 1. rewrite (get_prop_prop _ "companyName" Hn).
  unfold bind at 1. unfold lift at 1. rewrite (get_prop_prop _ "price" Hn).
  unfold bind at 1.
  destruct (getTargetPrice net cfg (prop stock "symbol") st) as [[e|tp] s1] eqn:Ht;
    [discriminate|].
  destruct (truthy tp) eqn:Htp; cbn [negb orb]; [|discriminate].
  destruct (ToNumber tp / ToNumber (prop stock "price") <=? 1.5)%float eqn:Hq;
    [discriminate|].
  unfold bind at 1.
  destruct (getAnalystSentiment net cfg (prop stock "symbol") s1) as [[e|[ins|]] s2];
    try discriminate.
  unfold bind at 1.
  destruct (getMetrics net cfg (prop stock "symbol") s2) as [[e|m] s3]; [discriminate|].
  destruct (m_pe m) as [| | |pe0| | |]; try discriminate.
  destruct (m_pb m) as [| | |pb0| | |]; try discriminate.
  destruct (m_debtToEquity m) as [| | |de0| | |]; try discriminate.
  unfold bind, getRsi, ret. intros H. inversion H; subst s st'.
  unfold pushed_for. cbn [stock_key candidate_key symbol companyName price targetPrice].
  repeat split; try assumption.
  exact (getTargetPrice_positive _ _ _ _ Ht Htp).
Qed.

Lemma enrich_all_pushed (l : list JsVal) (st : St) (out : list Stock) (st' : St) :
  enrich_all net cfg l st = (inr out, st') ->
  Forall (fun s => exists stock, In stock l /\ pushed_for stock s) out.
Proof.
  revert st out st'; induction l as [|c l IH]; intros st out st'.
  - cbn [enrich_all]. unfold ret. intros H. inversion H. constructor.
  - cbn [enrich_all]. unfold bind at 1.
    destruct (enrich net cfg c st) as [[e|r] s1] eqn:He; [discriminate|].
    unfold bind at 1.
    destruct (enrich_all net cfg l s1) as [[e|rest] s2] eqn:Ha; [discriminate|].
    unfold ret. intros H.
    assert (Hrest : Forall (fun s => exists stock, In stock (c :: l) /\ pushed_for stock s)
                           rest).
    { eapply Forall_impl; [|exact (IH _ _ _ Ha)].
      intros s (stock & Hin & Hp). exists stock. split; [now right|exact Hp]. }
    destruct r as [s|]; inversion H; subst out; [|exact Hrest].
    constructor; [|exact Hrest]. exists c. split; [now left|].
    exact (enrich_pushed _ _ _ _ He).
Qed.

(** What every returned record satisfies, and how many there can be.  A
    record carries the symbol, name and price of a candidate of the
    screener's reply that is flagged neither as ETF nor as fund; its
    target price is truthy and positive, and [targetPrice / price <= 1.5]
    is false.  There are no more records than such candidates. *)
Theorem fetchUndervaluedStocks_invariant (screenerOptions : list (string * JsVal))
    (st : St) (out : list Stock) (st' : St) :
  fetchUndervaluedStocks net cfg screenerOptions st = (inr out, st') ->
  exists data s0,
    http_get net (screenerUrl cfg screenerOptions) st = (inr (JArr data), s0) /\
    Forall (fun s => exists stock,
              In stock data /\ keep_candidate stock = true /\ pushed_for stock s) out /\
    (List.length out <= List.length (filter keep_candidate data))%nat /\
    (List.length out <= List.length data)%nat.
Proof.
  intros H. destruct (fetchUndervaluedStocks_run net cfg _ _ _ _ H)
    as (data & s0 & Hg & Hn & Ha).
  destruct (enrich_all_spec net cfg _ s0 Hn) as (out' & s2 & Ha' & Hk & _).
  rewrite Ha in Ha'. inversion Ha'; subst out' s2.
  exists data, s0. split; [exact Hg|]. split.
  - eapply Forall_impl; [|exact (enrich_all_pushed _ _ _ _ Ha)].
    intros s (stock & Hin & Hp). apply filter_In in Hin. exists stock. tauto.
  - assert (Hlen : (List.length out <= List.length (filter keep_candidate data))%nat).
    { rewrite <- (length_map stock_key out), Hk, length_map.
      etransitivity; [apply filter_length_le|].
      rewrite <- (length_map fst), turns_candidates. reflexivity. }
    split; [exact Hlen|]. etransitivity; [exact Hlen|apply filter_length_le].
Qed.

(** A price as the data model of the screener has it: a finite number. *)
Definition priced (c : JsVal) : bool :=
  match prop c "price" with
  | JNum p =>
      match Prim2SF p with
      | S754_zero _ | S754_finite _ _ _ => true
      | _ => false
      end
  | _ => false
  end.

Lemma target_test_priced (tp c : JsVal) :
  tp = JNull \/ (truthy tp = true /\ (0 <? ToNumber tp)%float = true) ->
  priced c = true ->
  within_target tp (prop c "price") = above_target tp (prop c "price").
Proof.
  intros [->|[Ht Hp]] Hc; [reflexivity|].
  unfold within_target, above_target. rewrite Ht.
  replace (nullish tp) with false by (destruct tp; try reflexivity; discriminate Ht).
  cbn [negb andb]. unfold priced in Hc.
  destruct (prop c "price") as [| | |p| | |]; try discriminate Hc. cbn [ToNumber].
  apply not_leb_ltb; [|reflexivity].
  apply div_not_nan; [exact Hp|]. destruct (Prim2SF p); try discriminate Hc; exact I.
Qed.

Lemma passes_priced (c : JsVal) (st : St) :
  priced c = true -> passes net cfg c st = passes_as_specified net cfg c st.
Proof.
  intros Hc. unfold passes, passes_as_specified.
  destruct (getTargetPrice net cfg (prop c "symbol") st) as [[e|tp] s1] eqn:Ht;
    [reflexivity|].
  rewrite (target_test_priced tp c); [reflexivity| |exact Hc].
  destruct (getTargetPrice_returns net cfg (prop c "symbol") st) as (v & s & Hv & Hor).
  rewrite Ht in Hv. inversion Hv; subst v s.
  destruct Hor as [Htr|Hn]; [right|now left]. split; [exact Htr|].
  exact (getTargetPrice_positive _ _ _ _ Ht Htr).
Qed.

(** Which candidates a returning run selects.  The records returned are,
    in the order of the screener's reply, those of the candidates that
    are neither ETF nor fund and pass the loop: a truthy target price,
    [targetPrice / price <= 1.5] false, a sentiment that is not [false],
    three numeric fundamentals.  When the price of each such candidate is
    a finite number, these are exactly the candidates whose target price
    is not null and for which [targetPrice / price > 1.5]. *)
Theorem fetchUndervaluedStocks_selection (screenerOptions : list (string * JsVal))
    (st : St) (out : list Stock) (st' : St) :
  fetchUndervaluedStocks net cfg screenerOptions st = (inr out, st') ->
  exists data s0,
    http_get net (screenerUrl cfg screenerOptions) st = (inr (JArr data), s0) /\
    map stock_key out
    = map (fun t => candidate_key (fst t))
          (filter (fun t => passes net cfg (fst t) (snd t))
                  (turns net cfg (filter keep_candidate data) s0)) /\
    (forallb priced (filter keep_candidate data) = true ->
     map stock_key out
     = map (fun t => candidate_key (fst t))
           (filter (fun t => passes_as_specified net cfg (fst t) (snd t))
                   (turns net cfg (filter keep_candidate data) s0))).
Proof.
  intros H. destruct (fetchUndervaluedStocks_run net cfg _ _ _ _ H)
    as (data & s0 & Hg & Hn & Ha).
  destruct (enrich_all_spec net cfg _ s0 Hn) as (out' & s2 & Ha' & Hk & _).
  rewrite Ha in Ha'. inversion Ha'; subst out' s2.
  exists data, s0. split; [exact Hg|]. split; [exact Hk|].
  intros Hp. rewrite Hk. f_equal. apply filter_ext_in. intros t Ht.
  apply passes_priced. rewrite forallb_forall in Hp. apply Hp.
  rewrite <- (turns_candidates net cfg (filter keep_candidate data) s0).
  now apply in_map.
Qed.

End Enrichment.

Section NotifierEdges.

Context {World : Type}.
Variable net : Services World.
Variable cfg : Config.

Lemma format_entries_unscored (l : list JsVal) (i : nat) :
  forallb has_score l = false -> format_entries i l = inl TypeError.
Proof.
  intros H. destruct (format_entries i l) as [e|entries] eqn:E.
  - now rewrite (format_entries_error _ _ _ E).
  - apply format_entries_inr, printable_has_score in E. congruence.
Qed.

(** An element without a numeric score makes the notifier throw a
    TypeError while it formats the message: no request is made and
    nothing is logged. *)
Theorem notifyDiscord_unscored (l : list JsVal) (st : World * list LogLine) :
  forallb has_score l = false ->
  notifyDiscord net cfg (JArr l) st = (inl TypeError, st).
Proof.
  intros H. destruct l as [|first more]; [discriminate|].
  unfold notifyDiscord, bind, lift. now rewrite (format_entries_unscored _ 0%nat H).
Qed.

End NotifierEdges.

(** A world that records the addresses requested, over the data service
    of the examples. *)
Definition recording_net (screener : JsVal) (answer : string) : Services (list string) :=
  {| axios_get := fun url w => (fst (example_get screener url tt), (w ++ [url])%list);
     axios_post := fun url _ _ w => (inr 200, (w ++ [url])%list);
     openai_create := fun _ w =>
       (inr {| choices := [{| message := Some {| content := Some answer |} |}] |}, w) |}.


Lemma fetch_outcome_witness :
  let net := example_net example_screener example_answer (inr 200) in
  forallb (fun kv : string * JsVal => converts (snd kv)) [] = true /\
  exists out st', fetchUndervaluedStocks net example_cfg [] start = (inr out, st').
Proof.
  cbv zeta. split; [reflexivity|].
  pose proof (fetchUndervaluedStocks_outcome
                (example_net example_screener example_answer (inr 200)) example_cfg
                [] tt [] eq_refl) as H.
  cbn [axios_get example_net] in H.
  replace (example_get example_screener (screenerUrl example_cfg []) tt)
    with (@inr Exn JsVal example_screener, tt) in H by (vm_compute; reflexivity).
  unfold example_screener in H. destruct H as [_ H].
  apply H; vm_compute; reflexivity.
Defined.

Lemma fetch_selection_witness :
  let net := example_net example_screener example_answer (inr 200) in
  exists out data s0,
    fst (fetchUndervaluedStocks net example_cfg [] start) = inr out /\
    map symbol out = [JStr "AAA"] /\
    http_get net (screenerUrl example_cfg []) start = (inr (JArr data), s0) /\
    map stock_key out
    = map (fun t => candidate_key (fst t))
          (filter (fun t => passes_as_specified net example_cfg (fst t) (snd t))
                  (turns net example_cfg (filter keep_candidate data) s0)).
Proof.
  cbv zeta.
  set (net := example_net example_screener example_answer (inr 200)).
  destruct (fetchUndervaluedStocks net example_cfg [] start) as [[e|out] st'] eqn:E;
    [vm_compute in E; discriminate E|].
  destruct (fetchUndervaluedStocks_selection net example_cfg [] start out st' E)
    as (data & s0 & H1 & _ & H2).
  exists out, data, s0. split; [reflexivity|]. split.
  - vm_compute in E. inversion E. reflexivity.
  - split; [exact H1|]. apply H2.
    assert (Hd : data = [candidate "AAA" [("price", JNum 100)];
                         candidate "ETF" [("price", JNum 100); ("isEtf", JBool true)];
                         candidate "BBB" [("price", JNum 120)]])
      by (vm_compute in H1; inversion H1; reflexivity).
    rewrite Hd. reflexivity.
Defined.

Lemma fetch_invariant_witness :
  let net := example_net example_screener example_answer (inr 200) in
  exists out, fst (fetchUndervaluedStocks net example_cfg [] start) = inr out /\
    List.length out = 1%nat /\
    Forall (fun s => (0 <? ToNumber (targetPrice s))%float = true) out.
Proof.
  cbv zeta.
  set (net := example_net example_screener example_answer (inr 200)).
  destruct (fetchUndervaluedStocks net example_cfg [] start) as [[e|out] st'] eqn:E;
    [vm_compute in E; discriminate E|].
  exists out. split; [reflexivity|]. split.
  - vm_compute in E. inversion E. reflexivity.
  - destruct (fetchUndervaluedStocks_invariant net example_cfg [] start out st' E)
      as (data & s0 & _ & Hf & _).
    eapply Forall_impl; [|exact Hf]. intros s (stock & _ & _ & _ & _ & H & _). exact H.
Defined.

Lemma notify_unscored_witness :
  let l := [JObj [("symbol", JStr "A"); ("score", JStr "9")]] in
  forallb has_score l = false /\
  notifyDiscord (recording_net example_screener example_answer) example_cfg (JArr l)
                ([], [])
  = (inl TypeError, ([], [])).
Proof.
  cbv zeta. split; [reflexivity|].
  exact (notifyDiscord_unscored (recording_net example_screener example_answer)
           example_cfg [JObj [("symbol", JStr "A"); ("score", JStr "9")]] ([], [])
           eq_refl).
Defined.

(** ** The text the scan hands to the parser *)

Lemma span_ws_spec (s w r : string) :
  span_ws s = (w, r) -> s = w ++ r /\ span_ws w = (w, "").
Proof.
  assert (H : forall n s, (String.length s <= n)%nat ->
                forall w r, span_ws s = (w, r) -> s = w ++ r /\ span_ws w = (w, "")).
  { clear s w r. induction n as [|n IH]; intros s Hlen w r E.
    - destruct s; [|cbn [String.length] in Hlen; lia].
      inversion E; subst. split; reflexivity.
    - destruct s as [|c1 s1]; [inversion E; subst; split; reflexivity|].
      cbn [String.length] in Hlen. cbn [span_ws] in E.
      destruct (is_ws1 c1) eqn:H1.
      { destruct (span_ws s1) as [w' r'] eqn:E1. inversion E; subst.
        destruct (IH s1 ltac:(lia) _ _ E1) as [-> Hw]. split; [reflexivity|].
        cbn [span_ws]. now rewrite H1, Hw. }
      destruct s1 as [|c2 s2]; [inversion E; subst; split; reflexivity|].
      cbn [String.length] in Hlen.
      destruct (is_ws2 c1 c2) eqn:H2.
      { destruct (span_ws s2) as [w' r'] eqn:E2. inversion E; subst.
        destruct (IH s2 ltac:(lia) _ _ E2) as [-> Hw]. split; [reflexivity|].
        cbn [span_ws]. now rewrite H1, H2, Hw. }
      destruct s2 as [|c3 s3]; [inversion E; subst; split; reflexivity|].
      cbn [String.length] in Hlen.
      destruct (is_ws3 c1 c2 c3) eqn:H3.
      { destruct (span_ws s3) as [w' r'] eqn:E3. inversion E; subst.
        destruct (IH s3 ltac:(lia) _ _ E3) as [-> Hw]. split; [reflexivity|].
        cbn [span_ws]. now rewrite H1, H2, H3, Hw. }
      inversion E; subst. split; reflexivity. }
  exact (H (String.length s) s (le_n _) w r).
Qed.

(** A text made of white space alone. *)
Definition white (w : string) : Prop := span_ws w = (w, "").

Lemma match_close_spec (s t : string) :
  match_close s = Some t ->
  exists w post, s = w ++ "]" ++ post /\ t = w ++ "]" /\ white w.
Proof.
  unfold match_close. destruct (span_ws s) as [w r] eqn:E.
  destruct (span_ws_spec _ _ _ E) as [-> Hw].
  destruct r as [|c post]; [discriminate|].
  destruct (Ascii.eqb c "]") eqn:Hc.
  - apply Ascii.eqb_eq in Hc; subst c. intros H. inversion H; subst.
    exists w, post. auto.
  - destruct c as [[] [] [] [] [] [] [] []]; try discriminate Hc; discriminate.
Qed.

(** The body taken by the lazy star ends at the first closing brace that
    white space and a closing bracket follow. *)
Lemma match_body_spec (r b : string) :
  match_body r = Some b ->
  exists body w post,
    r = body ++ "}" ++ w ++ "]" ++ post /\ b = body ++ "}" ++ w ++ "]" /\ white w /\
    forall b1 b2, body = b1 ++ String "}" b2 ->
      match_close (b2 ++ "}" ++ w ++ "]" ++ post) = None.
Proof.
  revert b; induction r as [|c r IH]; intros b; [discriminate|].
  cbn [match_body].
  assert (Hrec : option_map (String c) (match_body r) = Some b ->
                 (Ascii.eqb c "}" = true -> match_close r = None) ->
                 exists body w post,
                   String c r = body ++ "}" ++ w ++ "]" ++ post /\
                   b = body ++ "}" ++ w ++ "]" /\ white w /\
                   forall b1 b2, body = b1 ++ String "}" b2 ->
                     match_close (b2 ++ "}" ++ w ++ "]" ++ post) = None).
  { destruct (match_body r) as [b'|]; [|discriminate].
    intros H Hc. inversion H; subst b.
    destruct (IH b' eq_refl) as (body & w & post & -> & -> & Hw & Hmin).
    exists (String c body), w, post. repeat split; try assumption.
    intros b1 b2 Hb. destruct b1 as [|c1 b1]; cbn [append] in Hb; inversion Hb; subst.
    - apply Hc. reflexivity.
    - apply (Hmin b1 b2). reflexivity. }
  destruct (Ascii.eqb c "}") eqn:Hc.
  - destruct (match_close r) as [t|] eqn:Ht.
    + intros H. inversion H; subst b. apply Ascii.eqb_eq in Hc; subst c.
      destruct (match_close_spec _ _ Ht) as (w & post & -> & -> & Hw).
      exists "", w, post. repeat split; try assumption.
      intros b1 b2 Hb. destruct b1; discriminate Hb.
    + intros H. apply Hrec; auto.
  - intros H. apply Hrec; [exact H|discriminate].
Qed.

Lemma match_here_spec (s m : string) :
  match_here s = Some m ->
  exists w1 body w2 post,
    s = m ++ post /\ m = "[" ++ w1 ++ "{" ++ body ++ "}" ++ w2 ++ "]" /\
    white w1 /\ white w2 /\
    forall b1 b2, body = b1 ++ String "}" b2 ->
      match_close (b2 ++ "}" ++ w2 ++ "]" ++ post) = None.
Proof.
  destruct s as [|c s1]; [discriminate|].
  destruct (Ascii.eqb c "[") eqn:Hc;
    [|now rewrite (match_here_other c s1 Hc)].
  apply Ascii.eqb_eq in Hc; subst c. cbn [match_here].
  destruct (span_ws s1) as [w r] eqn:E.
  destruct (span_ws_spec _ _ _ E) as [-> Hw].
  destruct r as [|c r']; [discriminate|].
  destruct (Ascii.eqb c "{") eqn:Hc.
  - apply Ascii.eqb_eq in Hc; subst c.
    destruct (match_body r') as [b|] eqn:Hb; [|discriminate].
    intros H. inversion H; subst m.
    destruct (match_body_spec _ _ Hb) as (body & w2 & post & -> & -> & Hw2 & Hmin).
    exists w, body, w2, post.
    split; [|split; [reflexivity|split; [exact Hw|split; [exact Hw2|exact Hmin]]]].
    repeat (first [rewrite str_app_assoc | progress cbn [append]]). reflexivity.
  - destruct c as [[] [] [] [] [] [] [] []]; try discriminate Hc; discriminate.
Qed.

(** ** The pattern, as the language defines it *)

(** The code points that [\s] matches: WhiteSpace and LineTerminator. *)
Definition space_codes : list Z :=
  [9; 10; 11; 12; 13; 32; 160; 5760; 8192; 8193; 8194; 8195; 8196; 8197; 8198;
   8199; 8200; 8201; 8202; 8232; 8233; 8239; 8287; 12288; 65279].

(** Their UTF-8 texts. *)
Definition space_chars : list string :=
  map (fun cp => string_of_list_ascii (utf8_of_code cp)) space_codes.

(** A text that [\s*] matches: white-space characters one after
    another. *)
Inductive spaces : string -> Prop :=
  | spaces_nil : spaces ""
  | spaces_cons (c w : string) : In c space_chars -> spaces w -> spaces (c ++ w).

(** A text that the whole pattern [\[\s*{[\s\S]*?}\s*]] matches: the
    body is any text at all. *)
Definition matches_pattern (m : string) : Prop :=
  exists w1 body w2,
    spaces w1 /\ spaces w2 /\ m = "[" ++ w1 ++ "{" ++ body ++ "}" ++ w2 ++ "]".

Definition is_space_char (c : string) : bool := existsb (String.eqb c) space_chars.

Lemma is_space_char_In (c : string) : is_space_char c = true -> In c space_chars.
Proof.
  unfold is_space_char. intros H. apply existsb_exists in H as (x & Hx & E).
  apply String.eqb_eq in E. now subst.
Qed.

Lemma In_is_space_char (c : string) : In c space_chars -> is_space_char c = true.
Proof.
  unfold is_space_char. intros H. apply existsb_exists. exists c.
  split; [exact H|apply String.eqb_refl].
Qed.

Lemma span_ws_1 (c : ascii) (x : string) :
  is_ws1 c = true ->
  span_ws (String c x) = (String c (fst (span_ws x)), snd (span_ws x)).
Proof. intros H. cbn [span_ws]. rewrite H. now destruct (span_ws x). Qed.

Lemma span_ws_2 (c1 c2 : ascii) (x : string) :
  is_ws1 c1 = false -> is_ws2 c1 c2 = true ->
  span_ws (String c1 (String c2 x))
  = (String c1 (String c2 (fst (span_ws x))), snd (span_ws x)).
Proof. intros H1 H2. cbn [span_ws]. rewrite H1, H2. now destruct (span_ws x). Qed.

Lemma span_ws_3 (c1 c2 c3 : ascii) (x : string) :
  is_ws1 c1 = false -> is_ws2 c1 c2 = false -> is_ws3 c1 c2 c3 = true ->
  span_ws (String c1 (String c2 (String c3 x)))
  = (String c1 (String c2 (String c3 (fst (span_ws x)))), snd (span_ws x)).
Proof. intros H1 H2 H3. cbn [span_ws]. rewrite H1, H2, H3. now destruct (span_ws x). Qed.

(** The scan takes every white-space character. *)
Lemma span_ws_space_char (c x : string) :
  In c space_chars ->
  span_ws (c ++ x) = (c ++ fst (span_ws x), snd (span_ws x)).
Proof.
  intros H. vm_compute in H.
  repeat (destruct H as [<-|H]; [cbn [append];
    first [apply span_ws_1; reflexivity
          |apply span_ws_2; reflexivity
          |apply span_ws_3; reflexivity]|]).
  contradiction.
Qed.

Fixpoint free_of (a : ascii) (s : string) : bool :=
  match s with
  | EmptyString => true
  | String c s' => negb (Ascii.eqb c a) && free_of a s'
  end.

Lemma free_of_app (a : ascii) (x y : string) :
  free_of a (x ++ y) = free_of a x && free_of a y.
Proof.
  induction x as [|c x IH]; cbn [append free_of]; [reflexivity|].
  now rewrite IH, andb_assoc.
Qed.

Lemma space_chars_free : forallb (free_of "}") space_chars = true.
Proof. vm_compute. reflexivity. Qed.

Lemma spaces_free (w : string) : spaces w -> free_of "}" w = true.
Proof.
  induction 1 as [|c w Hc _ IH]; [reflexivity|].
  rewrite free_of_app, IH, andb_true_r.
  pose proof space_chars_free as H. rewrite forallb_forall in H. now apply H.
Qed.

(** The scan stops at a brace and at a bracket: what it has taken is the
    white space in front. *)
Lemma span_ws_spaces (w : string) (c : ascii) (x : string) :
  spaces w -> Ascii.eqb c "{" || Ascii.eqb c "]" = true ->
  span_ws (w ++ String c x) = (w, String c x).
Proof.
  intros Hw Hc. induction Hw as [|c0 w Hc0 _ IH].
  - cbn [append]. apply span_ws_stop;
      destruct c as [[] [] [] [] [] [] [] []]; try discriminate Hc; reflexivity.
  - rewrite str_app_assoc, (span_ws_space_char _ _ Hc0), IH. reflexivity.
Qed.

Lemma is_ws1_space (c : ascii) : is_ws1 c = true -> In (String c "") space_chars.
Proof.
  intros H. apply is_space_char_In.
  destruct c as [[] [] [] [] [] [] [] []]; try discriminate H; vm_compute; reflexivity.
Qed.

Lemma is_ws2_space (c1 c2 : ascii) :
  is_ws2 c1 c2 = true -> In (String c1 (String c2 "")) space_chars.
Proof.
  unfold is_ws2, byte. intros H. apply andb_prop in H as [H1 H2].
  apply N.eqb_eq in H1, H2.
  rewrite <- (ascii_N_embedding c1), <- (ascii_N_embedding c2), H1, H2.
  apply is_space_char_In. vm_compute. reflexivity.
Qed.

Lemma is_ws3_space (c1 c2 c3 : ascii) :
  is_ws3 c1 c2 c3 = true -> In (String c1 (String c2 (String c3 ""))) space_chars.
Proof.
  intros H. apply is_space_char_In.
  destruct c1 as [[] [] [] [] [] [] [] []]; try (cbv in H; discriminate H);
    destruct c2 as [[] [] [] [] [] [] [] []]; try (cbv in H; discriminate H);
    destruct c3 as [[] [] [] [] [] [] [] []]; try (cbv in H; discriminate H);
    vm_compute; reflexivity.
Qed.

(** What the scan takes is white space. *)
Lemma span_ws_is_spaces (s w r : string) : span_ws s = (w, r) -> spaces w.
Proof.
  assert (H : forall n s, (String.length s <= n)%nat ->
                forall w r, span_ws s = (w, r) -> spaces w).
  { clear s w r. induction n as [|n IH]; intros s Hlen w r E.
    - destruct s; [|cbn [String.length] in Hlen; lia].
      inversion E; subst. constructor.
    - destruct s as [|c1 s1]; [inversion E; subst; constructor|].
      cbn [String.length] in Hlen. cbn [span_ws] in E.
      destruct (is_ws1 c1) eqn:H1.
      { destruct (span_ws s1) as [w' r'] eqn:E1. inversion E; subst.
        apply (spaces_cons (String c1 "") w'); [now apply is_ws1_space|].
        apply (IH s1 ltac:(lia) _ _ E1). }
      destruct s1 as [|c2 s2]; [inversion E; subst; constructor|].
      cbn [String.length] in Hlen.
      destruct (is_ws2 c1 c2) eqn:H2.
      { destruct (span_ws s2) as [w' r'] eqn:E2. inversion E; subst.
        apply (spaces_cons (String c1 (String c2 "")) w'); [now apply is_ws2_space|].
        apply (IH s2 ltac:(lia) _ _ E2). }
      destruct s2 as [|c3 s3]; [inversion E; subst; constructor|].
      cbn [String.length] in Hlen.
      destruct (is_ws3 c1 c2 c3) eqn:H3.
      { destruct (span_ws s3) as [w' r'] eqn:E3. inversion E; subst.
        apply (spaces_cons (String c1 (String c2 (String c3 ""))) w');
          [now apply is_ws3_space|].
        apply (IH s3 ltac:(lia) _ _ E3). }
      inversion E; subst. constructor. }
  exact (H (String.length s) s (le_n _) w r).
Qed.

Lemma white_spaces (w : string) : white w -> spaces w.
Proof. unfold white. apply span_ws_is_spaces. Qed.

Lemma str_length_free_prefix (a : ascii) (t p y q : string) :
  t ++ p = y ++ String a q -> free_of a t = true ->
  (String.length t <= String.length y)%nat.
Proof.
  revert y; induction t as [|c t IH]; intros y E F; cbn [String.length]; [lia|].
  cbn [free_of] in F. apply andb_prop in F as [Fc Ft].
  destruct y as [|d y]; cbn [append] in E; inversion E; subst.
  - rewrite Ascii.eqb_refl in Fc. discriminate Fc.
  - cbn [String.length]. apply le_n_S. now apply IH.
Qed.

(** [\s*\]] at the front, against the pattern. *)
Lemma match_close_sound (x t : string) :
  match_close x = Some t ->
  exists w post, x = t ++ post /\ t = w ++ "]" /\ spaces w.
Proof.
  intros H. destruct (match_close_spec _ _ H) as (w & post & -> & -> & Hw).
  exists w, post. split; [now rewrite str_app_assoc|].
  split; [reflexivity|now apply white_spaces].
Qed.

Lemma match_close_complete (w post : string) :
  spaces w -> match_close (w ++ "]" ++ post) = Some (w ++ "]").
Proof.
  intros Hw. unfold match_close. cbn [append].
  now rewrite (span_ws_spaces w "]" post Hw eq_refl).
Qed.

(** The lazy body, against the pattern: whenever a closing brace, white
    space and a closing bracket follow some body, the scan finds a match
    that is no longer. *)
Lemma match_body_complete (body w post : string) :
  spaces w ->
  exists b, match_body (body ++ "}" ++ w ++ "]" ++ post) = Some b /\
            (String.length b <= String.length (body ++ "}" ++ w ++ "]"))%nat.
Proof.
  intros Hw. induction body as [|c body IH]; cbn [append match_body].
  - change (Ascii.eqb "}" "}") with true. cbv iota.
    change (w ++ String "]" post) with (w ++ "]" ++ post).
    rewrite (match_close_complete w post Hw).
    eexists. split; [reflexivity|]. cbn [String.length]. lia.
  - destruct IH as (b & Hb & Hlen). cbn [append] in Hb.
    assert (Hrec : exists b0,
              option_map (String c) (match_body (body ++ String "}" (w ++ String "]" post)))
              = Some b0 /\
              (String.length b0
               <= String.length (String c (body ++ String "}" (w ++ "]"))))%nat).
    { rewrite Hb. eexists. split; [reflexivity|]. cbn [String.length append] in *. lia. }
    destruct (Ascii.eqb c "}"); [|exact Hrec].
    destruct (match_close (body ++ String "}" (w ++ String "]" post))) as [t|] eqn:Ht;
      [|exact Hrec].
    eexists. split; [reflexivity|].
    destruct (match_close_sound _ _ Ht) as (w0 & post0 & E & -> & Hw0).
    assert (F : free_of "}" (w0 ++ "]") = true)
      by now rewrite free_of_app, (spaces_free _ Hw0).
    pose proof (str_length_free_prefix "}" _ _ _ _ (eq_sym E) F) as L.
    cbn [String.length]. rewrite (str_length_app body). lia.
Qed.

Lemma match_here_sound (r m : string) :
  match_here r = Some m -> exists post, r = m ++ post /\ matches_pattern m.
Proof.
  intros H.
  destruct (match_here_spec _ _ H) as (w1 & body & w2 & post & E & Hm & H1 & H2 & _).
  exists post. split; [exact E|].
  exists w1, body, w2. auto using white_spaces.
Qed.

Lemma match_here_complete (m' post' : string) :
  matches_pattern m' ->
  exists m, match_here (m' ++ post') = Some m /\
            (String.length m <= String.length m')%nat.
Proof.
  intros (w1 & body & w2 & H1 & H2 & ->).
  assert (E : ("[" ++ w1 ++ "{" ++ body ++ "}" ++ w2 ++ "]") ++ post'
              = String "[" (w1 ++ String "{" (body ++ "}" ++ w2 ++ "]" ++ post'))).
  { repeat (first [rewrite str_app_assoc | progress cbn [append]]). reflexivity. }
  rewrite E. cbn [match_here].
  rewrite (span_ws_spaces w1 "{" _ H1 eq_refl).
  destruct (match_body_complete body w2 post' H2) as (b & Hb & Hlen).
  rewrite Hb. eexists. split; [reflexivity|].
  repeat (first [rewrite str_length_app in Hlen
                | progress cbn [String.length append] in Hlen]).
  repeat (first [rewrite str_length_app | progress cbn [String.length append]]).
  lia.
Qed.

(** The scan against the pattern.  What it returns is an occurrence of
    the pattern in the content; no occurrence starts earlier; no
    occurrence that starts at the same place is shorter, which is the
    choice of the lazy star; and it returns nothing only when the pattern
    occurs nowhere in the content. *)
Theorem regex_match_leftmost_shortest (s : string) :
  match regex_match s with
  | Some m =>
      exists pre post,
        s = pre ++ m ++ post /\ matches_pattern m /\
        forall pre' m' post',
          s = pre' ++ m' ++ post' -> matches_pattern m' ->
          (String.length pre <= String.length pre')%nat /\
          (String.length pre' = String.length pre ->
           (String.length m <= String.length m')%nat)
  | None =>
      forall pre' m' post', s = pre' ++ m' ++ post' -> ~ matches_pattern m'
  end.
Proof.
  induction s as [|c s IH].
  - cbn [regex_match match_here]. intros pre' m' post' E (w1 & body & w2 & _ & _ & ->).
    destruct pre'; discriminate E.
  - rewrite regex_match_cons.
    destruct (match_here (String c s)) as [m|] eqn:Hm.
    + destruct (match_here_sound _ _ Hm) as (post & E & Hp).
      exists "", post. split; [exact E|]. split; [exact Hp|].
      intros pre' m' post' E' Hp'. split; [cbn [String.length]; lia|].
      intros L. destruct pre'; [|discriminate L]. cbn [append] in E'.
      destruct (match_here_complete m' post' Hp') as (m0 & H0 & L0).
      rewrite <- E', Hm in H0. inversion H0; subst. exact L0.
    + assert (Hnone : forall m' post', String c s = m' ++ post' -> ~ matches_pattern m').
      { intros m' post' E' Hp'.
        destruct (match_here_complete m' post' Hp') as (m0 & H0 & _).
        rewrite <- E', Hm in H0. discriminate H0. }
      destruct (regex_match s) as [m|].
      * destruct IH as (pre & post & -> & Hp & Hleft).
        exists (String c pre), post. split; [reflexivity|]. split; [exact Hp|].
        intros pre' m' post' E' Hp'. destruct pre' as [|d pre'].
        { cbn [append] in E'.
          now destruct (Hnone _ _ E' Hp'). }
        cbn [append] in E'. inversion E'; subst d.
        destruct (Hleft pre' m' post' H1 Hp') as [L1 L2].
        cbn [String.length]. split; [lia|]. intros L. apply L2. lia.
      * intros pre' m' post' E' Hp'. destruct pre' as [|d pre'].
        { cbn [append] in E'.
          now destruct (Hnone _ _ E' Hp'). }
        cbn [append] in E'. inversion E'; subst d. exact (IH pre' m' post' H1 Hp').
Qed.

(** ** What the parser makes of a match *)

(** A byte that cannot start a JSON token and is no JSON white space:
    the white space of the pattern that JSON does not know, and every
    byte of a character outside ASCII. *)
Definition not_json_start (c : ascii) : bool :=
  (is_ws1 c && negb (json_ws c)) || (128 <=? byte c)%N.

Lemma not_json_start_facts (c : ascii) :
  not_json_start c = true ->
  json_ws c = false /\ json_punct c = None /\ Ascii.eqb c dquote = false /\
  forall t, json_word (String c t) = None.
Proof.
  destruct c as [[] [] [] [] [] [] [] []]; intros H; try discriminate H;
    repeat split; reflexivity.
Qed.

Lemma lex_word_fail (s : string) (acc : list ascii) :
  (forall extra, word_token (extra ++ acc) = None) -> lex (LWord acc) s = None.
Proof.
  revert acc; induction s as [|c s IH]; intros acc H;
    pose proof (H []) as H0; cbn [app] in H0.
  - cbn [lex]. now rewrite H0.
  - cbn [lex].
    destruct (json_ws c || Ascii.eqb c dquote ||
              match json_punct c with Some _ => true | None => false end).
    + now rewrite H0.
    + apply IH. intros extra.
      replace (extra ++ c :: acc)%list with ((extra ++ [c]) ++ acc)%list
        by now rewrite <- app_assoc.
      apply H.
Qed.

Lemma lex_not_json_start (c : ascii) (s : string) :
  not_json_start c = true -> lex LIdle (String c s) = None.
Proof.
  intros H. destruct (not_json_start_facts c H) as (H1 & H2 & H3 & H4).
  cbn [lex]. rewrite H1, H2, H3. apply lex_word_fail.
  intros extra. unfold word_token. rewrite rev_app_distr. cbn [rev app string_of_list_ascii].
  apply H4.
Qed.

Lemma is_ws1_start (c : ascii) :
  is_ws1 c = true -> json_ws c = true \/ not_json_start c = true.
Proof.
  destruct c as [[] [] [] [] [] [] [] []]; intros H; try discriminate H; auto.
Qed.

Lemma is_ws2_start (c1 c2 : ascii) : is_ws2 c1 c2 = true -> not_json_start c1 = true.
Proof.
  unfold is_ws2. intros H. apply andb_prop in H as [H _]. apply N.eqb_eq in H.
  unfold not_json_start. rewrite H. apply orb_true_r.
Qed.

Lemma is_ws3_start (c1 c2 c3 : ascii) :
  is_ws3 c1 c2 c3 = true -> not_json_start c1 = true.
Proof.
  destruct c1 as [[] [] [] [] [] [] [] []]; intros H; try reflexivity;
    cbv in H; discriminate H.
Qed.

(** White space before a brace: the lexer skips it, or fails on it. *)
Lemma lex_white_brace (w rest : string) (ts : list token) :
  white w -> lex LIdle (w ++ String "{" rest) = Some ts ->
  exists ts', ts = TLBrace :: ts' /\ lex LIdle rest = Some ts'.
Proof.
  unfold white.
  assert (H : forall n w, (String.length w <= n)%nat -> span_ws w = (w, "") ->
                lex LIdle (w ++ String "{" rest) = Some ts ->
                exists ts', ts = TLBrace :: ts' /\ lex LIdle rest = Some ts').
  { clear w. induction n as [|n IH]; intros w Hlen Hw Hl.
    - destruct w; [|cbn [String.length] in Hlen; lia].
      cbn [append lex] in Hl. change (json_ws "{") with false in Hl.
      cbn [json_punct] in Hl. destruct (lex LIdle rest) as [ts'|]; [|discriminate Hl].
      inversion Hl. eauto.
    - destruct w as [|c1 w1].
      { cbn [append lex] in Hl. change (json_ws "{") with false in Hl.
        cbn [json_punct] in Hl. destruct (lex LIdle rest) as [ts'|]; [|discriminate Hl].
        inversion Hl. eauto. }
      cbn [String.length] in Hlen. cbn [span_ws] in Hw. cbn [append] in Hl.
      destruct (is_ws1 c1) eqn:H1.
      { destruct (span_ws w1) as [w' r'] eqn:E1. inversion Hw; subst w' r'.
        destruct (is_ws1_start c1 H1) as [Hj|Hb];
          [|now rewrite (lex_not_json_start _ _ Hb) in Hl].
        cbn [lex] in Hl. rewrite Hj in Hl. apply (IH w1); [lia|exact E1|exact Hl]. }
      destruct w1 as [|c2 w2]; [discriminate Hw|].
      destruct (is_ws2 c1 c2) eqn:H2.
      { now rewrite (lex_not_json_start _ _ (is_ws2_start _ _ H2)) in Hl. }
      destruct w2 as [|c3 w3]; [discriminate Hw|].
      destruct (is_ws3 c1 c2 c3) eqn:H3; [|discriminate Hw].
      now rewrite (lex_not_json_start _ _ (is_ws3_start _ _ _ H3)) in Hl. }
  exact (H (String.length w) w (le_n _)).
Qed.

(** The waiting containers end in the array of the result, and the first
    element of that array is an object, finished or being read; [inner]
    tells whether the value being read on top of the containers is an
    object. *)
Fixpoint first_object (st : list frame) (inner : bool) : bool :=
  match st with
  | [] => false
  | f :: st' =>
      match st' with
      | [] =>
          match f with
          | FArr [] => inner
          | FArr (JObj _ :: _) => true
          | _ => false
          end
      | _ => first_object st' (match f with FObj _ _ => true | FArr _ => false end)
      end
  end.

Definition array_of_object (v : JsVal) : bool :=
  match v with JArr (JObj _ :: _) => true | _ => false end.

Definition reads_array_of_object (p : pstate) : bool :=
  match p with
  | PValue st _ => first_object st false
  | PKey st _ _ | PColon st _ _ | PObjNext st _ => first_object st true
  | PArrNext [] done => array_of_object (JArr done)
  | PArrNext st _ => first_object st false
  | PDone v => array_of_object v
  end.

Lemma first_object_inner (st : list frame) :
  first_object st false = true -> first_object st true = true.
Proof.
  destruct st as [|f [|g st]]; cbn [first_object]; auto.
  destruct f as [[|[] ?]|]; auto.
Qed.

Lemma complete_reads (st : list frame) (v : JsVal) (inner : bool) :
  first_object st inner = true ->
  (inner = true -> exists o, v = JObj o) ->
  reads_array_of_object (complete st v) = true.
Proof.
  destruct st as [|[done|done key] st]; [discriminate| |].
  - destruct st as [|g st].
    + cbn [first_object complete reads_array_of_object array_of_object].
      destruct done as [|[] done]; try discriminate; [|reflexivity].
      intros Hi Hv. destruct (Hv Hi) as [o ->]. reflexivity.
    + intros H _. exact H.
  - destruct st as [|g st]; [discriminate|]. intros H _. exact H.
Qed.

Lemma parse_step_value (st : list frame) (c : bool) (t : token) :
  parse_step (PValue st c) t
  = match t with
    | TString s => Some (complete st (JStr s))
    | TNumber x => Some (complete st (JNum x))
    | TTrue => Some (complete st (JBool true))
    | TFalse => Some (complete st (JBool false))
    | TNull => Some (complete st JNull)
    | TLBrack => Some (PValue (FArr [] :: st) true)
    | TLBrace => Some (PKey st [] true)
    | TRBrack =>
        match st, c with
        | FArr [] :: st', true => Some (complete st' (JArr []))
        | _, _ => None
        end
    | _ => None
    end.
Proof. destruct st as [|[[|]|] ?], c, t; reflexivity. Qed.

Lemma parse_step_reads (p p' : pstate) (t : token) :
  reads_array_of_object p = true -> parse_step p t = Some p' ->
  reads_array_of_object p' = true.
Proof.
  assert (Hv : forall st v, first_object st false = true ->
                 reads_array_of_object (complete st v) = true).
  { intros st v H. apply (complete_reads st v false H). discriminate. }
  assert (Ho : forall st o, first_object st true = true ->
                 reads_array_of_object (complete st (JObj o)) = true).
  { intros st o H. apply (complete_reads st (JObj o) true H). eauto. }
  assert (Ha : forall st done, reads_array_of_object (PArrNext st done) = true ->
                 reads_array_of_object (complete st (JArr done)) = true).
  { intros [|f st] done H; [exact H|]. now apply Hv. }
  destruct p as [st c|st done|st done c|st done k|st done|v].
  - cbn [reads_array_of_object]. intros H. rewrite parse_step_value.
    destruct t; intros E; try discriminate E;
      try (injection E as <-; now apply Hv).
    + injection E as <-. destruct st; [discriminate H|exact H].
    + destruct st as [|[[|]|] st]; try discriminate E.
      destruct c; [|discriminate E]. injection E as <-.
      destruct st as [|g st]; [discriminate H|]. now apply Hv.
    + injection E as <-. now apply first_object_inner.
  - intros H. destruct t; cbn [parse_step]; intros E; try discriminate E;
      injection E as <-.
    + now apply Ha.
    + destruct st as [|g st]; exact H.
  - cbn [reads_array_of_object]. intros H.
    destruct c, t; cbn [parse_step]; intros E; try discriminate E;
      injection E as <-; try exact H; now apply Ho.
  - cbn [reads_array_of_object]. intros H.
    destruct t; cbn [parse_step]; intros E; try discriminate E.
    injection E as <-. destruct st; [discriminate H|exact H].
  - cbn [reads_array_of_object]. intros H.
    destruct t; cbn [parse_step]; intros E; try discriminate E;
      injection E as <-; [now apply Ho|exact H].
  - intros _ E. destruct t; discriminate E.
Qed.

Lemma parse_tokens_reads (ts : list token) (p : pstate) (v : JsVal) :
  reads_array_of_object p = true -> parse_tokens p ts = Some v ->
  array_of_object v = true.
Proof.
  revert p; induction ts as [|t ts IH]; intros p H; cbn [parse_tokens].
  - destruct p; try discriminate. intros E. inversion E; subst. exact H.
  - destruct (parse_step p t) as [p'|] eqn:E; [|discriminate].
    apply IH. exact (parse_step_reads _ _ _ H E).
Qed.

(** Whatever [JSON.parse] makes of a bracket, white space and a brace
    followed by anything is an array whose first element is an object. *)
Lemma JSON_parse_bracket_brace (w rest : string) (v : JsVal) :
  white w -> JSON_parse ("[" ++ w ++ "{" ++ rest) = inr v ->
  exists o more, v = JArr (JObj o :: more).
Proof.
  intros Hw. unfold JSON_parse. cbn [append lex].
  change (json_ws "[") with false. cbn [json_punct].
  destruct (lex LIdle (w ++ String "{" rest)) as [ts|] eqn:Hl; [|discriminate].
  destruct (lex_white_brace _ _ _ Hw Hl) as (ts' & -> & _).
  cbn [cons_opt parse_tokens parse_step].
  destruct (parse_tokens (PKey [FArr []] [] true) ts') as [v'|] eqn:Hp; [|discriminate].
  intros E. inversion E; subst v'.
  pose proof (parse_tokens_reads ts' (PKey [FArr []] [] true) v eq_refl Hp) as Ha.
  destruct v as [| | | | |[|[] more]|]; try discriminate Ha. eauto.
Qed.

Lemma regex_match_here (s m : string) :
  regex_match s = Some m -> exists pre rest, s = pre ++ rest /\ match_here rest = Some m.
Proof.
  revert m; induction s as [|c s IH]; intros m; [discriminate|].
  rewrite regex_match_cons.
  destruct (match_here (String c s)) as [m'|] eqn:Hm.
  - intros H. inversion H; subst m'. exists "", (String c s). auto.
  - intros H. destruct (IH m H) as (pre & rest & -> & Hr).
    exists (String c pre), rest. auto.
Qed.

Lemma parsed_match_shape (c m : string) (v : JsVal) :
  regex_match c = Some m -> JSON_parse m = inr v ->
  exists o more, v = JArr (JObj o :: more).
Proof.
  intros Hm Hj. destruct (regex_match_here _ _ Hm) as (pre & rest & _ & Hh).
  destruct (match_here_spec _ _ Hh) as (w1 & body & w2 & post & _ & -> & Hw1 & _).
  exact (JSON_parse_bracket_brace w1 _ v Hw1 Hj).
Qed.

Lemma JSON_parse_error (s : string) (e : Exn) : JSON_parse s = inl e -> e = SyntaxError.
Proof.
  unfold JSON_parse. destruct (lex LIdle s) as [ts|]; [|congruence].
  destruct (parse_tokens (PValue [] false) ts); congruence.
Qed.

Section ScoringShape.

Context {World : Type}.
Variable net : Services World.

(** The run of [scoreAndExplain], whatever the model call gives. *)
Lemma scoreAndExplain_run (stocks : list Stock) (w : World) (log : list LogLine) :
  scoreAndExplain net stocks (w, log)
  = match openai_create net stocks w with
    | (inl e, w') => (inl e, (w', log))
    | (inr res, w') =>
        match response_content res with
        | inl e => (inl e, (w', log))
        | inr None | inr (Some EmptyString) =>
            (inl (Error "❌ No content received from OpenAI."), (w', log))
        | inr (Some c) =>
            match regex_match c with
            | None =>
                (inl no_match_error, (w', log ++ parse_failure_log no_match_error c)%list)
            | Some m =>
                match JSON_parse m with
                | inr v => (inr v, (w', log))
                | inl e => (inl e, (w', log ++ parse_failure_log e c)%list)
                end
            end
        end
    end.
Proof.
  destruct (openai_create net stocks w) as [[e|res] w'] eqn:Hc.
  - unfold scoreAndExplain. run_monad. now rewrite Hc.
  - destruct (response_content res) as [e|[c|]] eqn:Hr;
      try (unfold scoreAndExplain; run_monad; now rewrite Hc, Hr).
    destruct c as [|a c];
      [unfold scoreAndExplain; run_monad; now rewrite Hc, Hr|].
    apply (scoreAndExplain_content net stocks w w' log res _ Hc Hr). discriminate.
Qed.

(** When [scoreAndExplain] returns, its value is an array whose first
    element is an object: the pattern lets nothing else through the
    parser.  Nothing has been logged, and the world is the one the model
    call left. *)
Theorem scoreAndExplain_returns_array (stocks : list Stock)
    (st : World * list LogLine) (v : JsVal) (st' : World * list LogLine) :
  scoreAndExplain net stocks st = (inr v, st') ->
  (exists o more, v = JArr (JObj o :: more)) /\
  st' = (snd (openai_create net stocks (fst st)), snd st).
Proof.
  destruct st as [w log]. rewrite scoreAndExplain_run. cbn [fst snd].
  destruct (openai_create net stocks w) as [[e|res] w']; [discriminate|].
  destruct (response_content res) as [e|[[|a c]|]]; try discriminate.
  destruct (regex_match (String a c)) as [m|] eqn:Hm; [|discriminate].
  destruct (JSON_parse m) as [e|v'] eqn:Hj; [discriminate|].
  intros H. inversion H; subst. split; [|reflexivity].
  exact (parsed_match_shape _ _ _ Hm Hj).
Qed.

(** When [scoreAndExplain] throws, the world is the one the model call
    left.  When the call itself failed, when the reply had no first
    choice and when it had no content, nothing has been logged.  When the
    reply had content, what is thrown is the no-match error, the scan
    having found nothing, or the SyntaxError of the parser on the match;
    the two error lines of the [catch] have been written, the first with
    what is thrown and the second with the content of the reply. *)
Theorem scoreAndExplain_throws (stocks : list Stock)
    (st : World * list LogLine) (e : Exn) (st' : World * list LogLine) :
  scoreAndExplain net stocks st = (inl e, st') ->
  fst st' = snd (openai_create net stocks (fst st)) /\
  match fst (openai_create net stocks (fst st)) with
  | inl e0 => e = e0 /\ snd st' = snd st
  | inr res =>
      match response_content res with
      | inl _ => e = TypeError /\ snd st' = snd st
      | inr None | inr (Some EmptyString) =>
          e = Error "❌ No content received from OpenAI." /\ snd st' = snd st
      | inr (Some c) =>
          (e = no_match_error /\ regex_match c = None \/
           e = SyntaxError /\
           exists m, regex_match c = Some m /\ JSON_parse m = inl SyntaxError) /\
          snd st' = (snd st ++ parse_failure_log e c)%list
      end
  end.
Proof.
  destruct st as [w log]. rewrite scoreAndExplain_run. cbn [fst snd].
  destruct (openai_create net stocks w) as [[e0|res] w']; cbn [fst snd];
    [intros H; inversion H; subst; auto|].
  destruct (response_content res) as [e0|[[|a c]|]] eqn:Hr;
    try (intros H; inversion H; subst; now auto).
  - intros H. inversion H; subst. split; [reflexivity|]. split; [|reflexivity].
    unfold response_content in Hr. destruct (choices res); congruence.
  - destruct (regex_match (String a c)) as [m|] eqn:Hm.
    + destruct (JSON_parse m) as [e0|v'] eqn:Hj; [|discriminate].
      intros H. inversion H; subst. split; [reflexivity|]. split; [|reflexivity].
      right. pose proof (JSON_parse_error _ _ Hj) as ->. eauto.
    + intros H. inversion H; subst. split; [reflexivity|]. split; [|reflexivity].
      left. auto.
Qed.

End ScoringShape.

(** ** The whole run *)

Lemma sort_insert_perm (cmp : JsVal -> JsVal -> Exn + float) (x : JsVal)
    (l r : list JsVal) :
  sort_insert cmp x l = inr r -> Permutation (x :: l) r.
Proof.
  revert r; induction l as [|y l IH]; intros r; cbn [sort_insert].
  - intros H. inversion H. reflexivity.
  - destruct (cmp x y) as [e|v]; [discriminate|].
    destruct (0 <? v)%float.
    + destruct (sort_insert cmp x l) as [e|r']; [discriminate|].
      intros H. inversion H; subst. rewrite perm_swap. constructor.
      apply IH. reflexivity.
    + intros H. inversion H. reflexivity.
Qed.

Lemma sort_defined_perm (cmp : JsVal -> JsVal -> Exn + float) (l r : list JsVal) :
  sort_defined cmp l = inr r -> Permutation l r.
Proof.
  revert r; induction l as [|x l IH]; intros r; cbn [sort_defined].
  - intros H. inversion H. constructor.
  - destruct (sort_defined cmp l) as [e|s]; [discriminate|].
    intros H. apply (sort_insert_perm cmp x s r) in H.
    apply Permutation_trans with (x :: s); [constructor; apply IH; reflexivity|exact H].
Qed.

Lemma filter_split {A} (f : A -> bool) (l : list A) :
  Permutation l (filter (fun v => negb (f v)) l ++ filter f l).
Proof.
  induction l as [|x l IH]; cbn [filter]; [constructor|].
  destruct (f x); cbn [negb app].
  - apply Permutation_cons_app. exact IH.
  - constructor. exact IH.
Qed.

(** The sort rearranges: nothing is lost, nothing is added. *)
Lemma Array_sort_perm (cmp : JsVal -> JsVal -> Exn + float) (l s : list JsVal) :
  Array_sort cmp l = inr s -> Permutation l s.
Proof.
  unfold Array_sort.
  destruct (sort_defined cmp (filter (fun v => negb (is_undefined v)) l)) as [e|r] eqn:E;
    [discriminate|].
  intros H. inversion H; subst.
  apply Permutation_trans with (1 := filter_split is_undefined l).
  apply Permutation_app_tail. exact (sort_defined_perm cmp _ _ E).
Qed.

Lemma top3_of_some (l top : list JsVal) :
  top3_of (JArr l) = inr top ->
  exists rest, Permutation l (top ++ rest) /\
               List.length top = Nat.min 3 (List.length l).
Proof.
  unfold top3_of. destruct (Array_sort by_score l) as [e|s] eqn:E; [discriminate|].
  intros H. assert (Htop : top = firstn 3 s) by congruence.
  apply Array_sort_perm in E.
  exists (skipn 3 s). rewrite Htop, firstn_skipn. split; [exact E|].
  rewrite length_firstn, (Permutation_length E). reflexivity.
Qed.

Section WholeRun.

Context {World : Type}.
Variable net : Services World.
Variable cfg : Config.

Local Abbreviation St := (World * list LogLine)%type.

Lemma runBot_stages (params : list (string * JsVal)) (st : St) (r : JsVal) (st' : St) :
  runBot net cfg params st = (inr r, st') ->
  exists stocks s1 scored s2 top,
    fetchUndervaluedStocks net cfg params st = (inr stocks, s1) /\
    scoreAndExplain net stocks s1 = (inr scored, s2) /\
    top3_of scored = inr top /\
    notifyDiscord net cfg (JArr top) s2 = (inr tt, st') /\ r = JArr top.
Proof.
  unfold runBot. unfold bind at 1.
  destruct (fetchUndervaluedStocks net cfg params st) as [[e|stocks] s1] eqn:Hf;
    [discriminate|].
  unfold bind at 1.
  destruct (scoreAndExplain net stocks s1) as [[e|scored] s2] eqn:Hsc; [discriminate|].
  unfold bind at 1. unfold lift.
  destruct (top3_of scored) as [e|top] eqn:Ht; [discriminate|].
  unfold bind, ret.
  destruct (notifyDiscord net cfg (JArr top) s2) as [[e|[]] s3] eqn:Hn; [discriminate|].
  intros H. inversion H; subst. exists stocks, s1, scored, s2, top. auto.
Qed.

(** A notifier that returns on a non-empty list has formatted every
    element and posted the message, and the client has resolved with a
    2xx status: the world is the one the post left, and the one line
    written is no error. *)
Lemma notifyDiscord_sent (first : JsVal) (more : list JsVal) (st st' : St) :
  notifyDiscord net cfg (JArr (first :: more)) st = (inr tt, st') ->
  exists entries status line,
    format_entries 0 (first :: more) = inr entries /\
    axios_post net (discord_url cfg) (discord_headers cfg)
               (discord_payload (List.length (first :: more)) entries) (fst st)
    = (inr status, fst st') /\
    200 <= status < 300 /\
    snd st' = (snd st ++ [line])%list /\
    (level line = LLog \/ level line = LWarn).
Proof.
  destruct (format_entries 0 (first :: more)) as [e|entries] eqn:He.
  - unfold notifyDiscord, bind, lift. rewrite He. discriminate.
  - destruct st as [w log]. rewrite (notifyDiscord_run net cfg _ _ _ w log He).
    cbn [fst snd].
    destruct (axios_post net (discord_url cfg) (discord_headers cfg)
                (discord_payload (List.length (first :: more)) entries) w)
      as [[e|status] w'] eqn:Hp; [discriminate|].
    destruct ((200 <=? status) && (status <? 300)) eqn:Hs; [|discriminate].
    apply andb_prop in Hs as [H1 H2]. apply Z.leb_le in H1. apply Z.ltb_lt in H2.
    intros H. inversion H; subst st'. cbn [fst snd].
    exists entries, status. eexists. split; [reflexivity|]. split; [exact Hp|].
    split; [lia|]. split; [reflexivity|].
    destruct (negb (status =? 200) && negb (status =? 201)); cbn [level]; auto.
Qed.

(** What a run that returns has done.  The stocks were fetched and
    scored; the value returned is an array of one to three of the
    elements of the answer, each an object with a numeric score whose
    symbol and explanation convert to strings; the message made of
    exactly these elements has been posted once, in the world the scoring
    left, and the reply had a 2xx status; the world is the one the post
    left and the log is that of the scoring followed by one line, which
    is no error.  So the warning for an empty list is never written on
    this path. *)
Theorem runBot_posts (params : list (string * JsVal)) (st : St) (r : JsVal) (st' : St) :
  runBot net cfg params st = (inr r, st') ->
  exists stocks s1 answer s2 top rest entries status line,
    fetchUndervaluedStocks net cfg params st = (inr stocks, s1) /\
    scoreAndExplain net stocks s1 = (inr (JArr answer), s2) /\
    Permutation answer (top ++ rest) /\
    r = JArr top /\
    (1 <= List.length top <= 3)%nat /\
    forallb printable top = true /\
    format_entries 0 top = inr entries /\
    axios_post net (discord_url cfg) (discord_headers cfg)
               (discord_payload (List.length top) entries) (fst s2)
    = (inr status, fst st') /\
    200 <= status < 300 /\
    snd st' = (snd s2 ++ [line])%list /\
    (level line = LLog \/ level line = LWarn).
Proof.
  intros H.
  destruct (runBot_stages _ _ _ _ H)
    as (stocks & s1 & scored & s2 & top & Hf & Hsc & Ht & Hn & ->).
  assert (Hshape : exists o more, scored = JArr (JObj o :: more)).
  { destruct s1 as [w1 log1]. rewrite scoreAndExplain_run in Hsc.
    destruct (openai_create net stocks w1) as [[e|res] w']; [discriminate|].
    destruct (response_content res) as [e|[[|a c]|]]; try discriminate.
    destruct (regex_match (String a c)) as [m|] eqn:Hm; [|discriminate].
    destruct (JSON_parse m) as [e|v'] eqn:Hj; [discriminate|].
    inversion Hsc; subst. exact (parsed_match_shape _ _ _ Hm Hj). }
  destruct Hshape as (o & more & ->).
  destruct (top3_of_some _ _ Ht) as (rest & Hp & Hlen).
  cbn [List.length] in Hlen.
  destruct top as [|first others]; [cbn [List.length] in Hlen; lia|].
  destruct (notifyDiscord_sent _ _ _ _ Hn)
    as (entries & status & line & He & Hpost & Hs & Hlog & Hlev).
  exists stocks, s1, (JObj o :: more), s2, (first :: others), rest, entries, status, line.
  split; [exact Hf|]. split; [exact Hsc|]. split; [exact Hp|]. split; [reflexivity|].
  split; [lia|]. split; [exact (format_entries_inr _ _ _ He)|]. auto.
Qed.

Definition handler_failure (e : Exn) : LogLine :=
  {| level := LError; text := "Error:"; detail := Some (inl e) |}.

(** The handler of [GET /run] never throws.  It answers with the JSON of
    what [runBot] returned, an array of one to three objects with a
    numeric score, or, whenever [runBot] throws, with status 500 and the
    body "Internal Error" after one error line. *)
Theorem run_handler_responds (query : list (string * JsVal)) (st : St) :
  match runBot net cfg (run_params query) st with
  | (inr data, s) =>
      run_handler net cfg query st = (inr (ResJson data), s) /\
      exists top, data = JArr top /\ (1 <= List.length top <= 3)%nat /\
                  forallb has_score top = true
  | (inl e, s) =>
      run_handler net cfg query st
      = (inr (ResStatus 500 "Internal Error"), (fst s, snd s ++ [handler_failure e])%list)
  end.
Proof.
  destruct (runBot net cfg (run_params query) st) as [[e|data] s] eqn:H.
  - unfold run_handler, catch. unfold bind at 1. rewrite H. reflexivity.
  - split; [unfold run_handler, catch; unfold bind at 1; now rewrite H|].
    destruct (runBot_stages _ _ _ _ H)
      as (stocks & s1 & scored & s2 & top & Hf & Hsc & Ht & Hn & ->).
    exists top. split; [reflexivity|].
    assert (Hshape : exists o more, scored = JArr (JObj o :: more)).
    { destruct s1 as [w1 log1]. rewrite scoreAndExplain_run in Hsc.
      destruct (openai_create net stocks w1) as [[e|res] w']; [discriminate|].
      destruct (response_content res) as [e|[[|a c]|]]; try discriminate.
      destruct (regex_match (String a c)) as [m|] eqn:Hm; [|discriminate].
      destruct (JSON_parse m) as [e|v'] eqn:Hj; [discriminate|].
      inversion Hsc; subst. exact (parsed_match_shape _ _ _ Hm Hj). }
    destruct Hshape as (o & more & ->).
    destruct (top3_of_some _ _ Ht) as (rest & Hp & Hlen).
    cbn [List.length] in Hlen.
    destruct top as [|first others]; [cbn [List.length] in Hlen; lia|].
    destruct (notifyDiscord_sent _ _ _ _ Hn) as (entries & _ & _ & He & _).
    split; [lia|].
    exact (printable_has_score _ (format_entries_inr _ _ _ He)).
Qed.

End WholeRun.

Lemma score_array_witness :
  let net := example_net example_screener example_answer (inr 200) in
  exists v, scoreAndExplain net [] start = (inr v, start) /\
            exists o more, v = JArr (JObj o :: more).
Proof.
  cbv zeta.
  set (net := example_net example_screener example_answer (inr 200)).
  destruct (scoreAndExplain net [] start) as [[e|v] st'] eqn:E;
    [vm_compute in E; discriminate E|].
  destruct (scoreAndExplain_returns_array net [] start v st' E) as [Hv Hst].
  exists v. split; [|exact Hv]. rewrite Hst. reflexivity.
Defined.

Lemma score_throws_witness :
  let net := example_net example_screener "No picks today." (inr 200) in
  exists st', scoreAndExplain net [] start = (inl no_match_error, st') /\
    fst st' = tt /\
    snd st' = parse_failure_log no_match_error "No picks today.".
Proof.
  cbv zeta.
  set (net := example_net example_screener "No picks today." (inr 200)).
  destruct (scoreAndExplain net [] start) as [[e|v] st'] eqn:E;
    [|vm_compute in E; discriminate E].
  assert (He : e = no_match_error) by (vm_compute in E; inversion E; reflexivity).
  subst e. exists st'. split; [reflexivity|].
  destruct (scoreAndExplain_throws net [] start _ _ E) as [H1 H2].
  split; [exact H1|]. exact (proj2 H2).
Defined.

Lemma runBot_posts_witness :
  let net := example_net example_screener three_scores (inr 200) in
  exists top entries,
    fst (runBot net example_cfg [] start) = inr (JArr top) /\
    List.length top = 3%nat /\ forallb printable top = true /\
    format_entries 0 top = inr entries /\
    axios_post net (discord_url example_cfg) (discord_headers example_cfg)
               (discord_payload 3 entries) tt
    = (inr 200, tt).
Proof.
  cbv zeta.
  set (net := example_net example_screener three_scores (inr 200)).
  destruct (runBot net example_cfg [] start) as [[e|r] st'] eqn:E;
    [vm_compute in E; discriminate E|].
  destruct (runBot_posts net example_cfg [] start r st' E)
    as (stocks & s1 & answer & s2 & top & rest & entries & status & line
        & _ & _ & _ & -> & _ & Hs & He & _).
  exists top, entries.
  assert (Hlen : List.length top = 3%nat) by (vm_compute in E; inversion E; reflexivity).
  split; [reflexivity|]. split; [exact Hlen|]. split; [exact Hs|]. split; [exact He|].
  reflexivity.
Defined.

(** ** The best three *)

Lemma SFleb_trans (x y z : spec_float) :
  SFleb x y = true -> SFleb y z = true -> SFleb x z = true.
Proof.
  unfold SFleb.
  destruct x as [sx|sx| |sx mx ex], y as [sy|sy| |sy my ey], z as [sz|sz| |sz mz ez];
    cbn [SFcompare];
    repeat match goal with s : bool |- _ => destruct s end;
    try discriminate; try reflexivity;
    rewrite ?Pos.compare_cont_spec; unfold Pos.switch_Eq;
    destruct (Z.compare_spec ex ey), (Z.compare_spec ey ez), (Z.compare_spec ex ez);
    try discriminate; try reflexivity; try lia;
    destruct (Pos.compare_spec mx my), (Pos.compare_spec my mz), (Pos.compare_spec mx mz);
    cbn [CompOpp]; try discriminate; try reflexivity; lia.
Qed.

Lemma leb_trans (x y z : float) :
  (x <=? y)%float = true -> (y <=? z)%float = true -> (x <=? z)%float = true.
Proof. rewrite !leb_spec. apply SFleb_trans. Qed.

Lemma score_ge_trans (a b c : JsVal) : score_ge a b -> score_ge b c -> score_ge a c.
Proof.
  intros (x & y & Ha & Hb & H1) (y' & z & Hb' & Hc & H2).
  rewrite Hb in Hb'. inversion Hb'; subst y'.
  exists x, z. repeat split; try assumption. exact (leb_trans _ _ _ H2 H1).
Qed.

Lemma StronglySorted_app {A} (R : A -> A -> Prop) (l1 l2 : list A) :
  StronglySorted R (l1 ++ l2) -> forall a b, In a l1 -> In b l2 -> R a b.
Proof.
  induction l1 as [|x l1 IH]; cbn [app]; intros H a b Ha Hb; [contradiction|].
  inversion H as [|? ? Hs Hall]; subst. destruct Ha as [<-|Ha].
  - rewrite Forall_forall in Hall. apply Hall, in_or_app. now right.
  - now apply IH.
Qed.

(** The three kept are the best three.  Whatever the answer holds, what
    is kept and what is dropped make up the answer, nothing lost and
    nothing added, and three are kept unless the answer has fewer.  When
    every element is an object with a score other than NaN, each element
    kept has a score at least as large as that of each element dropped. *)
Theorem top3_of_best (l top : list JsVal) :
  top3_of (JArr l) = inr top ->
  exists rest,
    Permutation l (top ++ rest) /\
    List.length top = Nat.min 3 (List.length l) /\
    (forallb well_scored l = true ->
     forall a b, In a top -> In b rest -> score_ge a b).
Proof.
  unfold top3_of. destruct (Array_sort by_score l) as [e|s] eqn:E; [discriminate|].
  intros H. assert (Htop : top = firstn 3 s) by congruence. clear H.
  pose proof (Array_sort_perm _ _ _ E) as Hp.
  exists (skipn 3 s). rewrite Htop, firstn_skipn. split; [exact Hp|]. split.
  - rewrite length_firstn, (Permutation_length Hp). reflexivity.
  - intros Hw. destruct (well_scored_defined l Hw) as [E1 E2].
    destruct (sort_defined_sorted l Hw) as (s' & Hs & _ & _ & Hsorted).
    unfold Array_sort in E. rewrite E1, E2, Hs, app_nil_r in E.
    assert (Es : s = s') by congruence. subst s'.
    apply StronglySorted_app. rewrite firstn_skipn.
    apply Sorted_StronglySorted; [|exact Hsorted].
    intros a b c. apply score_ge_trans.
Qed.

Definition four_scored : list JsVal :=
  [JObj [("symbol", JStr "A"); ("score", JNum 3)];
   JObj [("symbol", JStr "B"); ("score", JNum 9.5)];
   JObj [("symbol", JStr "C"); ("score", JNum 1)];
   JObj [("symbol", JStr "D"); ("score", JNum 7)]].

Lemma top3_of_best_witness :
  exists top rest,
    top3_of (JArr four_scored) = inr top /\
    map (fun v => prop v "symbol") top = [JStr "B"; JStr "D"; JStr "A"] /\
    Permutation four_scored (top ++ rest) /\
    forall a b, In a top -> In b rest -> score_ge a b.
Proof.
  destruct (top3_of (JArr four_scored)) as [e|top] eqn:E;
    [vm_compute in E; discriminate E|].
  destruct (top3_of_best four_scored top E) as (rest & Hp & _ & Hbest).
  exists top, rest. split; [reflexivity|]. split.
  - vm_compute in E. inversion E. reflexivity.
  - split; [exact Hp|]. apply Hbest. reflexivity.
Defined.

(** ** The message *)

Lemma fixed_digits_parts (n : Z) (f : nat) :
  0 <= n ->
  exists ip fp,
    fixed_digits n (S f) = ip ++ "." ++ fp /\
    all_digits ip = true /\ ip <> "" /\ all_digits fp = true /\
    String.length fp = S f /\ dval (ip ++ fp) 0 = n.
Proof.
  intros H. destruct (padded_digits_spec n (S f) H) as (Hall & Hv & Hlen).
  rewrite fixed_digits_split. set (D := padded_digits n (S f)) in *.
  set (k := (String.length D - S f)%nat).
  exists (str_firstn k D), (str_skipn k D).
  pose proof (str_firstn_skipn k D) as Hsplit.
  assert (Hd : all_digits (str_firstn k D) && all_digits (str_skipn k D) = true)
    by now rewrite <- all_digits_app, Hsplit.
  apply andb_prop in Hd as [Hi Hf].
  split; [reflexivity|]. split; [exact Hi|]. split.
  - intros E. pose proof (str_length_firstn k D ltac:(lia)) as L.
    rewrite E in L. cbn [String.length] in L. lia.
  - split; [exact Hf|]. split; [rewrite str_length_skipn; lia|].
    now rewrite Hsplit.
Qed.

(** What the message shows of a score.  For an element whose score is a
    finite number of size below 10^21, zero included, and whose symbol
    and explanation convert to strings, the entry is the rank, the
    symbol, the score and the explanation.  The score is written as a
    sign, digits, a point and exactly two digits; the sign is a minus for
    a negative number and nothing otherwise, also for -0; the digits,
    read as an integer, are an integer nearest to a hundred times the
    size of the score. *)
Theorem format_entry_score (i : nat) (s : JsVal) (x : float) :
  score_of s = Some x -> is_nan x = false -> (1e21 <=? abs x)%float = false ->
  converts (prop s "symbol") = true -> converts (prop s "explanation") = true ->
  exists sign ip fp,
    format_entry i s
    = inr ("**" ++ decimal_digits (Z.of_nat (i + 1)) ++ ". " ++ ToString (prop s "symbol")
           ++ "** — Score: **" ++ (sign ++ ip ++ "." ++ fp)
           ++ "**" ++ nl ++ "*" ++ ToString (prop s "explanation") ++ "*") /\
    all_digits ip = true /\ ip <> "" /\ all_digits fp = true /\
    String.length fp = 2%nat /\
    match Prim2SF x with
    | S754_finite neg m e =>
        sign = (if neg then "-" else "") /\
        dval (ip ++ fp) 0 = round_scaled m e 2 /\
        2 * Z.abs (scale_num m e 2 - round_scaled m e 2 * scale_den e 2) <= scale_den e 2
    | _ => sign = "" /\ dval (ip ++ fp) 0 = 0
    end.
Proof.
  intros Hs Hnan Hbig Hsym Hexp.
  assert (Hp : printable s = true).
  { unfold printable. rewrite Hsym, Hexp, !andb_true_r.
    unfold score_of in Hs. unfold has_score. destruct s as [| | | | | |o]; try discriminate Hs.
    destruct (obj_get o "score") as [[| | |y| | |]|]; try discriminate Hs. reflexivity. }
  rewrite (format_entry_printable i s Hp).
  assert (Hscore : prop s "score" = JNum x).
  { unfold score_of in Hs. unfold prop. destruct s as [| | | | | |o]; try discriminate Hs.
    cbn [get_prop]. destruct (obj_get o "score") as [[| | |y| | |]|]; try discriminate Hs.
    congruence. }
  rewrite Hscore. unfold toFixed.
  destruct (Prim2SF x) as [sz|si| |neg m e] eqn:Hx.
  - destruct (fixed_digits_parts 0 1 (Z.le_refl 0))
      as (ip & fp & Hf & Hi1 & Hi2 & Hf1 & Hf2 & Hv).
    exists "", ip, fp. rewrite Hf. auto 10.
  - exfalso. rewrite leb_spec, abs_spec, Hx in Hbig. vm_compute in Hbig. discriminate Hbig.
  - exfalso. now apply (is_nan_Prim2SF x Hnan).
  - destruct (round_scaled_nearest m e 2) as [Hpos Hnear].
    destruct (fixed_digits_parts (round_scaled m e 2) 1 Hpos)
      as (ip & fp & Hf & Hi1 & Hi2 & Hf1 & Hf2 & Hv).
    exists (if neg then "-" else ""), ip, fp. rewrite Hbig, Hf. auto 10.
Qed.

Lemma format_entry_score_witness :
  let s := JObj [("symbol", JStr "B"); ("score", JNum 0); ("explanation", JStr "b")] in
  score_of s = Some 0%float /\
  exists ip fp,
    format_entry 0 s
    = inr ("**1. B** — Score: **" ++ ("" ++ ip ++ "." ++ fp) ++ "**" ++ nl ++ "*b*") /\
    String.length fp = 2%nat /\ dval (ip ++ fp) 0 = 0.
Proof.
  cbv zeta. split; [reflexivity|].
  destruct (format_entry_score 0
              (JObj [("symbol", JStr "B"); ("score", JNum 0); ("explanation", JStr "b")])
              0%float)
    as (sign & ip & fp & H1 & _ & _ & _ & H2 & H3);
    try (vm_compute; reflexivity).
  change (Prim2SF 0) with (S754_zero false) in H3. destruct H3 as [-> H3].
  exists ip, fp. split; [exact H1|]. split; [exact H2|exact H3].
Defined.

(** ** An estimate without revenue *)

(** What dividing [a] by a zero of sign [s] gives, and how [toFixed]
    writes it. *)
Definition by_zero (s : bool) (a r : float) : Prop :=
  match Prim2SF a with
  | S754_nan | S754_zero _ => Prim2SF r = S754_nan
  | S754_infinity sa | S754_finite sa _ _ => Prim2SF r = S754_infinity (xorb sa s)
  end.

Definition by_zero_text (s : bool) (a : float) : string :=
  match Prim2SF a with
  | S754_nan | S754_zero _ => "NaN"
  | S754_infinity sa | S754_finite sa _ _ => if xorb sa s then "-Infinity" else "Infinity"
  end.

Lemma div_by_zero (s : bool) (a z : float) :
  Prim2SF z = S754_zero s -> by_zero s a (a / z).
Proof.
  intros H. unfold by_zero. rewrite div_spec, H.
  destruct (Prim2SF a); reflexivity.
Qed.

Lemma round_to_by_zero (s : bool) (a q : float) (f : nat) :
  by_zero s a q -> round_to q f = q.
Proof.
  intros H. pose proof (round_to_rounds q f) as R. unfold rounds_to in R.
  unfold by_zero in H. destruct (Prim2SF a); rewrite H in R; exact R.
Qed.

Lemma percent_by_zero (s : bool) (a q : float) :
  by_zero s a q -> toFixed (q * 100) 1 = by_zero_text s a.
Proof.
  unfold by_zero, by_zero_text, toFixed. rewrite mul_spec.
  assert (H100 : Prim2SF 100 = S754_finite false 7036874417766400 (-46))
    by (vm_compute; reflexivity).
  rewrite H100.
  destruct (Prim2SF a) as [sa|sa| |sa ma ea]; intros ->; cbn [SF64mul SFmul];
    try reflexivity; rewrite xorb_false_r; reflexivity.
Qed.

(** An estimate whose average revenue is zero is not refused: the three
    ratios are divisions by zero.  Each is NaN when its numerator is zero
    or NaN and an infinity otherwise, of the sign of the numerator
    against that of the zero, and the summary shows them as [NaN%],
    [Infinity%] or [-Infinity%]. *)
Theorem extractKeyInsights_zero_revenue (data : RawStockData) (s : bool) :
  Prim2SF (revenueAvg data) = S754_zero s ->
  by_zero s (ebitdaAvg data) (ebitdaMargin (extractKeyInsights data)) /\
  by_zero s (netIncomeAvg data) (netMargin (extractKeyInsights data)) /\
  by_zero s (sgaExpenseAvg data) (sgaToRevenueRatio (extractKeyInsights data)) /\
  summary (extractKeyInsights data)
  = "EPS: $" ++ toFixed (epsAvg data) 2 ++
    ", EBITDA Margin: " ++ by_zero_text s (ebitdaAvg data) ++
    "%, Net Margin: " ++ by_zero_text s (netIncomeAvg data) ++
    "%, SG&A: " ++ by_zero_text s (sgaExpenseAvg data) ++
    "%, Analysts: " ++ Number_toString (analystCount (extractKeyInsights data)).
Proof.
  intros H.
  pose proof (div_by_zero s (ebitdaAvg data) _ H) as H1.
  pose proof (div_by_zero s (netIncomeAvg data) _ H) as H2.
  pose proof (div_by_zero s (sgaExpenseAvg data) _ H) as H3.
  cbn [extractKeyInsights ebitdaMargin netMargin sgaToRevenueRatio summary analystCount].
  rewrite (round_to_by_zero _ _ _ 4 H1), (round_to_by_zero _ _ _ 4 H2),
    (round_to_by_zero _ _ _ 4 H3).
  rewrite (percent_by_zero _ _ _ H1), (percent_by_zero _ _ _ H2),
    (percent_by_zero _ _ _ H3).
  auto.
Qed.

Definition estimate_without_revenue : JsVal :=
  JObj [("symbol", JStr "AAA"); ("date", JStr "2026-12-31");
        ("revenueAvg", JNum 0); ("ebitdaAvg", JNum 250);
        ("netIncomeAvg", JNum (-100)); ("sgaExpenseAvg", JNum 0);
        ("epsAvg", JNum 1.5);
        ("numAnalystsRevenue", JNum 5); ("numAnalystsEps", JNum 7)].

Lemma zero_revenue_witness :
  let data := as_RawStockData estimate_without_revenue in
  Prim2SF (revenueAvg data) = S754_zero false /\
  ebitdaMargin (extractKeyInsights data) = infinity /\
  summary (extractKeyInsights data)
  = "EPS: $1.50, EBITDA Margin: Infinity%, Net Margin: -Infinity%, SG&A: NaN%, Analysts: 7".
Proof.
  cbv zeta.
  assert (H : Prim2SF (revenueAvg (as_RawStockData estimate_without_revenue))
              = S754_zero false) by reflexivity.
  destruct (extractKeyInsights_zero_revenue _ false H) as (_ & _ & _ & Hs).
  split; [exact H|]. split; [vm_compute; reflexivity|].
  rewrite Hs. vm_compute. reflexivity.
Defined.

(** ** The limit of a run *)

(** The limit the handler asks the screener for is a number that is
    neither NaN nor zero: the number the query's [limit] converts to when
    that is neither, and 400 otherwise. *)
Theorem run_params_limit (query : list (string * JsVal)) :
  let asked :=
    ToNumber (match obj_get query "limit" with Some v => v | None => JUndefined end) in
  exists n,
    obj_get (finalParams (run_params query)) "limit" = Some (JNum n) /\
    is_nan n = false /\ is_zero n = false /\
    n = (if is_nan asked || is_zero asked then 400%float else asked).
Proof.
  cbv zeta.
  set (asked := ToNumber (match obj_get query "limit" with
                          | Some v => v | None => JUndefined end)).
  assert (Hover : forall k v, obj_get (run_params query) k = Some v ->
                    obj_get (finalParams (run_params query)) k = Some v).
  { intros k v H. unfold finalParams. apply obj_get_spread_present.
    - rewrite run_params_keys. apply run_keys_nodup.
    - now apply obj_get_In. }
  assert (Hl : obj_get (run_params query) "limit"
               = Some (if truthy (JNum asked) then JNum asked else JNum 400)).
  { unfold run_params. rewrite obj_literal_nodup by apply run_keys_nodup. reflexivity. }
  apply Hover in Hl. cbn [truthy] in Hl.
  destruct (is_nan asked || is_zero asked) eqn:E; cbn [negb] in Hl.
  - exists 400%float. split; [exact Hl|]. repeat split; reflexivity.
  - apply orb_false_iff in E as [E1 E2]. exists asked. auto.
Qed.

(** ** A run that throws *)

(** An element the comparator cannot read: [null], which has no
    properties, or an element whose score does not convert to a
    number. *)
Definition unscorable (v : JsVal) : bool :=
  nullish v || negb (converts (prop v "score")).

Lemma by_score_error (a b : JsVal) (e : Exn) :
  by_score a b = inl e ->
  e = TypeError /\ (unscorable a = true \/ unscorable b = true).
Proof.
  unfold by_score, unscorable.
  destruct (nullish b) eqn:Nb.
  { destruct b; try discriminate Nb; cbn [get_prop]; intros H; inversion H; auto. }
  rewrite (get_prop_prop b "score" Nb).
  destruct (nullish a) eqn:Na.
  { destruct a; try discriminate Na; cbn [get_prop]; intros H; inversion H; auto. }
  rewrite (get_prop_prop a "score" Na). cbn [orb].
  destruct (converts (prop b "score")); destruct (converts (prop a "score"));
    cbn [andb negb]; intros H; inversion H; auto.
Qed.

Lemma sort_insert_error (x : JsVal) (l : list JsVal) (e : Exn) :
  sort_insert by_score x l = inl e ->
  e = TypeError /\ exists v, In v (x :: l) /\ unscorable v = true.
Proof.
  induction l as [|y l IH]; cbn [sort_insert]; [discriminate|].
  destruct (by_score x y) as [e1|v] eqn:Hc.
  - intros H. inversion H; subst e1.
    destruct (by_score_error _ _ _ Hc) as [He [Hn|Hn]]; (split; [exact He|]).
    + exists x. split; [now left|exact Hn].
    + exists y. split; [right; now left|exact Hn].
  - destruct (0 <? v)%float; [|discriminate].
    destruct (sort_insert by_score x l) as [e1|r]; [|discriminate].
    intros H. inversion H; subst e1. destruct (IH eq_refl) as (He & v0 & Hin & Hn).
    split; [exact He|]. exists v0. split; [|exact Hn].
    destruct Hin as [<-|Hin]; [now left|right; now right].
Qed.

Lemma sort_defined_error (l : list JsVal) (e : Exn) :
  sort_defined by_score l = inl e ->
  e = TypeError /\ exists v, In v l /\ unscorable v = true.
Proof.
  induction l as [|x l IH]; cbn [sort_defined]; [discriminate|].
  destruct (sort_defined by_score l) as [e1|s] eqn:Hs.
  - intros H. inversion H; subst e1. destruct (IH eq_refl) as (He & v & Hin & Hn).
    split; [exact He|]. exists v. split; [now right|exact Hn].
  - intros H. destruct (sort_insert_error _ _ _ H) as (He & v & Hin & Hn).
    split; [exact He|]. exists v. split; [|exact Hn].
    destruct Hin as [<-|Hin]; [now left|right].
    apply (Permutation_in v (Permutation_sym (sort_defined_perm _ _ _ Hs))). exact Hin.
Qed.

(** The sort throws only a TypeError, and only on an array that holds
    [null] or an element whose score does not convert to a number. *)
Lemma top3_of_error (l : list JsVal) (e : Exn) :
  top3_of (JArr l) = inl e ->
  e = TypeError /\
  exists v, In v l /\ (v = JNull \/ converts (prop v "score") = false).
Proof.
  unfold top3_of, Array_sort.
  destruct (sort_defined by_score (filter (fun v => negb (is_undefined v)) l))
    as [e1|s] eqn:Hs; [|discriminate].
  intros H. inversion H; subst e1.
  destruct (sort_defined_error _ _ Hs) as (He & v & Hin & Hn).
  split; [exact He|]. apply filter_In in Hin as [Hin Hu].
  exists v. split; [exact Hin|]. unfold unscorable in Hn.
  apply orb_prop in Hn as [Hn|Hn].
  - left. destruct v; try discriminate Hn; [discriminate Hu|reflexivity].
  - right. now apply negb_true_iff in Hn.
Qed.

Section FailedRun.

Context {World : Type}.
Variable net : Services World.
Variable cfg : Config.

(** A run that throws has failed in one of four places, and nothing that
    comes after that place has been done.  Either fetching the stocks
    threw; or scoring them did; or the sort did, which is a TypeError on
    an answer that holds [null] or an element whose score does not
    convert to a number, and no message is posted; or the notifier threw,
    handed the first three of the sorted answer. *)
Theorem runBot_throws (params : list (string * JsVal))
    (st : World * list LogLine) (e : Exn) (st' : World * list LogLine) :
  runBot net cfg params st = (inl e, st') ->
  fetchUndervaluedStocks net cfg params st = (inl e, st') \/
  exists stocks s1,
    fetchUndervaluedStocks net cfg params st = (inr stocks, s1) /\
    (scoreAndExplain net stocks s1 = (inl e, st') \/
     exists answer s2,
       scoreAndExplain net stocks s1 = (inr (JArr answer), s2) /\
       ((e = TypeError /\ st' = s2 /\
         exists v, In v answer /\ (v = JNull \/ converts (prop v "score") = false)) \/
        exists top, top3_of (JArr answer) = inr top /\
                    notifyDiscord net cfg (JArr top) s2 = (inl e, st'))).
Proof.
  unfold runBot. unfold bind at 1.
  destruct (fetchUndervaluedStocks net cfg params st) as [[e0|stocks] s1] eqn:Hf;
    [intros H; inversion H; subst; now left|].
  unfold bind at 1.
  destruct (scoreAndExplain net stocks s1) as [[e0|scored] s2] eqn:Hsc;
    [intros H; inversion H; subst; right; exists stocks, s1; auto|].
  assert (Hshape : exists o more, scored = JArr (JObj o :: more)).
  { destruct s1 as [w1 log1]. rewrite scoreAndExplain_run in Hsc.
    destruct (openai_create net stocks w1) as [[e0|res] w']; [discriminate|].
    destruct (response_content res) as [e0|[[|a c]|]]; try discriminate.
    destruct (regex_match (String a c)) as [m|] eqn:Hm; [|discriminate].
    destruct (JSON_parse m) as [e0|v'] eqn:Hj; [discriminate|].
    inversion Hsc; subst. exact (parsed_match_shape _ _ _ Hm Hj). }
  destruct Hshape as (o & more & ->).
  unfold bind at 1. unfold lift.
  destruct (top3_of (JArr (JObj o :: more))) as [e0|top] eqn:Ht.
  - intros H. inversion H; subst. destruct (top3_of_error _ _ Ht) as [He Hin].
    right. exists stocks, s1. split; [reflexivity|]. right.
    exists (JObj o :: more), st'. split; [exact Hsc|]. left. auto.
  - unfold bind, ret.
    destruct (notifyDiscord net cfg (JArr top) s2) as [[e0|u] s3] eqn:Hn; [|discriminate].
    intros H. inversion H; subst.
    right. exists stocks, s1. split; [reflexivity|]. right.
    exists (JObj o :: more), s2. split; [exact Hsc|]. right.
    exists top. auto.
Qed.

End FailedRun.

(** An answer that holds [null] between two scored stocks. *)
Definition answer_with_null : string :=
  "[{" ++ quoted "symbol" ++ ":" ++ quoted "A" ++ "," ++ quoted "score" ++ ":3},null,"
  ++ "{" ++ quoted "symbol" ++ ":" ++ quoted "B" ++ "," ++ quoted "score" ++ ":9}]".

Lemma runBot_throws_witness :
  let net := example_net example_screener answer_with_null (inr 200) in
  exists st',
    runBot net example_cfg [] start = (inl TypeError, st') /\
    exists stocks s1 answer,
      fetchUndervaluedStocks net example_cfg [] start = (inr stocks, s1) /\
      scoreAndExplain net stocks s1 = (inr (JArr answer), st') /\
      exists v, In v answer /\ (v = JNull \/ converts (prop v "score") = false).
Proof.
  cbv zeta.
  set (net := example_net example_screener answer_with_null (inr 200)).
  destruct (runBot net example_cfg [] start) as [[e|r] st'] eqn:E;
    [|vm_compute in E; discriminate E].
  assert (He : e = TypeError) by (vm_compute in E; inversion E; reflexivity).
  subst e. exists st'. split; [reflexivity|].
  destruct (runBot_throws net example_cfg [] start _ _ E)
    as [Hf|(stocks & s1 & Hf & [Hs|(answer & s2 & Hs & [(_ & -> & Hin)|(top & Ht & Hn)])])].
  - vm_compute in Hf. discriminate Hf.
  - exfalso. vm_compute in Hf. inversion Hf; subst. vm_compute in Hs. discriminate Hs.
  - exists stocks, s1, answer. auto.
  - exfalso. vm_compute in Hf. inversion Hf; subst. vm_compute in Hs. inversion Hs; subst.
    vm_compute in Ht. discriminate Ht.
Defined.
